(** * SAR single-node recommender: a shallow embedding of
    [reco_utils_2/recommender/sar/sar_singlenode.py]

    The development follows the source file top to bottom:
    - [F64]: float64 cells, as IEEE 754 binary64 ([SpecFloat] of the
      Standard Library), so that infinities, NaN and overflow behave as in
      numpy;
    - [Np], [Sp], [Pd]: the few numpy, scipy.sparse and pandas operations
      the class calls, each with the error it raises;
    - the class [SARSingleNode] itself: one Rocq function per method, with
      [self] passed explicitly and exceptions as the [Raise] case of
      [result]. *)

From Stdlib Require Import ZArith Bool Floats.SpecFloat.
From stdpp Require Import gmap strings list sorting.

#[local] Set Warnings "-clear-no-such-hyp".

Open Scope Z_scope.
Open Scope nat_scope.
Open Scope string_scope.

(** ** float64 *)

Abbreviation float := spec_float.

Module F64.
Definition prec : Z := 53.
Definition emax : Z := 1024.

Definition add : float → float → float := SFadd prec emax.
Definition sub : float → float → float := SFsub prec emax.
Definition mul : float → float → float := SFmul prec emax.
Definition div : float → float → float := SFdiv prec emax.

(** An integer read as a float64 (exact below 2^53). *)
Definition of_Z (z : Z) : float := binary_normalize prec emax z 0 false.

Definition zero : float := S754_zero false.
Definition one : float := of_Z 1.
Definition inf : float := S754_infinity false.
Definition neg_inf : float := S754_infinity true.
Definition nan : float := S754_nan.

(** [np.isnan] on one cell. *)
Definition isnan (x : float) : bool :=
  match x with S754_nan => true | _ => false end.

(** [np.isfinite] on one cell. *)
Definition isfinite (x : float) : bool :=
  match x with S754_zero _ | S754_finite _ _ _ => true | _ => false end.

(** The nearest float16, read back as a float64: what a store into an
    array of dtype float16 keeps. *)
Definition round16 (x : float) : float :=
  match x with
  | S754_finite s m e =>
      match binary_normalize 11 16 (cond_Zopp s (Zpos m)) e s with
      | S754_finite s' m' e' => binary_normalize prec emax (cond_Zopp s' (Zpos m')) e' s'
      | y => y
      end
  | _ => x
  end.

Definition is_zero (x : float) : bool :=
  match x with S754_zero _ => true | _ => false end.

(** Strictly positive, +inf included. *)
Definition positive (x : float) : bool :=
  match x with
  | S754_finite false _ _ | S754_infinity false => true
  | _ => false
  end.
End F64.

Global Instance float_eq_dec : EqDecision float.
Proof. solve_decision. Defined.

(** ** Exceptions *)

Inductive exn :=
| ValueError (msg : string)
| TypeError (msg : string)
| KeyError (key : string)
| IndexError (msg : string)
| FileNotFoundError (path : string).

Inductive result (A : Type) :=
| Ok (a : A)
| Raise (e : exn).
Arguments Ok {A} a.
Arguments Raise {A} e.

Definition bind {A B} (r : result A) (k : A → result B) : result B :=
  match r with Ok a => k a | Raise e => Raise e end.

Notation "'let!' x ':=' r 'in' k" := (bind r (fun x => k))
  (at level 10, x pattern, r at level 100, k at level 200).

Definition is_ok {A} (r : result A) : bool :=
  match r with Ok _ => true | Raise _ => false end.

(** An attribute of [self] that is still [None]: using it as a mapping or
    a matrix is a [TypeError]. *)
Definition attr {A} (name : string) (o : option A) : result A :=
  match o with
  | Some a => Ok a
  | None => Raise (TypeError ("'NoneType' object: " ++ name))
  end.

(** The two [ValueError]s of [score], under the names the specification
    gives them. *)
Definition UnknownEntity : exn :=
  ValueError "SAR cannot score users that are not in the training set".
Definition NormalizationUnavailable : exn :=
  ValueError "Cannot use normalize flag during scoring if it was not set at model instantiation".
(** What [np.divide] raises on a scipy sparse divisor. *)
Definition SparseDivisor : exn :=
  TypeError "unsupported operand type(s) for /: 'float' and 'csr_matrix'".
Definition InvalidConfiguration_similarity : exn :=
  ValueError "Similarity type must be one of [cooccurrence | jaccard | lift | custom]".
Definition InvalidConfiguration_threshold : exn :=
  ValueError "Threshold cannot be < 1".

(** ** numpy: dense two-dimensional arrays *)

Record ndarray := mk_ndarray {
  nrows : nat;
  ncols : nat;
  cell : nat → nat → float
}.

Module Np.
(** [np.zeros((r, c))]. *)
Definition zeros (r c : nat) : ndarray := mk_ndarray r c (λ _ _, F64.zero).

(** [np.append(a, b, axis=1)]: the rows of [b] are appended to the rows
    of [a]; the two arrays must have the same number of rows. *)
Definition append_axis1 (a b : ndarray) : result ndarray :=
  if decide (nrows a = nrows b) then
    Ok (mk_ndarray (nrows a) (ncols a + ncols b)
          (λ r c, if decide (c < ncols a) then cell a r c
                  else cell b r (c - ncols a)))
  else
    Raise (ValueError "all the input array dimensions except for the concatenation axis must match exactly").

(** [np.divide(a, b)] on arrays of one shape, cell by cell. *)
Definition divide (a b : ndarray) : result ndarray :=
  if decide (nrows a = nrows b ∧ ncols a = ncols b) then
    Ok (mk_ndarray (nrows a) (ncols a) (λ r c, F64.div (cell a r c) (cell b r c)))
  else Raise (ValueError "operands could not be broadcast together").

(** [np.where(np.isnan(a), v, a)]. *)
Definition where_isnan (a : ndarray) (v : float) : ndarray :=
  mk_ndarray (nrows a) (ncols a)
    (λ r c, if F64.isnan (cell a r c) then v else cell a r c).

(** [w * a] for a scalar [w]. *)
Definition scale (w : float) (a : ndarray) : ndarray :=
  mk_ndarray (nrows a) (ncols a) (λ r c, F64.mul w (cell a r c)).

(** [a += b] where [b] has the shape of [a], or broadcasts to it from a
    single row or column. *)
Definition iadd (a b : ndarray) : result ndarray :=
  if decide ((nrows b = nrows a ∨ nrows b = 1) ∧ (ncols b = ncols a ∨ ncols b = 1)) then
    Ok (mk_ndarray (nrows a) (ncols a)
          (λ r c, F64.add (cell a r c)
                    (cell b (if decide (nrows b = nrows a) then r else 0)
                            (if decide (ncols b = ncols a) then c else 0))))
  else Raise (ValueError "operands could not be broadcast together").

(** [a[rows, cols]] with two index arrays of one length: the cells
    [a[rows[k], cols[k]]]. An index outside the array is an [IndexError]. *)
Fixpoint take_pairs (a : ndarray) (ix : list (nat * nat)) : result (list float) :=
  match ix with
  | [] => Ok []
  | (r, c) :: ix' =>
      if decide (r < nrows a ∧ c < ncols a) then
        let! vs := take_pairs a ix' in Ok (cell a r c :: vs)
      else Raise (IndexError "index is out of bounds")
  end.

(** [a[rows, cols] = v] with two index arrays of one length. *)
Fixpoint put_pairs (a : ndarray) (ix : list (nat * nat)) (v : float) : result ndarray :=
  match ix with
  | [] => Ok a
  | (r, c) :: ix' =>
      if decide (r < nrows a ∧ c < ncols a) then
        put_pairs (mk_ndarray (nrows a) (ncols a)
                     (λ r' c', if decide (r' = r ∧ c' = c) then v else cell a r' c'))
                  ix' v
      else Raise (IndexError "index is out of bounds")
  end.


(** [a[r, c] = v]. *)
Definition set_cell (a : ndarray) (r c : nat) (v : float) : result ndarray :=
  if decide (r < nrows a ∧ c < ncols a) then
    Ok (mk_ndarray (nrows a) (ncols a)
          (λ r' c', if decide (r' = r ∧ c' = c) then v else cell a r' c'))
  else Raise (IndexError "index is out of bounds").

(** [a.diagonal()]. *)
Definition diagonal (a : ndarray) : list float :=
  map (λ i, cell a i i) (seq 0 (Nat.min (nrows a) (ncols a))).

(** A symmetric matrix: square, with equal cells across the diagonal. *)
Definition symmetric (a : ndarray) : Prop :=
  nrows a = ncols a ∧ ∀ i j, i < nrows a → j < nrows a → cell a i j = cell a j i.
End Np.

(** ** scipy.sparse: matrices with explicitly stored entries *)

(** [stored m u i = None] is a structural zero; [Some v] is a stored entry
    (whose value may itself be 0.0). *)
Record csr := mk_csr {
  sp_rows : nat;
  sp_cols : nat;
  stored : nat → nat → option float
}.

Module Sp.
Definition sum_duplicates (vs : list float) : option float :=
  match vs with
  | [] => None
  | v :: vs' => Some (foldl F64.add v vs')
  end.

(** [sparse.coo_matrix((data, (row, col)), shape=shape).tocsr()]:
    entries with the same coordinates are added up, in input order.
    A coordinate outside [shape] is a [ValueError]. *)
Definition coo_matrix (entries : list (float * (nat * nat))) (shape : nat * nat) : result csr :=
  if forallb (λ e, bool_decide (e.2.1 < shape.1 ∧ e.2.2 < shape.2)) entries then
    Ok (mk_csr shape.1 shape.2
          (λ u i, sum_duplicates (map fst (filter (λ e, e.2 = (u, i)) entries))))
  else Raise (ValueError "row or column index exceeds matrix dimensions").

(** [m[rows, :]]. *)
Definition take_rows (m : csr) (rows : list nat) : result csr :=
  if forallb (λ u, bool_decide (u < sp_rows m)) rows then
    Ok (mk_csr (length rows) (sp_cols m)
          (λ k i, match rows !! k with Some u => stored m u i | None => None end))
  else Raise (IndexError "row index out of bounds").

(** [m * w] for a scalar [w]: the stored entries are multiplied, the
    structural zeros stay. *)
Definition scale (m : csr) (w : float) : csr :=
  mk_csr (sp_rows m) (sp_cols m) (λ u i, (λ v, F64.mul v w) <$> stored m u i).

(** One cell of [m.dot(s)]: the stored entries of row [u] of [m], in
    column order, each times the cell of [s] below it. *)
Definition dot_cell (m : csr) (s : ndarray) (u j : nat) : float :=
  foldl (λ acc i, match stored m u i with
                  | Some v => F64.add acc (F64.mul v (cell s i j))
                  | None => acc
                  end)
        F64.zero (seq 0 (sp_cols m)).

(** [m.dot(s)], as a dense array. (In co-occurrence mode the item
    similarity is itself a sparse matrix and the product is densified with
    [toarray()]; its cells are the same sums.) *)
Definition dot (m : csr) (s : ndarray) : result ndarray :=
  if decide (sp_cols m = nrows s) then
    Ok (mk_ndarray (sp_rows m) (ncols s) (dot_cell m s))
  else Raise (ValueError "dimension mismatch").

(** [a + m] for a dense [a] and a sparse [m] of one shape: each stored
    entry is added to the cell it sits on. *)
Definition add_to_dense (a : ndarray) (m : csr) : result ndarray :=
  if decide (nrows a = sp_rows m ∧ ncols a = sp_cols m) then
    Ok (mk_ndarray (nrows a) (ncols a)
          (λ r c, match stored m r c with
                  | Some v => F64.add (cell a r c) v
                  | None => cell a r c
                  end))
  else Raise (ValueError "inconsistent shapes").
End Sp.

(** ** pandas: the frame operations of [fit] *)

Module Pd.
Section Lists.
Context {A K : Type} `{EqDecision A, EqDecision K}.

(** [Series.unique()] and [Series.drop_duplicates()]: the first
    occurrence of each value, in input order. *)
Fixpoint unique (l : list A) : list A :=
  match l with
  | [] => []
  | x :: l' => x :: filter (λ y, y ≠ x) (unique l')
  end.

(** [df.drop_duplicates(cols, keep="last")]: a row is kept when no
    later row has its key. *)
Fixpoint drop_duplicates_last (key : A → K) (rows : list A) : list A :=
  match rows with
  | [] => []
  | r :: rows' =>
      if decide (key r ∈ map key rows') then drop_duplicates_last key rows'
      else r :: drop_duplicates_last key rows'
  end.

(** [dict(enumerate(l))]. *)
Definition enumerate (l : list A) : list (nat * A) := zip (seq 0 (length l)) l.
End Lists.

(** A dict built from key/value pairs in order: a later pair overwrites
    an earlier one with the same key. *)
Definition dict `{Countable K} {V} (kvs : list (K * V)) : gmap K V :=
  foldl (λ m kv, <[kv.1 := kv.2]> m) ∅ kvs.

(** Keys of [groupby([col_user, col_item])] come out sorted. *)
Definition key_le (a b : string * string) : Prop :=
  match String.compare a.1 b.1 with
  | Lt => True
  | Gt => False
  | Eq => String.leb a.2 b.2 = true
  end.

Global Instance key_le_dec a b : Decision (key_le a b).
Proof. unfold key_le. destruct (String.compare a.1 b.1); apply _. Defined.

(** Column sums of [groupby(...).sum()]: NaN cells are skipped. *)
Definition sum_skipna (vs : list float) : float :=
  foldl F64.add F64.zero (filter (λ v, F64.isnan v = false) vs).
End Pd.

(** ** Tables *)

(** A row of the interaction table given to [fit]: user, item, rating and
    timestamp columns. *)
Record interaction := mk_interaction {
  i_user : string;
  i_item : string;
  i_rating : float;
  i_timestamp : Z
}.

(** A cell of an index column. [Series.map(dict)] leaves NaN where the
    dict has no such key. *)
Inductive idx := Idx (n : nat) | IdxNaN.

Global Instance idx_eq_dec : EqDecision idx.
Proof. solve_decision. Defined.

(** A row of [temp_df], the working frame of [fit]. A column the frame
    does not have (yet) is [None] in every row. *)
Record trow := mk_trow {
  t_user : string;              (* col_user *)
  t_item : string;              (* col_item *)
  t_rating : float;             (* col_rating *)
  t_timestamp : option Z;       (* col_timestamp, selected under time decay only *)
  t_item_id : option idx;       (* "_indexed_items" *)
  t_user_id : option idx;       (* "_indexed_users" *)
  t_unity : option float        (* "_unity_rating" *)
}.

Definition t_key (r : trow) : string * string := (t_user r, t_item r).

(** The columns [compute_time_decay] and [compute_affinity_matrix] are
    called on. *)
Inductive weight_column := col_rating | col_unity_rating.

Definition idx_sum (cells : list idx) : idx :=
  Idx (foldr (λ c acc, match c with Idx n => n + acc | IdxNaN => acc end) 0 cells).

(** The sum of an int64 column: the total wraps around at 64 bits. *)
Definition sum_int64 (l : list Z) : Z :=
  ((foldr Z.add 0 l + 2 ^ 63) mod 2 ^ 64 - 2 ^ 63)%Z.

(** The sum of one column over a group, [None] when the frame lacks the
    column. *)
Definition col_sum {A B} (f : list A → B) (cells : list (option A)) : option B :=
  f <$> mapM id cells.

(** [df.groupby([col_user, col_item]).sum().reset_index()]: one row per
    key, keys sorted, every other column summed over the rows of the key. *)
Definition sum_group (k : string * string) (g : list trow) : trow :=
  {| t_user := k.1;
     t_item := k.2;
     t_rating := Pd.sum_skipna (map t_rating g);
     t_timestamp := col_sum sum_int64 (map t_timestamp g);
     t_item_id := col_sum idx_sum (map t_item_id g);
     t_user_id := col_sum idx_sum (map t_user_id g);
     t_unity := col_sum Pd.sum_skipna (map t_unity g) |}.

Definition groupby_sum (df : list trow) : list trow :=
  map (λ k, sum_group k (filter (λ r, t_key r = k) df))
      (merge_sort Pd.key_le (Pd.unique (map t_key df))).

Fixpoint traverse {A B} (f : A → result B) (l : list A) : result (list B) :=
  match l with
  | [] => Ok []
  | x :: l' => let! y := f x in let! ys := traverse f l' in Ok (y :: ys)
  end.

(** [df[col]] for a column the frame may lack. *)
Definition column {A B} (name : string) (get : A → option B) (df : list A) : result (list B) :=
  traverse (λ r, match get r with Some v => Ok v | None => Raise (KeyError name) end) df.

(** The item-feature table of [fit]: one row per item, with the item id
    and the value of each named feature column. *)
Record feature_row (FV : Type) := mk_feature_row {
  f_itemid : string;
  f_value : string → FV
}.
Arguments mk_feature_row {FV} _ _.
Arguments f_itemid {FV} _.
Arguments f_value {FV} _ _.

(** [col_weights]: the weight under the key 'ratings', and for every
    other key, in dict order, a (weight, similarity function) pair. *)
Record col_weights (FV : Type) := mk_col_weights {
  cw_ratings : option float;
  cw_features : list (string * (float * (FV → FV → float)))
}.
Arguments mk_col_weights {FV} _ _.
Arguments cw_ratings {FV} _.
Arguments cw_features {FV} _.

(** What [save_to_file] writes and [load_file] reads back. *)
Record saved_files := mk_saved_files {
  file_item_feature_similarity : ndarray;
  file_index2item : gmap nat string;
  file_item2index : gmap string nat
}.

(** The files on disk, by directory and catalogue size ([num_items] is
    part of every file name). *)
Abbreviation disk := (gmap (string * nat) saved_files).

Definition DATA_DIR : string := "../data/".
Definition COOCCUR : string := "cooccurrence".
Definition JACCARD : string := "jaccard".
Definition LIFT : string := "lift".

(** ** The class [SARSingleNode]

    The attributes of [self] that the methods read or assign; the column-name
    attributes are constants and appear as field names of the tables. *)
Record SAR := mk_SAR {
  similarity_type : string;
  time_decay_half_life : Z;
  time_decay_flag : bool;
  time_now : option Z;
  threshold : Z;
  user_affinity : option csr;
  item_similarity : option ndarray;   (* its cells; its kind is the last field *)
  item_frequencies : option (list float);
  normalize : bool;
  unity_user_affinity : option csr;
  n_users : option nat;
  n_items : option nat;
  user2index : option (gmap string nat);
  item2index : option (gmap string nat);
  index2item : option (gmap nat string);
  features_sim_matrix : option ndarray;
  (* whether the object in [similarity_type] is the string literal of this
     module itself (a module constant passed on, or an equal literal the
     compiler interned), which is what [is] tests in [fit]; a string read
     or built at run time is equal to the literal without being it *)
  similarity_is_literal : bool;
  (* whether the object in [item_similarity] is a scipy sparse matrix
     (the co-occurrence matrix itself) rather than a dense array *)
  item_similarity_sparse : bool
}.

(** Assignments [self.x = v]: every other attribute is kept. *)
Definition set_time_now (v : option Z) (self : SAR) : SAR :=
  mk_SAR (similarity_type self) (time_decay_half_life self) (time_decay_flag self)
         v (threshold self) (user_affinity self)
         (item_similarity self) (item_frequencies self) (normalize self)
         (unity_user_affinity self) (n_users self) (n_items self)
         (user2index self) (item2index self) (index2item self)
         (features_sim_matrix self)
         (similarity_is_literal self) (item_similarity_sparse self).

Definition set_user_affinity (v : option csr) (self : SAR) : SAR :=
  mk_SAR (similarity_type self) (time_decay_half_life self) (time_decay_flag self)
         (time_now self) (threshold self) v
         (item_similarity self) (item_frequencies self) (normalize self)
         (unity_user_affinity self) (n_users self) (n_items self)
         (user2index self) (item2index self) (index2item self)
         (features_sim_matrix self)
         (similarity_is_literal self) (item_similarity_sparse self).

Definition set_item_similarity (v : option ndarray) (self : SAR) : SAR :=
  mk_SAR (similarity_type self) (time_decay_half_life self) (time_decay_flag self)
         (time_now self) (threshold self) (user_affinity self)
         v (item_frequencies self) (normalize self)
         (unity_user_affinity self) (n_users self) (n_items self)
         (user2index self) (item2index self) (index2item self)
         (features_sim_matrix self)
         (similarity_is_literal self) (item_similarity_sparse self).

Definition set_item_frequencies (v : option (list float)) (self : SAR) : SAR :=
  mk_SAR (similarity_type self) (time_decay_half_life self) (time_decay_flag self)
         (time_now self) (threshold self) (user_affinity self)
         (item_similarity self) v (normalize self)
         (unity_user_affinity self) (n_users self) (n_items self)
         (user2index self) (item2index self) (index2item self)
         (features_sim_matrix self)
         (similarity_is_literal self) (item_similarity_sparse self).

Definition set_unity_user_affinity (v : option csr) (self : SAR) : SAR :=
  mk_SAR (similarity_type self) (time_decay_half_life self) (time_decay_flag self)
         (time_now self) (threshold self) (user_affinity self)
         (item_similarity self) (item_frequencies self) (normalize self)
         v (n_users self) (n_items self)
         (user2index self) (item2index self) (index2item self)
         (features_sim_matrix self)
         (similarity_is_literal self) (item_similarity_sparse self).

Definition set_n_users (v : option nat) (self : SAR) : SAR :=
  mk_SAR (similarity_type self) (time_decay_half_life self) (time_decay_flag self)
         (time_now self) (threshold self) (user_affinity self)
         (item_similarity self) (item_frequencies self) (normalize self)
         (unity_user_affinity self) v (n_items self)
         (user2index self) (item2index self) (index2item self)
         (features_sim_matrix self)
         (similarity_is_literal self) (item_similarity_sparse self).

Definition set_n_items (v : option nat) (self : SAR) : SAR :=
  mk_SAR (similarity_type self) (time_decay_half_life self) (time_decay_flag self)
         (time_now self) (threshold self) (user_affinity self)
         (item_similarity self) (item_frequencies self) (normalize self)
         (unity_user_affinity self) (n_users self) v
         (user2index self) (item2index self) (index2item self)
         (features_sim_matrix self)
         (similarity_is_literal self) (item_similarity_sparse self).

Definition set_user2index (v : option (gmap string nat)) (self : SAR) : SAR :=
  mk_SAR (similarity_type self) (time_decay_half_life self) (time_decay_flag self)
         (time_now self) (threshold self) (user_affinity self)
         (item_similarity self) (item_frequencies self) (normalize self)
         (unity_user_affinity self) (n_users self) (n_items self)
         v (item2index self) (index2item self)
         (features_sim_matrix self)
         (similarity_is_literal self) (item_similarity_sparse self).

Definition set_item2index (v : option (gmap string nat)) (self : SAR) : SAR :=
  mk_SAR (similarity_type self) (time_decay_half_life self) (time_decay_flag self)
         (time_now self) (threshold self) (user_affinity self)
         (item_similarity self) (item_frequencies self) (normalize self)
         (unity_user_affinity self) (n_users self) (n_items self)
         (user2index self) v (index2item self)
         (features_sim_matrix self)
         (similarity_is_literal self) (item_similarity_sparse self).

Definition set_index2item (v : option (gmap nat string)) (self : SAR) : SAR :=
  mk_SAR (similarity_type self) (time_decay_half_life self) (time_decay_flag self)
         (time_now self) (threshold self) (user_affinity self)
         (item_similarity self) (item_frequencies self) (normalize self)
         (unity_user_affinity self) (n_users self) (n_items self)
         (user2index self) (item2index self) v
         (features_sim_matrix self)
         (similarity_is_literal self) (item_similarity_sparse self).

Definition set_features_sim_matrix (v : option ndarray) (self : SAR) : SAR :=
  mk_SAR (similarity_type self) (time_decay_half_life self) (time_decay_flag self)
         (time_now self) (threshold self) (user_affinity self)
         (item_similarity self) (item_frequencies self) (normalize self)
         (unity_user_affinity self) (n_users self) (n_items self)
         (user2index self) (item2index self) (index2item self)
         v
         (similarity_is_literal self) (item_similarity_sparse self).

(** Part of the assignment [self.item_similarity = m]: the kind of matrix
    the attribute then holds. *)
Definition set_item_similarity_sparse (v : bool) (self : SAR) : SAR :=
  mk_SAR (similarity_type self) (time_decay_half_life self) (time_decay_flag self)
         (time_now self) (threshold self) (user_affinity self)
         (item_similarity self) (item_frequencies self) (normalize self)
         (unity_user_affinity self) (n_users self) (n_items self)
         (user2index self) (item2index self) (index2item self)
         (features_sim_matrix self)
         (similarity_is_literal self) v.

(** [self.similarity_type is c] for a string literal [c] of the module. *)
Definition similarity_type_is (self : SAR) (c : string) : Prop :=
  similarity_is_literal self = true ∧ similarity_type self = c.

Global Instance similarity_type_is_dec self c : Decision (similarity_type_is self c).
Proof. unfold similarity_type_is. apply _. Defined.

(** [__init__]: the defaults of the source are [similarity_type=JACCARD],
    [time_decay_coefficient=30], [time_now=None], [timedecay_formula=False],
    [threshold=1], [normalize=False]. The similarity type is checked with
    [not in], which goes by equality; the object itself is stored, so the
    model keeps whether it is the module's literal ([literal]). *)
Definition init (similarity_type : string) (literal : bool)
    (time_decay_coefficient : Z)
    (time_now : option Z) (timedecay_formula : bool) (threshold : Z)
    (normalize : bool) : result SAR :=
  if decide (similarity_type ∈ [COOCCUR; JACCARD; LIFT; "custom"]) then
    (* threshold - items below this number get set to zero in co-occurrence counts *)
    if decide (threshold ≤ 0)%Z then Raise InvalidConfiguration_threshold
    else
      Ok {| similarity_type := similarity_type;
            time_decay_half_life := (time_decay_coefficient * 24 * 60 * 60)%Z;
            time_decay_flag := timedecay_formula;
            time_now := time_now;
            threshold := threshold;
            user_affinity := None;
            item_similarity := None;
            item_frequencies := None;
            normalize := normalize;
            unity_user_affinity := None;
            n_users := None;
            n_items := None;
            user2index := None;
            item2index := None;
            index2item := None;
            features_sim_matrix := None;
            similarity_is_literal := literal;
            item_similarity_sparse := false |}
  else Raise InvalidConfiguration_similarity.

(** An index cell as a matrix coordinate; NaN becomes a negative number
    under the integer cast, which [coo_matrix] refuses. *)
Definition coordinate (c : idx) : result nat :=
  match c with
  | Idx n => Ok n
  | IdxNaN => Raise (ValueError "negative row index found")
  end.

(** The (row, column) coordinates of a frame with index columns. *)
Definition coordinates (df : list trow) : result (list (nat * nat)) :=
  let! us := column "_indexed_users" t_user_id df in
  let! its := column "_indexed_items" t_item_id df in
  let! us := traverse coordinate us in
  let! its := traverse coordinate its in
  Ok (zip us its).

(** [compute_affinity_matrix]. *)
Definition compute_affinity_matrix (self : SAR) (df : list trow)
    (rating_col : weight_column) : result csr :=
  let! data := match rating_col with
               | col_rating => Ok (map t_rating df)
               | col_unity_rating => column "_unity_rating" t_unity df
               end in
  let! ix := coordinates df in
  let! nu := attr "n_users" (n_users self) in
  let! ni := attr "n_items" (n_items self) in
  Sp.coo_matrix (zip data ix) (nu, ni).

(** ** Co-occurrence *)

(** [user_item_hits]: the cell (u, i) counts the rows of the frame with
    these coordinates (every row carries the value 1). *)
Definition user_item_hits (ix : list (nat * nat)) (u i : nat) : Z :=
  Z.of_nat (length (filter (λ p, p = (u, i)) ix)).

(** [user_item_hits.transpose().dot(user_item_hits)], before the
    threshold is applied. *)
Definition item_cooccurrence (nu : nat) (ix : list (nat * nat)) (i j : nat) : Z :=
  foldr Z.add 0%Z (map (λ u, (user_item_hits ix u i * user_item_hits ix u j)%Z) (seq 0 nu)).

(** One cell of [m.multiply(m >= threshold)]. *)
Definition threshold_mask (threshold : Z) (c : Z) : Z :=
  (c * (if bool_decide (threshold ≤ c)%Z then 1 else 0))%Z.

(** [compute_coocurrence_matrix]; the result is cast to the dtype of the
    rating column, float64. It is a scipy sparse matrix; the model keeps
    its cells, and [fit] records the kind of matrix where it stores it as
    the item similarity ([item_similarity_sparse]). *)
Definition compute_coocurrence_matrix (self : SAR) (df : list trow) : result ndarray :=
  let! ix := coordinates df in
  let! nu := attr "n_users" (n_users self) in
  let! ni := attr "n_items" (n_items self) in
  if forallb (λ p, bool_decide (p.1 < nu ∧ p.2 < ni)) ix then
    Ok (mk_ndarray ni ni
          (λ i j, F64.of_Z (threshold_mask (threshold self) (item_cooccurrence nu ix i j))))
  else Raise (ValueError "row or column index exceeds matrix dimensions").

(** [{x[1]: x[0] for x in enumerate(users.unique())}]: the user index of
    [set_index] and [load_file], users numbered in first-seen order. *)
Definition user_index_of (users : list string) : gmap string nat :=
  Pd.dict (map (λ x, (x.2, x.1)) (Pd.enumerate (Pd.unique users))).

(** [set_index]. *)
Definition set_index (self : SAR) (df : list interaction) : SAR :=
  (* generate a map of continuous index values to items *)
  let i2x := Pd.dict (Pd.enumerate (Pd.unique (map i_item df))) in
  let self := set_index2item (Some i2x) self in
  (* invert the mapping from above *)
  let self := set_item2index
                (Some (Pd.dict (map (λ kv, (kv.2, kv.1)) (Pd.enumerate (Pd.unique (map i_item df)))))) self in
  (* create mapping of users to continuous indices *)
  let u2i := user_index_of (map i_user df) in
  let self := set_user2index (Some u2i) self in
  (* set values for the total count of users and items *)
  let self := set_n_users (Some (size u2i)) self in
  set_n_items (Some (size i2x)) self.

(** [load_file]: the three files of [path] for this [num_items] are read
    back; the user index is rebuilt from the ratings table. *)
Definition load_file (self : SAR) (path : string) (num_items : nat)
    (df_ratings : list interaction) (d : disk) : result SAR :=
  match d !! (path, num_items) with
  | None => Raise (FileNotFoundError path)
  | Some files =>
      let self := set_features_sim_matrix (Some (file_item_feature_similarity files)) self in
      let self := set_index2item (Some (file_index2item files)) self in
      let self := set_item2index (Some (file_item2index files)) self in
      (* create mapping of users to continuous indices *)
      let u2i := user_index_of (map i_user df_ratings) in
      let self := set_user2index (Some u2i) self in
      (* self.n_users = self.n_items = len(self.user2index) *)
      let self := set_n_users (Some (size u2i)) self in
      let self := set_n_items (Some (size u2i)) self in
      (* self.n_items = len(self.index2item) *)
      Ok (set_n_items (Some (size (file_index2item files))) self)
  end.

(** [save_to_file]. *)
Definition save_to_file (self : SAR) (path : string) (d : disk) : result disk :=
  let! ni := attr "n_items" (n_items self) in
  let! fsm := attr "features_sim_matrix" (features_sim_matrix self) in
  let! i2x := attr "index2item" (index2item self) in
  let! x2i := attr "item2index" (item2index self) in
  Ok (<[(path, ni) := mk_saved_files fsm i2x x2i]> d).

(** ** Item similarity *)

(** Modelled from the spec: [jaccard] of reco_utils.common.python_utils,
    which is imported and not part of the sources. Specification 4.4:
    similarity(i,j) = co-occurrence(i,j) / (freq(i) + freq(j) -
    co-occurrence(i,j)), with 0/0 defined as 0; freq is the diagonal. *)
Definition jaccard (c : ndarray) : ndarray :=
  mk_ndarray (nrows c) (ncols c)
    (λ i j, let num := cell c i j in
            let den := F64.sub (F64.add (cell c i i) (cell c j j)) (cell c i j) in
            if F64.is_zero num && F64.is_zero den then F64.zero else F64.div num den).

(** Modelled from the spec: [lift] of reco_utils.common.python_utils.
    Specification 4.4: similarity(i,j) = co-occurrence(i,j) /
    (freq(i) * freq(j)), with 0/0 defined as 0. *)
Definition lift (c : ndarray) : ndarray :=
  mk_ndarray (nrows c) (ncols c)
    (λ i j, let num := cell c i j in
            let den := F64.mul (cell c i i) (cell c j j) in
            if F64.is_zero num && F64.is_zero den then F64.zero else F64.div num den).

Definition lookup_key (m : gmap string nat) (k : string) : result nat :=
  match m !! k with Some n => Ok n | None => Raise (KeyError k) end.

(** One pass of the inner loop body of [make_sim_matrix], for the rows
    [p.1] (outer index) and [p.2] (inner index) of the feature table. *)
Definition sim_write {FV} (self : SAR) (col_sim : string) (f : FV → FV → float)
    (acc : result ndarray) (p : feature_row FV * feature_row FV) : result ndarray :=
  let! sim_matrix := acc in
  let! x2i := attr "item2index" (item2index self) in
  let! index_i := lookup_key x2i (f_itemid p.1) in
  let! index_j := lookup_key x2i (f_itemid p.2) in
  Np.set_cell sim_matrix index_i index_j
    (F64.round16 (f (f_value p.1 col_sim) (f_value p.2 col_sim))).

(** [make_sim_matrix]. [np.empty] returns a float16 buffer that is not
    initialised: [uninit] stands for what it happens to hold. *)
Definition make_sim_matrix {FV} (self : SAR) (df_features : list (feature_row FV))
    (col_sim : string) (f : FV → FV → float) (uninit : nat → nat → float) : result ndarray :=
  let num_items := length df_features in
  foldl (sim_write self col_sim f)
        (Ok (mk_ndarray num_items num_items uninit))
        (list_prod df_features df_features).

(** [weight * sim_matrix]: a Python float times a float16 array is a
    float16 array. *)
Definition scale16 (w : float) (a : ndarray) : ndarray :=
  mk_ndarray (nrows a) (ncols a)
    (λ r c, F64.round16 (F64.mul (F64.round16 w) (cell a r c))).

(** [compute_feature_sim_matrix]; [uninit col] is the fresh buffer of the
    call for the feature column [col]. *)
Definition compute_feature_sim_matrix {FV} (self : SAR) (cw : col_weights FV)
    (features : list (feature_row FV)) (uninit : string → nat → nat → float) : result ndarray :=
  let num_items := length features in
  foldl (λ acc col,
           let! features_sim_matrix := acc in
           let '(col_feature, (weight, similarity_function)) := col in
           if decide (col_feature = "ratings") then Ok features_sim_matrix else
           let! sim := make_sim_matrix self features col_feature similarity_function
                         (uninit col_feature) in
           Np.iadd features_sim_matrix (scale16 weight sim))
        (Ok (Np.zeros num_items num_items))
        (cw_features cw).

(** ** Fitting *)

Definition list_max (ts : list Z) : option Z :=
  match ts with
  | [] => None
  | t :: ts' => Some (foldl Z.max t ts')
  end.

Section Fit.
(** [exponential_decay(value, max_val, half_life)] of
    reco_utils.common.python_utils is imported, not part of the sources;
    the specification treats it as a pure function
    decay(timestamp, reference_time, half_life) -> weight in (0,1]. *)
Variable exponential_decay : Z → Z → Z → float.

(** [df[decay_column] *= exponential_decay(...)] on one row. *)
Definition decay_row (now : option Z) (half_life : Z) (decay_column : weight_column)
    (r : trow) : result trow :=
  let! now := attr "time_now" now in
  let! t := match t_timestamp r with Some t => Ok t | None => Raise (KeyError "timestamp") end in
  let w := exponential_decay t now half_life in
  match decay_column with
  | col_rating =>
      Ok (mk_trow (t_user r) (t_item r) (F64.mul (t_rating r) w)
            (t_timestamp r) (t_item_id r) (t_user_id r) (t_unity r))
  | col_unity_rating =>
      match t_unity r with
      | Some v =>
          Ok (mk_trow (t_user r) (t_item r) (t_rating r)
                (t_timestamp r) (t_item_id r) (t_user_id r) (Some (F64.mul v w)))
      | None => Raise (KeyError "_unity_rating")
      end
  end.

(** [compute_time_decay]. It assigns [self.time_now] when unset, so the
    updated [self] is returned with the frame. (On an empty frame the
    maximum is NaN in pandas and nothing is decayed; [time_now] is left
    unset here.) *)
Definition compute_time_decay (self : SAR) (df : list trow)
    (decay_column : weight_column) : result (SAR * list trow) :=
  let! ts := column "timestamp" t_timestamp df in
  (* if time_now is None use the latest time *)
  let self := match time_now self with
              | None => set_time_now (list_max ts) self
              | Some _ => self
              end in
  (* apply time decay to each rating *)
  let! df := traverse (decay_row (time_now self) (time_decay_half_life self) decay_column) df in
  (* group time decayed ratings by user-item and take the sum as the user-item affinity *)
  Ok (self, groupby_sum df).

(** [fit], first block: restore the index from disk, or build it. *)
Definition fit_index (self : SAR) (df : list interaction) (num_items : nat)
    (demo : bool) (d : disk) : result (SAR * (bool * string)) :=
  let experiment_path := DATA_DIR ++ "experiment/" in
  let demo_path := DATA_DIR ++ "demo/" in
  let load := bool_decide (is_Some (d !! (experiment_path, num_items))) in
  let path := experiment_path in
  let '(load, path) := if demo then (true, demo_path) else (load, path) in
  let! self :=
    if load then load_file self path num_items df d
    else match index2item self with
         | None => Ok (set_index self df)      (* generate continuous indices if this hasn't been done *)
         | Some _ => Ok self
         end in
  Ok (self, (load, path)).

(** [df[select_columns].copy()]. *)
Definition select_columns (self : SAR) (r : interaction) : trow :=
  mk_trow (i_user r) (i_item r) (i_rating r)
    (if time_decay_flag self then Some (i_timestamp r) else None) None None None.

Definition index_cell (m : gmap string nat) (k : string) : idx :=
  match m !! k with Some n => Idx n | None => IdxNaN end.

(** [fit], second block: the working frame, decayed or de-duplicated,
    with its two index columns. *)
Definition fit_temp_df (self : SAR) (df : list interaction) : result (SAR * list trow) :=
  let temp_df := map (select_columns self) df in
  let! (self, temp_df) :=
    if time_decay_flag self then compute_time_decay self temp_df col_rating
    else
      (* without time decay use the latest user-item rating in the dataset as the affinity score *)
      Ok (self, Pd.drop_duplicates_last t_key temp_df) in
  (* add mapping of user and item ids to indices *)
  let! x2i := attr "item2index" (item2index self) in
  let temp_df := map (λ r, mk_trow (t_user r) (t_item r) (t_rating r) (t_timestamp r)
                             (Some (index_cell x2i (t_item r))) (t_user_id r) (t_unity r)) temp_df in
  let! u2i := attr "user2index" (user2index self) in
  let temp_df := map (λ r, mk_trow (t_user r) (t_item r) (t_rating r) (t_timestamp r)
                             (t_item_id r) (Some (index_cell u2i (t_user r))) (t_unity r)) temp_df in
  Ok (self, temp_df).

(** [fit], third block: the normalisation factors. *)
Definition fit_unity (self : SAR) (temp_df : list trow) : result (SAR * list trow) :=
  if normalize self then
    let temp_df := map (λ r, mk_trow (t_user r) (t_item r) (t_rating r) (t_timestamp r)
                               (t_item_id r) (t_user_id r) (Some F64.one)) temp_df in
    let! (self, temp_df) :=
      if time_decay_flag self then compute_time_decay self temp_df col_unity_rating
      else Ok (self, temp_df) in
    let! unity := compute_affinity_matrix self temp_df col_unity_rating in
    Ok (set_unity_user_affinity (Some unity) self, temp_df)
  else Ok (self, temp_df).

(** [fit], last block: the item similarity, by similarity type. The
    source picks the branch with [is], the identity of objects, where
    [__init__] went by equality: a similarity type that is equal to one of
    the four names without being the module's literal takes no branch and
    ends in the [ValueError]. The co-occurrence matrix is a scipy sparse
    matrix and is stored as it is; [jaccard] and [lift] return dense
    arrays. *)
Definition fit_similarity {FV} (self : SAR) (item_cooccurrence : ndarray)
    (features : list (feature_row FV)) (cw : col_weights FV)
    (load : bool) (path : string) (uninit : string → nat → nat → float)
    (d : disk) : result (SAR * disk) :=
  if decide (similarity_type_is self COOCCUR) then
    Ok (set_item_similarity_sparse true
          (set_item_similarity (Some item_cooccurrence) self), d)
  else if decide (similarity_type_is self JACCARD) then
    Ok (set_item_similarity_sparse false
          (set_item_similarity (Some (jaccard item_cooccurrence)) self), d)
  else if decide (similarity_type_is self LIFT) then
    Ok (set_item_similarity_sparse false
          (set_item_similarity (Some (lift item_cooccurrence)) self), d)
  else if decide (similarity_type_is self "custom") then
    let! w := match cw_ratings cw with Some w => Ok w | None => Raise (KeyError "ratings") end in
    let self := set_item_similarity_sparse false
                  (set_item_similarity (Some (Np.scale w (jaccard item_cooccurrence))) self) in
    let! (self, d) :=
      if load then Ok (self, d)
      else
        let! fsm := compute_feature_sim_matrix self cw features uninit in
        let self := set_features_sim_matrix (Some fsm) self in
        let! d := save_to_file self path d in
        Ok (self, d) in
    (* assuming self.features_sim_matrix has scale 1 (i.e. col_weights[features] all sum to 1) *)
    let! sim := attr "item_similarity" (item_similarity self) in
    let! fsm := attr "features_sim_matrix" (features_sim_matrix self) in
    let! sim := Np.iadd sim (Np.scale (F64.sub F64.one w) fsm) in
    Ok (set_item_similarity (Some sim) self, d)
  else Raise (ValueError ("Unknown similarity type: " ++ similarity_type self)).

(** [fit]. The rating column is float64, so the dtype check passes. *)
Definition fit {FV} (self : SAR) (df : list interaction)
    (features : list (feature_row FV)) (cw : col_weights FV) (demo : bool)
    (uninit : string → nat → nat → float) (d : disk) : result (SAR * disk) :=
  let num_items := length features in
  let! (self, (load, path)) := fit_index self df num_items demo d in
  let! (self, temp_df) := fit_temp_df self df in
  let! (self, temp_df) := fit_unity self temp_df in
  (* affinity matrix *)
  let! affinity := compute_affinity_matrix self temp_df col_rating in
  let self := set_user_affinity (Some affinity) self in
  (* calculate item co-occurrence *)
  let! item_cooccurrence := compute_coocurrence_matrix self temp_df in
  let self := set_item_frequencies (Some (Np.diagonal item_cooccurrence)) self in
  fit_similarity self item_cooccurrence features cw load path uninit d.
End Fit.

(** ** Scoring *)

(** A row of a test table: user and item columns. *)
Record query := mk_query {
  q_user : string;
  q_item : string
}.

(** A row of a result table: user, item and prediction columns. The user
    cell is [None] for the single anonymous user of [get_item_based_topk]
    (the source writes 0 there). *)
Record prediction := mk_prediction {
  p_user : option string;
  p_item : string;
  p_score : float
}.

(** [score]. The product with the item similarity is a scipy sparse
    matrix when the similarity is one; the source turns the score into a
    dense array ([toarray]) but hands the product of the unity affinity to
    [np.divide] as it is. numpy has no division by a scipy sparse matrix:
    it wraps the matrix in an object array and divides each float by it,
    which is a [TypeError]. *)
Definition score (self : SAR) (test : list query) (remove_seen normalize : bool)
    : result ndarray :=
  (* get user / item indices from test set *)
  let! u2i := attr "user2index" (user2index self) in
  let user_ids := map (λ u, u2i !! u) (Pd.unique (map q_user test)) in
  if existsb (λ o, bool_decide (o = None)) user_ids then Raise UnknownEntity
  else
    let user_ids := omap id user_ids in
    (* calculate raw scores with a matrix multiplication *)
    let! affinity := attr "user_affinity" (user_affinity self) in
    let! rows := Sp.take_rows affinity user_ids in
    let! similarity := attr "item_similarity" (item_similarity self) in
    let! test_scores := Sp.dot rows similarity in
    (* remove items in the train set so recommended items are always novel *)
    let! test_scores :=
      if remove_seen then Sp.add_to_dense test_scores (Sp.scale rows F64.neg_inf)
      else Ok test_scores in
    if normalize then
      match unity_user_affinity self with
      | None => Raise NormalizationUnavailable
      | Some unity =>
          let! unity_rows := Sp.take_rows unity user_ids in
          let! unity_scores := Sp.dot unity_rows similarity in
          if item_similarity_sparse self then
            Raise SparseDivisor
          else
            let! test_scores := Np.divide test_scores unity_scores in
            Ok (Np.where_isnan test_scores F64.neg_inf)
      end
    else Ok test_scores.

(** [df.replace(-np.inf, np.nan).dropna()] on a result table: a row is
    dropped when its prediction is -inf or NaN. *)
Definition replace_dropna (df : list prediction) : list prediction :=
  filter (λ r, p_score r ≠ F64.neg_inf ∧ F64.isnan (p_score r) = false) df.

(** The seed table of [get_item_based_topk]: an item column, and
    optionally a user and a rating column of the same length. *)
Record seeds := mk_seeds {
  s_items : list string;
  s_users : option (list string);
  s_ratings : option (list float)
}.

(** [get_item_based_topk], up to the masked scores: the distinct seed
    users, one per row of the score matrix, and the scores of the
    pseudo-affinity matrix with the cell of every seed set to -inf. *)
Definition seed_scores (self : SAR) (items : seeds)
    : result (list (option string) * ndarray) :=
  (* convert item ids to indices *)
  let! x2i := attr "item2index" (item2index self) in
  let item_ids := map (index_cell x2i) (s_items items) in
  (* if no ratings were provided assume they are all 1 *)
  let ratings := match s_ratings items with
                 | Some rs => rs
                 | None => map (λ _, F64.one) item_ids
                 end in
  (* create local map of user ids *)
  let '(test_users, user_ids) :=
    match s_users items with
    | Some us =>
        let user2index := user_index_of us in
        (map Some us, map (λ u, default 0 (user2index !! u)) us)
    | None =>
        (* if no user column exists assume all entries are for a single user *)
        (map (λ _, None) item_ids, map (λ _, 0) item_ids)
    end in
  let n_users := length (Pd.unique user_ids) in
  (* generate pseudo user affinity using seed items *)
  let! item_ids := traverse coordinate item_ids in
  let! ni := attr "n_items" (n_items self) in
  let! pseudo_affinity := Sp.coo_matrix (zip ratings (zip user_ids item_ids)) (n_users, ni) in
  (* calculate raw scores with a matrix multiplication *)
  let! similarity := attr "item_similarity" (item_similarity self) in
  let! test_scores := Sp.dot pseudo_affinity similarity in
  (* remove items in the seed set so recommended items are novel *)
  let! test_scores := Np.put_pairs test_scores (zip user_ids item_ids) F64.neg_inf in
  Ok (Pd.unique test_users, test_scores).

(** The (user, item) pairs of a seed table; the user is [None] when the
    table has no user column. *)
Definition seed_pairs (items : seeds) : list (option string * string) :=
  match s_users items with
  | Some us => zip (map Some us) (s_items items)
  | None => map (λ x, (None, x)) (s_items items)
  end.

Section TopK.
(** [get_top_k_scored_items(scores, top_k, sort_top_k)] of
    reco_utils.common.python_utils is imported, not part of the sources.
    It returns two arrays of one shape, [top_items] and [top_scores];
    they are paired here, row by row: [(top_items[r][c], top_scores[r][c])]. *)
Variable get_top_k_scored_items : ndarray → nat → bool → list (list (nat * float)).

(** The result table built from the selector's output: the row of user
    [r] holds one line per selected (item index, score). The three columns
    handed to [pd.DataFrame] must have one length: [np.repeat] of the users
    by the number of selected columns, and the two flattened arrays. *)
Definition result_table (self : SAR) (users : list (option string))
    (top : list (list (nat * float))) : result (list prediction) :=
let! i2x := attr "index2item" (index2item self) in
let! rows :=
  traverse (λ ur : option string * list (nat * float),
              traverse (λ p : nat * float,
                          match i2x !! p.1 with
                          | Some item => Ok (mk_prediction ur.1 item p.2)
                          | None => Raise (KeyError "index2item")
                          end) ur.2)
           (zip users top) in
if decide (length top = length users ∨ Forall (λ row, row = []) top) then Ok (concat rows)
else Raise (ValueError "All arrays must be of the same length").

(** [get_item_based_topk]. *)
Definition get_item_based_topk (self : SAR) (items : seeds) (top_k : nat)
    (sort_top_k : bool) : result (list prediction) :=
let! (users, test_scores) := seed_scores self items in
let top := get_top_k_scored_items test_scores top_k sort_top_k in
let! df := result_table self users top in
(* drop invalid items *)
Ok (replace_dropna df).

(** [recommend_k_items]. *)
Definition recommend_k_items (self : SAR) (test : list query) (top_k : nat)
    (sort_top_k remove_seen normalize : bool) : result (list prediction) :=
  let! test_scores := score self test remove_seen normalize in
  let top := get_top_k_scored_items test_scores top_k sort_top_k in
  let! df := result_table self (map Some (Pd.unique (map q_user test))) top in
  (* drop invalid items *)
  Ok (replace_dropna df).
End TopK.

(** [predict]. It returns the log lines of [logger.warning] with the
    result table. *)
Definition predict (self : SAR) (test : list query) : result (list string * list prediction) :=
  let! test_scores := score self test false false in
  let! u2i := attr "user2index" (user2index self) in
  let user_ids := map (λ q, index_cell u2i (q_user q)) test in
  (* create mapping of new items to zeros *)
  let! x2i := attr "item2index" (item2index self) in
  let item_ids := map (λ q, index_cell x2i (q_item q)) test in
  let nans := map (λ c, bool_decide (c = IdxNaN)) item_ids in
  let! (log, (test_scores, item_ids)) :=
    if existsb id nans then
      let log := ["Items found in test not seen during training, new items will have score of 0"] in
      let! nu := attr "n_users" (n_users self) in
      let! test_scores := Np.append_axis1 test_scores (Np.zeros nu 1) in
      let! ni := attr "n_items" (n_items self) in
      Ok (log, (test_scores, map (λ c, match c with IdxNaN => Idx ni | _ => c end) item_ids))
    else Ok ([], (test_scores, item_ids)) in
  let! user_ids := traverse coordinate user_ids in
  let! item_ids := traverse coordinate item_ids in
  let! scores := Np.take_pairs test_scores (zip user_ids item_ids) in
  Ok (log, map (λ qs : query * float, mk_prediction (Some (q_user qs.1)) (q_item qs.1) qs.2)
             (zip test scores)).

(** ** Popularity *)

(** [np.array([self.item_frequencies])]: the item frequencies as the one
    row of a two-dimensional array. *)
Definition frequency_row (item_frequencies : list float) : ndarray :=
  mk_ndarray 1 (length item_frequencies) (λ _ j, default F64.zero (item_frequencies !! j)).

Section Popularity.
Variable get_top_k_scored_items : ndarray → nat → bool → list (list (nat * float)).

(** [get_popularity_based_topk]. The table has an item and a prediction
    column, and no row is dropped. Before [fit], [item_frequencies] is
    [None] and [np.array([None])] has a single axis: the imported selector
    is then handed an array without columns to select from, which stands
    here as the [IndexError] of reading its second axis. *)
Definition get_popularity_based_topk (self : SAR) (top_k : nat) (sort_top_k : bool)
    : result (list (string * float)) :=
  let! test_scores :=
    match item_frequencies self with
    | Some fs => Ok (frequency_row fs)
    | None => Raise (IndexError "tuple index out of range")
    end in
  let top := get_top_k_scored_items test_scores top_k sort_top_k in
  traverse (λ p : nat * float,
              let! i2x := attr "index2item" (index2item self) in
              match i2x !! p.1 with
              | Some item => Ok (item, p.2)
              | None => Raise (KeyError "index2item")
              end)
           (concat top).
End Popularity.

(** * Concrete inputs

    The tables and models the closed lemmas below are evaluated on. *)

(** Modelled from the spec: [exponential_decay] of
    reco_utils.common.python_utils, an exponential half-life decay with
    weight in (0,1]: weight 1 at or after the reference time, halved once
    per elapsed half-life. This stand-in is a step function: it floors the
    number of elapsed half-lives, and so agrees with the decay only where
    the elapsed time is a whole number of half-lives, the power of two
    being exact there. The theorems take the decay as a parameter; the
    closed lemmas evaluate this one at whole half-lives, or state indices,
    counts and shapes, which no weight enters. *)
Definition half_life_decay (value max_val half_life : Z) : float :=
  if (max_val <=? value)%Z then F64.one
  else F64.div F64.one (F64.of_Z (2 ^ ((max_val - value) / half_life))).

(** Modelled from the spec: [get_top_k_scored_items], specification 4.6:
    the [k] highest-scoring columns of every row, by descending value, ties
    by ascending column; [k] is capped at the number of columns. The
    unsorted variant may return the same columns in any order; this one
    keeps them sorted. *)
Definition score_ge (a : ndarray) (r : nat) (i j : nat) : Prop :=
  match SFcompare (cell a r i) (cell a r j) with
  | Some Gt => True
  | Some Lt => False
  | _ => (i ≤ j)%nat
  end.

Global Instance score_ge_dec a r i j : Decision (score_ge a r i j).
Proof. unfold score_ge. destruct (SFcompare _ _) as [[]|]; apply _. Defined.

Definition top_k_sorted (scores : ndarray) (top_k : nat) (sort_top_k : bool)
    : list (list (nat * float)) :=
  let k := Nat.min top_k (ncols scores) in
  map (λ r, map (λ i, (i, cell scores r i))
              (take k (merge_sort (score_ge scores r) (seq 0 (ncols scores)))))
      (seq 0 (nrows scores)).

(** A model before [fit], with the defaults of [__init__], its similarity
    type given by one of the module's constants or literals. *)
Definition unfitted (similarity : string) (decay normalize : bool) : SAR :=
  {| similarity_type := similarity;
     time_decay_half_life := 30 * 24 * 60 * 60;
     time_decay_flag := decay;
     time_now := None;
     threshold := 1;
     user_affinity := None;
     item_similarity := None;
     item_frequencies := None;
     normalize := normalize;
     unity_user_affinity := None;
     n_users := None;
     n_items := None;
     user2index := None;
     item2index := None;
     index2item := None;
     features_sim_matrix := None;
     similarity_is_literal := true;
     item_similarity_sparse := false |}.

Definition model_of (r : result (SAR * disk)) : SAR :=
  match r with Ok (m, _) => m | Raise _ => unfitted JACCARD false false end.

Definition array_of (r : result ndarray) : ndarray :=
  match r with Ok a => a | Raise _ => Np.zeros 0 0 end.

Definition cell_of (r : result ndarray) (k j : nat) : option float :=
  match r with Ok a => Some (cell a k j) | Raise _ => None end.

Definition stored_of (m : option csr) (u i : nat) : option float :=
  m ≫= λ a, stored a u i.

Definition rated (u i : string) (r t : Z) : interaction :=
  mk_interaction u i (F64.of_Z r) t.

Definition no_features : list (feature_row unit) := [].
Definition no_weights : col_weights unit := mk_col_weights None [].
Definition zeroed : string → nat → nat → float := λ _ _ _, F64.zero.

(** [fit] without a feature table and with nothing on disk. *)
Definition fit_plain (self : SAR) (df : list interaction) : result (SAR * disk) :=
  fit half_life_decay self df no_features no_weights false zeroed ∅.

(** The scenario of specification section 8: users A, B, C and items x, y, z. *)
Definition scenario : list interaction :=
  [rated "A" "x" 5 1; rated "A" "y" 3 2; rated "B" "x" 4 3;
   rated "B" "z" 2 4; rated "C" "y" 1 5].

Definition scenario_model : SAR :=
  model_of (fit_plain (unfitted JACCARD false false) scenario).

Definition scenario_model_normalized : SAR :=
  model_of (fit_plain (unfitted JACCARD false true) scenario).

(** Likes and dislikes: ratings +1 and -1. *)
Definition thumbs : list interaction :=
  [rated "A" "x" 1 1; rated "A" "y" (-1) 2; rated "B" "x" 1 3; rated "B" "y" 1 4].

Definition thumbs_model : SAR :=
  model_of (fit_plain (unfitted JACCARD false false) thumbs).

(** Files on disk for a catalogue of three items. *)
Definition demo_files : saved_files :=
  mk_saved_files (Np.zeros 3 3)
    (Pd.dict [(0, "x"); (1, "y"); (2, "z")])
    (Pd.dict [("x", 0); ("y", 1); ("z", 2)]).

Definition demo_disk : disk := {[ ("../data/demo/", 3) := demo_files ]}.

(** The key of an interaction row: its (user, item) pair. *)
Definition i_key (r : interaction) : string * string := (i_user r, i_item r).

(** The specification's "most recent by the timestamp column": among the
    rows of a (user, item) pair, one with the greatest timestamp (the last
    such row). *)
Definition most_recent_by_timestamp (df : list interaction) (user item : string)
    : option interaction :=
  foldl (λ best r,
           if decide (i_key r = (user, item)) then
             match best with
             | Some b => if (i_timestamp b <=? i_timestamp r)%Z then Some r else Some b
             | None => Some r
             end
           else best)
        None df.

(** The rows of the working frame as (user, item, rating) triples. *)
Definition ratings_of (r : result (SAR * list trow)) : option (list (string * string * float)) :=
  match r with
  | Ok (_, temp_df) => Some (map (λ r, (t_user r, t_item r, t_rating r)) temp_df)
  | Raise _ => None
  end.

(** One pair rated twice, the later rating first in the table. *)
Definition out_of_order : list interaction :=
  [rated "A" "x" 5 20; rated "A" "x" 3 10].

Definition out_of_order_model : SAR :=
  model_of (fit_plain (unfitted JACCARD false false) out_of_order).

(** The interaction table with every raw weight fixed at 1.0. *)
Definition unit_weights (df : list interaction) : list interaction :=
  map (λ r, mk_interaction (i_user r) (i_item r) F64.one (i_timestamp r)) df.

(** The unity affinity matrix as the specification words it: the
    construction of the rating-weighted affinity matrix (same decay, same
    aggregation, same raw rows) run on unit weights. *)
Definition unity_affinity_by_spec (self : SAR) (df : list interaction) : option csr :=
  user_affinity (model_of (fit_plain self (unit_weights df))).

(** One pair rated twice, one half-life (30 days, in seconds) apart. *)
Definition rated_twice : list interaction :=
  [rated "A" "x" 4 2592000; rated "A" "x" 2 5184000].

(** The rows of the working frame. *)
Definition frame_of (r : result (SAR * list trow)) : list trow :=
  match r with Ok (_, temp_df) => temp_df | Raise _ => [] end.

Definition rated_twice_model : SAR :=
  model_of (fit_plain (unfitted JACCARD true true) rated_twice).

(** A row of the working frame whose two index columns hold the indices
    of its user and of its item. *)
Definition row_indexed (u2i x2i : gmap string nat) (r : trow) : Prop :=
  ∃ n m, u2i !! t_user r = Some n ∧ x2i !! t_item r = Some m ∧
         t_user_id r = Some (Idx n) ∧ t_item_id r = Some (Idx m).

(** What the class relies on from [get_top_k_scored_items]: row [r] of its
    output is selected from row [r] of the scores, and every score it
    returns is the cell of the item it returns. *)
Definition selects_cells (topk : ndarray → nat → bool → list (list (nat * float))) : Prop :=
  ∀ scores k sort r row i v,
    topk scores k sort !! r = Some row → (i, v) ∈ row → v = cell scores r i.

(** The scenario fitted with raw co-occurrence as similarity. *)
Definition cooccur_model : SAR :=
  model_of (fit_plain (unfitted COOCCUR false false) scenario).

Definition cooccur_model_normalized : SAR :=
  model_of (fit_plain (unfitted COOCCUR false true) scenario).

(** Seed tables: two seed sets separated by a user column; and two seeds
    with the finite rating 1e308 each. *)
Definition seeds_by_user : seeds :=
  mk_seeds ["x"; "y"; "x"] (Some ["u1"; "u1"; "u2"])
           (Some [F64.one; F64.one; F64.of_Z 2]).

Definition seeds_huge : seeds :=
  mk_seeds ["y"; "z"] None (Some [F64.of_Z (10 ^ 308); F64.of_Z (10 ^ 308)]).

Ltac fmapify :=
  repeat match goal with
  | |- context [map ?f ?l] => change (map f l) with (f <$> l)
  end.

Ltac fmapify_in H :=
  repeat match type of H with
  | context [map ?f ?l] => change (map f l) with (f <$> l) in H
  end.

(** The table [get_item_based_topk] returns for [seeds_by_user] on the
    scenario model, two items per seed set asked for. *)
Definition seeds_by_user_table : list prediction :=
  [mk_prediction (Some "u1") "z" (F64.div F64.one (F64.of_Z 2));
   mk_prediction (Some "u2") "z" F64.one;
   mk_prediction (Some "u2") "y" (F64.div (F64.of_Z 2) (F64.of_Z 3))].

(** What the blocks of [fit] between the index and the similarity leave
    unchanged. *)
Definition same_catalogue (self self' : SAR) : Prop :=
  item2index self' = item2index self ∧
  features_sim_matrix self' = features_sim_matrix self ∧
  similarity_type self' = similarity_type self.


(** A feature table for the scenario: one row per item, with its cuisine;
    two items are similar when they share it. *)
Definition same_value (a b : string) : float :=
  if decide (a = b) then F64.one else F64.zero.

Definition cuisines : list (feature_row string) :=
  [mk_feature_row "z" (λ _, "greek");
   mk_feature_row "x" (λ _, "thai");
   mk_feature_row "y" (λ _, "thai")].

Definition cuisine_weights : col_weights string :=
  mk_col_weights (Some (F64.div F64.one (F64.of_Z 2)))
                 [("cuisine", (F64.one, same_value))].

Definition disk_of (r : result (SAR * disk)) : disk :=
  match r with Ok (_, d) => d | Raise _ => ∅ end.

Definition custom_fit : result (SAR * disk) :=
  fit half_life_decay (unfitted "custom" false false) scenario cuisines cuisine_weights
      false zeroed ∅.

(** The scenario fitted in custom mode from the files of the demo
    directory. *)
Definition demo_fit : result (SAR * disk) :=
  fit half_life_decay (unfitted "custom" false false) scenario cuisines cuisine_weights
      true zeroed demo_disk.

(** A feature table that names item x twice and item y never. *)
Definition cuisines_twice : list (feature_row string) :=
  [mk_feature_row "x" (λ _, "thai"); mk_feature_row "x" (λ _, "thai")].

(** What [np.empty] may have left in a buffer: here 1 above the diagonal
    and 0 elsewhere. *)
Definition leftover : string → nat → nat → float :=
  λ _ i j, if decide (i < j) then F64.one else F64.zero.

(** The likes-and-dislikes table (items x and y) fitted in custom mode
    with that feature table. *)
Definition uncovered_fit : result (SAR * disk) :=
  fit half_life_decay (unfitted "custom" false false) thumbs cuisines_twice cuisine_weights
      false leftover ∅.

(** Files on disk whose feature similarity matrix is not symmetric, and
    the scenario fitted from them. *)
Definition skewed_files : saved_files :=
  mk_saved_files (mk_ndarray 3 3 (leftover "cuisine"))
    (Pd.dict [(0, "x"); (1, "y"); (2, "z")])
    (Pd.dict [("x", 0); ("y", 1); ("z", 2)]).

Definition skewed_fit : result (SAR * disk) :=
  fit half_life_decay (unfitted "custom" false false) scenario cuisines cuisine_weights
      true zeroed {[ ("../data/demo/", 3) := skewed_files ]}.

(** An index that covers a table: the two maps and the two counts are
    set, every index is below its count, distinct ids have distinct
    indices, and every user and item id of the table has one. [set_index]
    builds such an index from the table; an index restored from disk is one
    when the files fit the table. *)
Definition index_covers (self : SAR) (df : list interaction) : Prop :=
  ∃ u2i x2i nu ni,
    user2index self = Some u2i ∧ item2index self = Some x2i ∧
    n_users self = Some nu ∧ n_items self = Some ni ∧
    (∀ u n, u2i !! u = Some n → n < nu) ∧ (∀ x i, x2i !! x = Some i → i < ni) ∧
    (∀ u v n, u2i !! u = Some n → u2i !! v = Some n → u = v) ∧
    (∀ x y i, x2i !! x = Some i → x2i !! y = Some i → x = y) ∧
    (∀ r, r ∈ df → is_Some (u2i !! i_user r) ∧ is_Some (x2i !! i_item r)).

(** The model after the first block of [fit] with [demo] on: the index is
    restored from the demo directory. *)
Definition restored_model : SAR :=
  match fit_index (unfitted JACCARD true true) scenario 3 true demo_disk with
  | Ok (m, _) => m
  | Raise _ => unfitted JACCARD true true
  end.

(** Files written for a catalogue of two items, x and y; the scenario,
    which has a third item z, fitted from them with time decay and
    normalisation on; and the model after the first block of that [fit]. *)
Definition stale_files : saved_files :=
  mk_saved_files (Np.zeros 2 2)
    (Pd.dict [(0, "x"); (1, "y")])
    (Pd.dict [("x", 0); ("y", 1)]).

Definition stale_fit : result (SAR * disk) :=
  fit half_life_decay (unfitted JACCARD true true) scenario
      [mk_feature_row "x" (λ _ : string, tt); mk_feature_row "y" (λ _, tt)] no_weights
      true zeroed {[ ("../data/demo/", 2) := stale_files ]}.

Definition stale_model : SAR :=
  match fit_index (unfitted JACCARD true true) scenario 2 true
                  {[ ("../data/demo/", 2) := stale_files ]} with
  | Ok (m, _) => m
  | Raise _ => unfitted JACCARD true true
  end.

(** The matrix coordinates of the working frame. *)
Definition coordinates_of (r : result (SAR * list trow)) : list (nat * nat) :=
  match r with
  | Ok (_, temp_df) => match coordinates temp_df with Ok ix => ix | Raise _ => [] end
  | Raise _ => []
  end.

(** What the blocks of [fit] after the index leave unchanged: the index,
    the counts and the settings of [__init__]. *)
Definition same_index (self self' : SAR) : Prop :=
  n_users self' = n_users self ∧ n_items self' = n_items self ∧
  user2index self' = user2index self ∧ item2index self' = item2index self ∧
  index2item self' = index2item self ∧ threshold self' = threshold self ∧
  similarity_type self' = similarity_type self ∧
  time_decay_flag self' = time_decay_flag self ∧
  time_decay_half_life self' = time_decay_half_life self ∧
  normalize self' = normalize self ∧
  similarity_is_literal self' = similarity_is_literal self.

(** * Properties *)

(** ** Lists and dicts *)

Section ListFacts.
Context {A : Type} `{EqDecision A}.

Lemma elem_of_unique (l : list A) x : x ∈ Pd.unique l ↔ x ∈ l.
Proof.
  induction l as [|y l IH]; simpl; [done|].
  rewrite !elem_of_cons, list_elem_of_filter, IH.
  destruct (decide (x = y)); naive_solver.
Qed.

Lemma NoDup_unique (l : list A) : NoDup (Pd.unique l).
Proof.
  induction l as [|y l IH]; simpl; [constructor|].
  constructor; [|by apply NoDup_filter].
  rewrite list_elem_of_filter. naive_solver.
Qed.

Lemma length_enumerate (l : list A) : length (Pd.enumerate l) = length l.
Proof. unfold Pd.enumerate. rewrite length_zip, length_seq. lia. Qed.

Lemma snd_enumerate (l : list A) : (Pd.enumerate l).*2 = l.
Proof. unfold Pd.enumerate. apply snd_zip. rewrite length_seq. lia. Qed.

Lemma fst_enumerate (l : list A) : (Pd.enumerate l).*1 = seq 0 (length l).
Proof. unfold Pd.enumerate. apply fst_zip. rewrite length_seq. lia. Qed.

Lemma elem_of_enumerate (l : list A) i x : (i, x) ∈ Pd.enumerate l ↔ l !! i = Some x.
Proof.
  unfold Pd.enumerate. rewrite list_elem_of_lookup. split.
  - intros [k Hk]. apply lookup_zip_with_Some in Hk as (a & b & Heq & Ha & Hb).
    simplify_eq. apply lookup_seq in Ha as [-> _]. done.
  - intros Hx. exists i. apply lookup_zip_with_Some. exists i, x.
    split; [done|]. split; [|done]. apply lookup_seq. split; [done|].
    by eapply lookup_lt_Some.
Qed.
End ListFacts.

Lemma unique_length_distinct `{Countable A} (l : list A) :
  length (Pd.unique l) = size (list_to_set l : gset A).
Proof.
  rewrite <- (size_list_to_set (C := gset A)) by apply NoDup_unique.
  f_equal. apply set_eq. intros x.
  rewrite !elem_of_list_to_set. apply elem_of_unique.
Qed.

Lemma unique_fmap_inj {A B} `{EqDecision A, EqDecision B} (f : A → B) (l : list A) :
  Inj (=) (=) f → Pd.unique (map f l) = map f (Pd.unique l).
Proof.
  intros Hinj. induction l as [|x l IH]; [done|]. simpl. f_equal. rewrite IH.
  clear IH. induction (Pd.unique l) as [|y k IHk]; [done|]. simpl.
  rewrite !filter_cons. destruct (decide (y ≠ x)) as [Hne|Heq].
  - rewrite decide_True by (intros E; by apply Hinj in E). simpl. by rewrite IHk.
  - rewrite decide_False; [done|]. intros E. apply Heq. intros ->. done.
Qed.

Lemma unique_constant {A B} `{EqDecision B} (c : B) (l : list A) :
  Pd.unique (map (λ _, c) l) = match l with [] => [] | _ => [c] end.
Proof.
  induction l as [|x l IH]; [done|]. simpl. rewrite IH.
  destruct l; [done|]. rewrite filter_cons. by rewrite decide_False by tauto.
Qed.

Lemma elem_of_concat {A} (x : A) (ls : list (list A)) :
  x ∈ concat ls ↔ ∃ l, x ∈ l ∧ l ∈ ls.
Proof.
  induction ls as [|l ls IH]; simpl.
  - split; [by intros ?%not_elem_of_nil|]. by intros (l & _ & ?%not_elem_of_nil).
  - rewrite elem_of_app, IH. split.
    + intros [H|(l' & H1 & H2)]; [exists l|exists l']; split; auto using list_elem_of_here, list_elem_of_further.
    + intros (l' & H1 & H2). apply elem_of_cons in H2 as [->|H2]; [by left|right; by exists l'].
Qed.

Lemma existsb_elem_of {A} (f : A → bool) (l : list A) :
  existsb f l = true ↔ ∃ x, x ∈ l ∧ f x = true.
Proof.
  rewrite existsb_exists. split; intros [x [Hx Hf]]; exists x; split; auto;
  by apply list_elem_of_In.
Qed.

Lemma zip_map_map {A B C} (f : A → B) (g : A → C) (l : list A) :
  zip (map f l) (map g l) = map (λ x, (f x, g x)) l.
Proof. induction l as [|x l IH]; [done|]. simpl. by rewrite IH. Qed.

Lemma last_app' {A} (l k : list A) :
  last (l ++ k) = match last k with Some y => Some y | None => last l end.
Proof.
  induction k as [|y k IH] using rev_ind.
  - by rewrite app_nil_r.
  - by rewrite app_assoc, !last_snoc.
Qed.

Lemma filter_fmap_length {A B} (f : A → B) (P : B → Prop) `{∀ x, Decision (P x)} (l : list A) :
  length (filter P (map f l)) = length (filter (λ x, P (f x)) l).
Proof.
  induction l as [|x l IH]; [done|]. simpl. rewrite !filter_cons.
  case_decide; simpl; by rewrite IH.
Qed.

Lemma filter_ext_in {A} (P Q : A → Prop) `{∀ x, Decision (P x)} `{∀ x, Decision (Q x)} (l : list A) :
  (∀ x, x ∈ l → P x ↔ Q x) → filter P l = filter Q l.
Proof.
  induction l as [|x l IH]; intros HPQ; [done|]. rewrite !filter_cons.
  rewrite IH by (intros y Hy; apply HPQ; by apply list_elem_of_further).
  pose proof (HPQ x (list_elem_of_here _ _)).
  repeat case_decide; tauto || done.
Qed.

Lemma filter_pair_with {A B} (P : A → Prop) (Q : B → Prop)
    `{∀ x, Decision (P x)} `{∀ y, Decision (Q y)} (x : A) (l2 : list B) :
  filter (λ p : A * B, P p.1 ∧ Q p.2) (map (λ y, (x, y)) l2)
  = if decide (P x) then map (λ y, (x, y)) (filter Q l2) else [].
Proof.
  induction l2 as [|y l2 IH2]; [by destruct (decide (P x))|].
  simpl. rewrite !filter_cons, IH2. simpl.
  destruct (decide (P x)), (decide (Q y)); simpl;
    try (rewrite decide_True by tauto); try (rewrite decide_False by tauto); done.
Qed.

Lemma filter_list_prod {A B} (P : A → Prop) (Q : B → Prop)
    `{∀ x, Decision (P x)} `{∀ y, Decision (Q y)} (l1 : list A) (l2 : list B) :
  filter (λ p : A * B, P p.1 ∧ Q p.2) (list_prod l1 l2)
  = list_prod (filter P l1) (filter Q l2).
Proof.
  induction l1 as [|x l1 IH]; [done|]. simpl.
  rewrite filter_app, IH, filter_cons, filter_pair_with.
  by destruct (decide (P x)).
Qed.

Lemma filter_list_prod_key {A} (g : A → nat) (a b : nat) (l1 l2 : list A) :
  filter (λ p : A * A, g p.1 = a ∧ g p.2 = b) (list_prod l1 l2)
  = list_prod (filter (λ x, g x = a) l1) (filter (λ y, g y = b) l2).
Proof. exact (filter_list_prod (λ x, g x = a) (λ y, g y = b) l1 l2). Qed.

Lemma last_list_prod {A B} (l1 : list A) (l2 : list B) :
  last (list_prod l1 l2)
  = match last l1, last l2 with Some x, Some y => Some (x, y) | _, _ => None end.
Proof.
  induction l1 as [|x l1 IH]; [done|]. simpl. rewrite last_app', IH, last_cons.
  destruct (last l1) as [x'|], (last l2) as [y|] eqn:Hl2; try done.
  - assert (l2 = []) as -> by (by apply last_None). done.
  - fmapify. rewrite fmap_last, Hl2. done.
  - assert (l2 = []) as -> by (by apply last_None). done.
Qed.

Lemma NoDup_seq' (a n : nat) : NoDup (seq a n).
Proof. apply NoDup_ListNoDup, List.seq_NoDup. Qed.

Lemma dict_snoc `{Countable K} {V} (kvs : list (K * V)) k v :
  Pd.dict (kvs ++ [(k, v)]) = <[k := v]> (Pd.dict kvs).
Proof. unfold Pd.dict. by rewrite foldl_app. Qed.

Lemma dict_list_to_map `{Countable K} {V} (kvs : list (K * V)) :
  NoDup kvs.*1 → Pd.dict kvs = list_to_map kvs.
Proof.
  induction kvs as [|[k v] kvs IH] using rev_ind; [done|].
  rewrite fmap_app, NoDup_app. intros (Hnd & Hk & _).
  rewrite dict_snoc, IH by done.
  symmetry. apply list_to_map_snoc.
  intros Hin. apply (Hk k Hin). simpl. apply list_elem_of_here.
Qed.

Lemma dict_size `{Countable K} {V} (kvs : list (K * V)) :
  NoDup kvs.*1 → size (Pd.dict kvs) = length kvs.
Proof. intros Hnd. rewrite dict_list_to_map by done. by apply map_size_list_to_map. Qed.

Lemma dict_lookup `{Countable K} {V} (kvs : list (K * V)) k v :
  NoDup kvs.*1 → Pd.dict kvs !! k = Some v ↔ (k, v) ∈ kvs.
Proof.
  intros Hnd. rewrite dict_list_to_map by done.
  symmetry. by apply elem_of_list_to_map.
Qed.

Lemma user_index_keys (users : list string) :
  (map (λ x : nat * string, (x.2, x.1)) (Pd.enumerate (Pd.unique users))).*1 = Pd.unique users.
Proof.
  rewrite <- list_fmap_compose.
  rewrite <- (snd_enumerate (Pd.unique users)) at 2.
  by apply list_fmap_ext.
Qed.

Lemma user_index_size (users : list string) :
  size (user_index_of users) = size (list_to_set users : gset string).
Proof.
  unfold user_index_of. rewrite dict_size.
  - rewrite length_map, length_enumerate. apply unique_length_distinct.
  - rewrite user_index_keys. apply NoDup_unique.
Qed.

Lemma user_index_lookup (users : list string) (u : string) (r : nat) :
  user_index_of users !! u = Some r ↔ Pd.unique users !! r = Some u.
Proof.
  unfold user_index_of. rewrite dict_lookup.
  - rewrite list_elem_of_fmap. split.
    + intros ([i x] & [= -> ->] & Hin). by apply elem_of_enumerate.
    + intros H. exists (r, u). split; [done|]. by apply elem_of_enumerate.
  - rewrite user_index_keys. apply NoDup_unique.
Qed.

Lemma user_index_is_Some (users : list string) (u : string) :
  u ∈ users → ∃ n, user_index_of users !! u = Some n ∧ n < length (Pd.unique users).
Proof.
  intros Hu. apply elem_of_unique in Hu. apply list_elem_of_lookup in Hu as [n Hn].
  exists n. split; [by apply user_index_lookup|]. by eapply lookup_lt_Some.
Qed.

Lemma user_index_lt (users : list string) (u : string) (n : nat) :
  user_index_of users !! u = Some n → n < length (Pd.unique users).
Proof. rewrite user_index_lookup. apply lookup_lt_Some. Qed.

Lemma user_index_inj (users : list string) (u v : string) (n : nat) :
  user_index_of users !! u = Some n → user_index_of users !! v = Some n → u = v.
Proof. rewrite !user_index_lookup. congruence. Qed.

(** The item index of [set_index]: the two maps are inverse. *)
Lemma enumerate_index_inverse (l : list string) (i : nat) (x : string) :
  NoDup l →
  Pd.dict (Pd.enumerate l) !! i = Some x →
  Pd.dict (map (λ kv : nat * string, (kv.2, kv.1)) (Pd.enumerate l)) !! x = Some i.
Proof.
  intros Hnd H.
  apply dict_lookup in H; [|rewrite fst_enumerate; apply NoDup_seq'].
  apply dict_lookup.
  - rewrite <- list_fmap_compose.
    rewrite <- (snd_enumerate l) in Hnd.
    erewrite list_fmap_ext; [exact Hnd|done].
  - apply list_elem_of_fmap. by exists (i, x).
Qed.

(** ** Exceptions *)

Lemma bind_Ok {A B} (r : result A) (k : A → result B) b :
  bind r k = Ok b ↔ ∃ a, r = Ok a ∧ k a = Ok b.
Proof. destruct r; simpl; split; try naive_solver. Qed.

Lemma attr_Ok {A} name (o : option A) a : attr name o = Ok a ↔ o = Some a.
Proof. destruct o; simpl; naive_solver. Qed.

Lemma is_ok_array (r : result ndarray) : is_ok r = true → r = Ok (array_of r).
Proof. by destruct r. Qed.

Lemma option_default_Some {A} (o : option A) (d : A) :
  bool_decide (is_Some o) = true → o = Some (default d o).
Proof. destruct o; [done|]. intros H. apply bool_decide_eq_true in H. by destruct H. Qed.

Lemma is_ok_fit (r : result (SAR * disk)) : is_ok r = true → r = Ok (model_of r, disk_of r).
Proof. by destruct r as [[m d]|]. Qed.

Lemma traverse_Ok_lookup {A B} (f : A → result B) (l : list A) (l' : list B) :
  traverse f l = Ok l' →
  ∀ n, match l !! n, l' !! n with
       | Some x, Some y => f x = Ok y
       | None, None => True
       | _, _ => False
       end.
Proof.
  revert l'. induction l as [|x l IH]; intros l' H n; simpl in H.
  - injection H as <-. by destruct n.
  - apply bind_Ok in H as (y & Hy & H). apply bind_Ok in H as (ys & Hys & H).
    injection H as <-. destruct n as [|n]; simpl; [done|]. by apply IH.
Qed.

Lemma traverse_fmap_Ok {A B} (f : A → B) (l : list A) :
  traverse (λ x, Ok (f x)) l = Ok (map f l).
Proof. induction l as [|x l IH]; [done|]. simpl. by rewrite IH. Qed.

Lemma traverse_ext {A B} (f g : A → result B) (l : list A) :
  Forall (λ x, f x = g x) l → traverse f l = traverse g l.
Proof.
  induction 1 as [|x l Hx _ IH]; [done|]. simpl. by rewrite Hx, IH.
Qed.

Lemma traverse_Ok_map {A B} (f : A → result B) (g : A → B) (l : list A) :
  Forall (λ x, f x = Ok (g x)) l → traverse f l = Ok (map g l).
Proof. induction 1 as [|x l Hx _ IH]; [done|]. simpl. by rewrite Hx, IH. Qed.

(** ** float64 *)

Lemma mul_neg_inf_positive (a : float) :
  F64.positive a = true → F64.mul a F64.neg_inf = F64.neg_inf.
Proof. by destruct a as [| [] | | [] ? ?]. Qed.

Lemma mul_neg_inf_negative (a : float) :
  F64.positive (SFopp a) = true → F64.mul a F64.neg_inf = F64.inf.
Proof. by destruct a as [| [] | | [] ? ?]. Qed.

Lemma add_neg_inf (r : float) :
  r ≠ F64.inf → F64.isnan r = false → F64.add r F64.neg_inf = F64.neg_inf.
Proof. by destruct r as [| [] | |]. Qed.

Lemma F64_add_comm (x y : float) : F64.add x y = F64.add y x.
Proof.
  destruct x as [sx|sx| |sx mx ex], y as [sy|sy| |sy my ey]; try done.
  - by destruct sx, sy.
  - by destruct sx, sy.
  - unfold F64.add, SFadd. rewrite (Z.min_comm ex ey). f_equal. apply Z.add_comm.
Qed.

Lemma F64_mul_comm (x y : float) : F64.mul x y = F64.mul y x.
Proof.
  destruct x as [sx|sx| |sx mx ex], y as [sy|sy| |sy my ey]; try done;
    unfold F64.mul, SFmul; rewrite ?(xorb_comm sx sy); try done.
  by rewrite (Pos.mul_comm mx my), (Z.add_comm ex ey).
Qed.

(** ** Construction *)

(** [__init__] with its defaults gives the unfitted model of the examples;
    it refuses an unknown similarity type and a threshold below 1. *)
Example init_defaults :
  init JACCARD true 30 None false 1 false = Ok (unfitted JACCARD false false) ∧
  init "cosine" true 30 None false 1 false = Raise InvalidConfiguration_similarity ∧
  init JACCARD true 30 None false 0 false = Raise InvalidConfiguration_threshold.
Proof. repeat split; reflexivity. Qed.

(** The timestamp sum of a group wraps around at 64 bits. *)
Example sum_int64_wraps :
  sum_int64 [1; 2; 3]%Z = 6%Z ∧
  sum_int64 [2 ^ 63 - 1; 1]%Z = (- 2 ^ 63)%Z.
Proof. split; reflexivity. Qed.

(** ** Restoring from disk *)

(** C10. After [load_file] returns, [n_users] is the number of distinct
    user ids of the ratings table and [n_items] is the size of the restored
    index-to-item mapping: the transient [n_items = len(user2index)] of the
    chained assignment is overwritten. *)
Theorem load_file_counts (self : SAR) (path : string) (num_items : nat)
    (df_ratings : list interaction) (d : disk) (files : saved_files) :
  d !! (path, num_items) = Some files →
  ∃ self',
    load_file self path num_items df_ratings d = Ok self' ∧
    n_users self' = Some (size (list_to_set (map i_user df_ratings) : gset string)) ∧
    index2item self' = Some (file_index2item files) ∧
    n_items self' = Some (size (file_index2item files)).
Proof.
  intros Hfile. unfold load_file. rewrite Hfile.
  eexists. split; [reflexivity|]. simpl.
  by rewrite user_index_size.
Qed.

(** C10, at the demo directory: the ratings table has three users, the
    restored catalogue three items. *)
Lemma load_file_counts_witness :
  ∃ self',
    load_file (unfitted "custom" false false) "../data/demo/" 3 scenario demo_disk = Ok self' ∧
    n_users self' = Some (size (list_to_set (map i_user scenario) : gset string)) ∧
    index2item self' = Some (file_index2item demo_files) ∧
    n_items self' = Some (size (file_index2item demo_files)).
Proof.
  apply (load_file_counts (unfitted "custom" false false) "../data/demo/" 3 scenario
           demo_disk demo_files).
  vm_compute. reflexivity.
Defined.

(** ** Scoring: unknown users *)

(** C6. If any user id of a scoring request is absent from the user index,
    [score] raises UnknownEntity for the whole call, whatever the flags
    and however many of the other users are known: no partial result. *)
Theorem score_unknown_user (self : SAR) (test : list query) (remove_seen normalize : bool)
    (u2i : gmap string nat) :
  user2index self = Some u2i →
  (∃ q, q ∈ test ∧ u2i !! q_user q = None) →
  score self test remove_seen normalize = Raise UnknownEntity.
Proof.
  intros Hidx (q & Hq & Hnone). unfold score. rewrite Hidx. simpl.
  replace (existsb _ _) with true; [done|].
  symmetry. apply existsb_elem_of. exists None. split.
  - apply list_elem_of_fmap. exists (q_user q). split; [done|].
    apply elem_of_unique. apply list_elem_of_fmap. by exists q.
  - by apply bool_decide_eq_true.
Qed.

(** C6, at the scenario model: a batch of the known user A and the
    unknown user Z. *)
Lemma score_unknown_user_witness :
  score scenario_model [mk_query "A" "x"; mk_query "Z" "x"] false false
  = Raise UnknownEntity.
Proof.
  apply (score_unknown_user scenario_model _ false false
           (user_index_of ["A"; "A"; "B"; "B"; "C"])).
  - vm_compute. reflexivity.
  - exists (mk_query "Z" "x"). split.
    + apply list_elem_of_further, list_elem_of_here.
    + vm_compute. reflexivity.
Defined.

(** ** Scoring: normalisation *)

(** The part of [score] up to the raw scores and the seen-item mask. *)
Lemma score_false_inv self test rs pre :
  score self test rs false = Ok pre →
  ∃ u2i affinity rows similarity raw,
    user2index self = Some u2i ∧
    existsb (λ o, bool_decide (o = None)) (map (λ u, u2i !! u) (Pd.unique (map q_user test))) = false ∧
    user_affinity self = Some affinity ∧
    Sp.take_rows affinity (omap id (map (λ u, u2i !! u) (Pd.unique (map q_user test)))) = Ok rows ∧
    item_similarity self = Some similarity ∧
    Sp.dot rows similarity = Ok raw ∧
    (if rs then Sp.add_to_dense raw (Sp.scale rows F64.neg_inf) else Ok raw) = Ok pre.
Proof.
  unfold score. intros H.
  apply bind_Ok in H as (u2i & Hu & H). apply attr_Ok in Hu.
  destruct (existsb _ _) eqn:Hex; [done|].
  apply bind_Ok in H as (aff & Haff & H). apply attr_Ok in Haff.
  apply bind_Ok in H as (rows & Hrows & H).
  apply bind_Ok in H as (sim & Hsim & H). apply attr_Ok in Hsim.
  apply bind_Ok in H as (raw & Hraw & H).
  apply bind_Ok in H as (pre' & Hpre & H). simplify_eq.
  by exists u2i, aff, rows, sim, raw.
Qed.




(** C3: in co-occurrence mode the normalised call returns nothing, also
    where the same request is answered without normalisation. *)
Example score_normalize_cooccurrence :
  is_ok (score cooccur_model_normalized [mk_query "A" "x"] false false) = true ∧
  score cooccur_model_normalized [mk_query "A" "x"] false true = Raise SparseDivisor.
Proof. split; vm_compute; reflexivity. Qed.

(** ** Scoring: seen items *)

Lemma take_rows_stored (m rows : csr) (ids : list nat) k i :
  Sp.take_rows m ids = Ok rows →
  stored rows k i = match ids !! k with Some u => stored m u i | None => None end.
Proof.
  unfold Sp.take_rows. destruct (forallb _ _); [|done]. by intros [= <-].
Qed.

Lemma known_ids_lookup (u2i : gmap string nat) (users : list string) k user u :
  existsb (λ o, bool_decide (o = None)) (map (λ u, u2i !! u) users) = false →
  users !! k = Some user → u2i !! user = Some u →
  omap id (map (λ u, u2i !! u) users) !! k = Some u.
Proof.
  revert k. induction users as [|x l IH]; intros k Hex Hk Hu; [done|].
  simpl in Hex. apply orb_false_iff in Hex as [Hx Hex].
  destruct (u2i !! x) as [n|] eqn:Hx'; [|done]. simpl. rewrite Hx'. simpl.
  destruct k as [|k]; simpl in *; [by simplify_eq|]. by apply IH.
Qed.

(** [score] with [remove_seen=true] is the raw score plus the requested
    affinity rows times -inf. *)
Lemma score_remove_seen_eq (self : SAR) (test : list query) (raw : ndarray) :
  score self test false false = Ok raw →
  ∃ u2i affinity rows,
    user2index self = Some u2i ∧
    user_affinity self = Some affinity ∧
    existsb (λ o, bool_decide (o = None)) (map (λ u, u2i !! u) (Pd.unique (map q_user test))) = false ∧
    Sp.take_rows affinity (omap id (map (λ u, u2i !! u) (Pd.unique (map q_user test)))) = Ok rows ∧
    score self test true false = Sp.add_to_dense raw (Sp.scale rows F64.neg_inf).
Proof.
  intros Hraw.
  destruct (score_false_inv _ _ _ _ Hraw)
    as (u2i & aff & rows & sim & raw' & Hu & Hex & Haff & Hrows & Hsim & Hdot & Hr).
  injection Hr as ->.
  exists u2i, aff, rows. repeat (split; [done|]).
  unfold score. rewrite Hu. simpl. rewrite Hex, Haff. simpl.
  rewrite Hrows. simpl. rewrite Hsim. simpl. rewrite Hdot. simpl.
  by destruct (Sp.add_to_dense _ _).
Qed.

(** What [score] with [remove_seen=true] does on a cell whose training
    affinity is positive: the cell is -inf, provided the raw score there is
    neither +inf nor NaN. *)
Lemma score_remove_seen_positive_rating (self : SAR) (test : list query)
    (raw masked : ndarray) (u2i : gmap string nat) (affinity : csr)
    (k u i : nat) (user : string) (a : float) :
  score self test false false = Ok raw →
  score self test true false = Ok masked →
  user2index self = Some u2i →
  user_affinity self = Some affinity →
  Pd.unique (map q_user test) !! k = Some user →
  u2i !! user = Some u →
  stored affinity u i = Some a →
  F64.positive a = true →
  cell raw k i ≠ F64.inf → F64.isnan (cell raw k i) = false →
  cell masked k i = F64.neg_inf.
Proof.
  intros Hraw Hmasked Hu2i Haff Hk Hu Ha Hpos Hninf Hnnan.
  destruct (score_remove_seen_eq _ _ _ Hraw)
    as (u2i' & aff' & rows & Hu' & Haff' & Hex & Hrows & Heq).
  rewrite Hu2i in Hu'. injection Hu' as <-.
  rewrite Haff in Haff'. injection Haff' as <-.
  rewrite Heq in Hmasked. unfold Sp.add_to_dense in Hmasked.
  case_decide; [|done]. injection Hmasked as <-. simpl.
  rewrite (take_rows_stored _ _ _ _ _ Hrows).
  rewrite (known_ids_lookup _ _ _ _ _ Hex Hk Hu), Ha. simpl.
  rewrite mul_neg_inf_positive by done. by apply add_neg_inf.
Qed.

(** C1, at a failing input. In the likes-and-dislikes table user A rated
    item y with -1, so the training affinity at (A, y) is the nonzero value
    -1. With [remove_seen=true] the score cell there is +inf, not -inf
    (the cell of the liked item x is -inf), and the seen item y is what
    [recommend_k_items] returns for A. *)
Theorem score_remove_seen_negative_rating :
  is_ok (fit_plain (unfitted JACCARD false false) thumbs) = true ∧
  stored_of (user_affinity thumbs_model) 0 0 = Some (F64.of_Z 1) ∧
  stored_of (user_affinity thumbs_model) 0 1 = Some (F64.of_Z (-1)) ∧
  cell_of (score thumbs_model [mk_query "A" "x"] true false) 0 0 = Some F64.neg_inf ∧
  cell_of (score thumbs_model [mk_query "A" "x"] true false) 0 1 = Some F64.inf ∧
  recommend_k_items top_k_sorted thumbs_model [mk_query "A" "x"] 1 true true false
  = Ok [mk_prediction (Some "A") "y" F64.inf].
Proof. repeat split; vm_compute; reflexivity. Qed.

(** ** Prediction: unseen items *)

(** C7, at a failing input. The scenario model was trained on three users.
    A request for user A alone and the unseen item w makes [score] return
    one row; [predict] then appends [np.zeros((self.n_users, 1))], three
    rows, to it, and the call fails with the ValueError of [np.append]
    instead of answering 0. (When the request names every training user the
    shapes agree, and the unseen item gets 0 with the warning.) *)
Theorem predict_unseen_item_raises :
  n_users scenario_model = Some 3 ∧
  (user2index scenario_model ≫= λ m, m !! "A") = Some 0 ∧
  (item2index scenario_model ≫= λ m, m !! "w") = None ∧
  predict scenario_model [mk_query "A" "w"]
  = Raise (ValueError "all the input array dimensions except for the concatenation axis must match exactly") ∧
  predict scenario_model [mk_query "A" "w"; mk_query "B" "x"; mk_query "C" "y"]
  = Ok (["Items found in test not seen during training, new items will have score of 0"],
        [mk_prediction (Some "A") "w" F64.zero;
         mk_prediction (Some "B") "x" (F64.of_Z 5);
         mk_prediction (Some "C") "y" (F64.of_Z 1)]).
Proof. repeat split; vm_compute; reflexivity. Qed.

(** ** De-duplication without time decay *)

Section Dedup.
Context {A B K : Type} `{EqDecision K}.

Lemma filter_nil_not_in (key : A → K) (l : list A) (k : K) :
  k ∉ map key l → filter (λ r, key r = k) l = [].
Proof.
  induction l as [|r l IH]; [done|]. simpl. rewrite not_elem_of_cons.
  intros [Hne Hnin]. rewrite filter_cons. rewrite decide_False by done. by apply IH.
Qed.

Lemma filter_key_fmap (f : A → B) (key : B → K) (l : list A) (k : K) :
  filter (λ r, key r = k) (map f l) = map f (filter (λ r, key (f r) = k) l).
Proof.
  induction l as [|r l IH]; [done|]. simpl. rewrite !filter_cons.
  case_decide; simpl; by rewrite IH.
Qed.

Lemma drop_duplicates_last_filter (key : A → K) (l : list A) (k : K) :
  filter (λ r, key r = k) (Pd.drop_duplicates_last key l)
  = match last (filter (λ r, key r = k) l) with Some r => [r] | None => [] end.
Proof.
  induction l as [|r l IH]; [done|]. simpl.
  destruct (decide (key r ∈ map key l)) as [Hin|Hnin].
  - rewrite IH, filter_cons. case_decide as Hk; [|done].
    rewrite last_cons.
    destruct (last (filter (λ r, key r = k) l)) as [x|] eqn:Hf; [done|].
    exfalso. apply last_None in Hf.
    apply list_elem_of_fmap in Hin as (y & Hy & Hyl).
    eapply (filter_nil_not_elem_of _ _ y Hf); [congruence|done].
  - rewrite !filter_cons. case_decide as Hk; [|done].
    rewrite IH. subst k. by rewrite (filter_nil_not_in _ _ _ Hnin).
Qed.

Lemma drop_duplicates_last_fmap (f : A → B) (key : B → K) (l : list A) :
  Pd.drop_duplicates_last key (map f l) = map f (Pd.drop_duplicates_last (key ∘ f) l).
Proof.
  induction l as [|r l IH]; [done|]. simpl.
  rewrite <- list_fmap_compose.
  destruct (decide _); simpl; by rewrite IH.
Qed.
End Dedup.

(** C4, as amended. Without time decay, [fit] reduces the interaction rows
    to at most one row per (user, item) pair by keeping the last row of
    the pair in input order, whether or not the table has timestamps, and
    the kept row carries its own rating: nothing is summed. *)
Theorem fit_dedup_keeps_last (exponential_decay : Z → Z → Z → float)
    (self : SAR) (df : list interaction)
    (x2i u2i : gmap string nat) :
  time_decay_flag self = false →
  item2index self = Some x2i → user2index self = Some u2i →
  ∃ temp_df,
    fit_temp_df exponential_decay self df = Ok (self, temp_df) ∧
    ∀ user item,
      map (λ r, (t_user r, t_item r, t_rating r))
          (filter (λ r, t_key r = (user, item)) temp_df)
      = match last (filter (λ r, i_key r = (user, item)) df) with
        | Some r => [(i_user r, i_item r, i_rating r)]
        | None => []
        end.
Proof.
  intros Hflag Hx Hu. unfold fit_temp_df. rewrite Hflag. simpl.
  rewrite Hx. simpl. rewrite Hu. simpl.
  eexists. split; [reflexivity|]. intros user item.
  rewrite !filter_key_fmap. simpl.
  rewrite drop_duplicates_last_fmap.
  rewrite filter_key_fmap. 
  rewrite (drop_duplicates_last_filter (t_key ∘ select_columns self) df (user, item)).
  rewrite <- !list_fmap_compose.
  change (λ r, (t_key ∘ select_columns self) r = (user, item)) with (λ r, i_key r = (user, item)).
  by destruct (last _).
Qed.

(** C4, as stated, fails: user A rated item x twice, the rating 5 at
    timestamp 20 coming first in the table and the rating 3 at timestamp 10
    last. The most recent row by timestamp carries 5; [fit] keeps 3. *)
Lemma dedup_ignores_timestamp :
  (i_rating <$> most_recent_by_timestamp out_of_order "A" "x") = Some (F64.of_Z 5) ∧
  ratings_of (fit_temp_df half_life_decay
                (set_index (unfitted JACCARD false false) out_of_order) out_of_order)
  = Some [("A", "x", F64.of_Z 3)] ∧
  stored_of (user_affinity out_of_order_model) 0 0 = Some (F64.of_Z 3) ∧
  F64.of_Z 3 ≠ F64.of_Z 5.
Proof. repeat split; [vm_compute; reflexivity ..|discriminate]. Qed.

(** C4 as amended, at the same table. *)
Lemma fit_dedup_keeps_last_witness :
  let self := set_index (unfitted JACCARD false false) out_of_order in
  ∃ temp_df,
    fit_temp_df half_life_decay self out_of_order = Ok (self, temp_df) ∧
    ∀ user item,
      map (λ r, (t_user r, t_item r, t_rating r))
          (filter (λ r, t_key r = (user, item)) temp_df)
      = match last (filter (λ r, i_key r = (user, item)) out_of_order) with
        | Some r => [(i_user r, i_item r, i_rating r)]
        | None => []
        end.
Proof.
  intros self.
  apply (fit_dedup_keeps_last half_life_decay self out_of_order
           (Pd.dict [("x", 0)]) (user_index_of ["A"; "A"])).
  - reflexivity.
  - vm_compute. reflexivity.
  - vm_compute. reflexivity.
Defined.

(** ** Unity affinity under time decay *)

(** C5, at a failing input. With time decay and normalisation on, user A
    rated item x twice, one half-life apart (timestamps 2592000 and
    5184000). The pipeline on unit weights gives 0.5 + 1 = 1.5 at (A, x).
    [fit] instead sets the unity column on the frame that
    [compute_time_decay] has already aggregated, where the pair has one row
    whose timestamp is the sum 7776000 of the two timestamps, and decays
    that row: the unity affinity is 1.0. (The rating-weighted cell is
    4*0.5 + 2*1 = 4.) *)
Theorem fit_unity_decays_aggregated_rows :
  is_ok (fit_plain (unfitted JACCARD true true) rated_twice) = true ∧
  stored_of (user_affinity rated_twice_model) 0 0 = Some (F64.of_Z 4) ∧
  stored_of (unity_user_affinity rated_twice_model) 0 0 = Some F64.one ∧
  stored_of (unity_affinity_by_spec (unfitted JACCARD true true) rated_twice) 0 0
  = Some (F64.div (F64.of_Z 3) (F64.of_Z 2)) ∧
  map t_timestamp
    (frame_of (fit_temp_df half_life_decay
                 (set_index (unfitted JACCARD true true) rated_twice) rated_twice))
  = [Some 7776000%Z].
Proof. repeat split; vm_compute; reflexivity. Qed.

(** ** The working frame of fit *)

Section Keys.
Context {A K : Type} `{EqDecision K}.

Lemma drop_duplicates_last_elem (key : A → K) (l : list A) (k : K) :
  k ∈ map key (Pd.drop_duplicates_last key l) ↔ k ∈ map key l.
Proof.
  induction l as [|r l IH]; [done|]. simpl.
  destruct (decide (key r ∈ map key l)) as [Hin|Hnin]; simpl.
  - rewrite IH, elem_of_cons. split; [by right|]. by intros [->|].
  - by rewrite !elem_of_cons, IH.
Qed.

Lemma drop_duplicates_last_NoDup (key : A → K) (l : list A) :
  NoDup (map key (Pd.drop_duplicates_last key l)).
Proof.
  induction l as [|r l IH]; simpl; [constructor|].
  destruct (decide (key r ∈ map key l)) as [Hin|Hnin]; simpl; [done|].
  constructor; [|done]. by rewrite drop_duplicates_last_elem.
Qed.
End Keys.

Lemma groupby_sum_keys (df : list trow) :
  map t_key (groupby_sum df) = merge_sort Pd.key_le (Pd.unique (map t_key df)).
Proof.
  unfold groupby_sum. rewrite <- list_fmap_compose.
  rewrite <- (list_fmap_id (merge_sort _ _)) at 2.
  apply list_fmap_ext. intros _ [u i] _. done.
Qed.

Lemma groupby_sum_NoDup (df : list trow) : NoDup (map t_key (groupby_sum df)).
Proof.
  rewrite groupby_sum_keys. rewrite merge_sort_Permutation. apply NoDup_unique.
Qed.

Lemma groupby_sum_elem (df : list trow) k :
  k ∈ map t_key (groupby_sum df) ↔ k ∈ map t_key df.
Proof.
  rewrite groupby_sum_keys. rewrite merge_sort_Permutation. apply elem_of_unique.
Qed.

Lemma list_max_Some (ts : list Z) : ts ≠ [] → is_Some (list_max ts).
Proof. destruct ts; [done|]. by eexists. Qed.

Lemma col_sum_is_Some {A B} (f : list A → B) (cells : list (option A)) :
  Forall is_Some cells → is_Some (col_sum f cells).
Proof.
  intros H. unfold col_sum.
  assert (is_Some (mapM id cells)) as [l ->]; [|by eexists].
  induction H as [|c cells [a ->] _ [l IH]]; [by eexists|].
  simpl. rewrite IH. by eexists.
Qed.

Lemma col_sum_singleton {A B} (f : list A → B) (a : A) :
  col_sum f [Some a] = Some (f [a]).
Proof. done. Qed.

Lemma filter_key_singleton {A K} `{EqDecision K} (key : A → K) (l : list A) (k : K) :
  NoDup (map key l) → k ∈ map key l → ∃ r, filter (λ r, key r = k) l = [r] ∧ r ∈ l ∧ key r = k.
Proof.
  induction l as [|x l IH]; simpl; [by intros _ ?%not_elem_of_nil|].
  rewrite NoDup_cons. intros [Hnin Hnd] Hin. rewrite filter_cons.
  destruct (decide (key x = k)) as [<-|Hne].
  - exists x. rewrite (filter_nil_not_in _ _ _ Hnin).
    split; [done|]. split; [apply list_elem_of_here|done].
  - apply elem_of_cons in Hin as [->|Hin]; [done|].
    destruct (IH Hnd Hin) as (r & Hf & Hr & Hk). exists r.
    split; [done|]. split; [by apply list_elem_of_further|done].
Qed.

Lemma traverse_Ok_elem {A B} (f : A → result B) (l : list A) (l' : list B) (y : B) :
  traverse f l = Ok l' → y ∈ l' → ∃ x, x ∈ l ∧ f x = Ok y.
Proof.
  intros H Hy. apply list_elem_of_lookup in Hy as [n Hn].
  pose proof (traverse_Ok_lookup _ _ _ H n) as Hl. rewrite Hn in Hl.
  destruct (l !! n) as [x|] eqn:Hx; [|done].
  exists x. split; [|done]. apply list_elem_of_lookup. by exists n.
Qed.

(** What [decay_row] keeps of a row. *)
Lemma decay_row_keeps (decay : Z → Z → Z → float) now hl c (r r' : trow) :
  decay_row decay now hl c r = Ok r' →
  t_key r' = t_key r ∧ t_timestamp r' = t_timestamp r ∧
  t_user_id r' = t_user_id r ∧ t_item_id r' = t_item_id r ∧
  (is_Some (t_unity r) → is_Some (t_unity r')).
Proof.
  unfold decay_row. intros H.
  apply bind_Ok in H as (n & _ & H). apply bind_Ok in H as (t & _ & H).
  destruct c.
  - by injection H as <-.
  - destruct (t_unity r); [|done]. injection H as <-. simpl. repeat split; by eexists.
Qed.

(** [compute_time_decay] on a frame that has the timestamp column (and the
    unity column, when that is the one decayed): it succeeds, the result
    has one row per key of the frame, and when the frame already had one
    row per key, each row keeps its index cells. *)
Lemma compute_time_decay_frame (decay : Z → Z → Z → float) (self : SAR) (df : list trow)
    (c : weight_column) :
  Forall (λ r, is_Some (t_timestamp r)) df →
  (c = col_unity_rating → Forall (λ r, is_Some (t_unity r)) df) →
  ∃ self' df',
    compute_time_decay decay self df c = Ok (self', df') ∧
    item2index self' = item2index self ∧ user2index self' = user2index self ∧
    n_users self' = n_users self ∧ n_items self' = n_items self ∧
    threshold self' = threshold self ∧ time_decay_flag self' = time_decay_flag self ∧
    normalize self' = normalize self ∧
    NoDup (map t_key df') ∧ (∀ k, k ∈ map t_key df' ↔ k ∈ map t_key df) ∧
    Forall (λ r, is_Some (t_timestamp r)) df' ∧
    (Forall (λ r, is_Some (t_unity r)) df → Forall (λ r, is_Some (t_unity r)) df') ∧
    (NoDup (map t_key df) → ∀ u2i x2i, Forall (row_indexed u2i x2i) df →
                                       Forall (row_indexed u2i x2i) df').
Proof.
  intros Hts Hun. unfold compute_time_decay.
  assert (∃ ts, column "timestamp" t_timestamp df = Ok ts ∧ length ts = length df) as (ts & -> & Hlen).
  { clear Hun. unfold column. induction Hts as [|r l [t Ht] _ (ts & IH & Hlen)]; [by exists []|].
    exists (t :: ts). simpl. rewrite Ht. simpl. rewrite IH. simpl. by rewrite Hlen. }
  simpl.
  set (self' := match time_now self with None => _ | Some _ => self end).
  assert (df ≠ [] → is_Some (time_now self')) as Hnow.
  { intros Hne. subst self'. destruct (time_now self) eqn:E; [by rewrite E|].
    simpl. apply list_max_Some. intros ->. destruct df; done. }
  assert (∃ df1, traverse (decay_row decay (time_now self') (time_decay_half_life self') c) df = Ok df1)
    as (df1 & Hdf1).
  { destruct df as [|r0 df0]; [by exists []|].
    destruct Hnow as [now Hnow]; [done|]. rewrite Hnow.
    assert (Forall (λ r, c = col_unity_rating → is_Some (t_unity r)) (r0 :: df0)) as Hun'.
    { apply Forall_forall. intros r Hr Hc. exact (proj1 (Forall_forall _ _) (Hun Hc) r Hr). }
    revert Hts Hun'. generalize (r0 :: df0). clear. intros l Hts Hun.
    induction Hts as [|r l [t Ht] _ IH]; [by exists []|].
    apply Forall_cons in Hun as [Hr Hun]. destruct (IH Hun) as (df1 & IH1).
    unfold traverse. fold (traverse (decay_row decay (Some now) (time_decay_half_life self') c)).
    rewrite IH1. unfold decay_row at 1. simpl. rewrite Ht. simpl.
    destruct c; simpl; [by eexists|].
    destruct Hr as [v ->]; [done|]. simpl. by eexists. }
  rewrite Hdf1. simpl. exists self', (groupby_sum df1).
  split; [done|].
  assert (item2index self' = item2index self ∧ user2index self' = user2index self ∧
          n_users self' = n_users self ∧ n_items self' = n_items self ∧
          threshold self' = threshold self ∧ time_decay_flag self' = time_decay_flag self ∧
          normalize self' = normalize self)
    as (-> & -> & -> & -> & -> & -> & ->)
    by (subst self'; by destruct (time_now self)).
  repeat (split; [done|]).
  assert (∀ r1, r1 ∈ df1 → ∃ r, r ∈ df ∧
            t_key r1 = t_key r ∧ t_timestamp r1 = t_timestamp r ∧
            t_user_id r1 = t_user_id r ∧ t_item_id r1 = t_item_id r ∧
            (is_Some (t_unity r) → is_Some (t_unity r1))) as Hrows.
  { intros r1 Hr1. destruct (traverse_Ok_elem _ _ _ _ Hdf1 Hr1) as (r & Hr & Hd).
    exists r. split; [done|]. by eapply decay_row_keeps. }
  assert (map t_key df1 = map t_key df) as Hkeys.
  { apply list_eq. intros n. fmapify. rewrite !list_lookup_fmap.
    pose proof (traverse_Ok_lookup _ _ _ Hdf1 n) as Hn.
    destruct (df !! n) as [r|], (df1 !! n) as [r1|]; try done. simpl.
    by destruct (decay_row_keeps _ _ _ _ _ _ Hn) as [-> _]. }
  assert (∀ r', r' ∈ groupby_sum df1 →
            ∃ k, r' = sum_group k (filter (λ r, t_key r = k) df1) ∧ k ∈ map t_key df1) as Hgroups.
  { intros r' Hr'. unfold groupby_sum in Hr'. apply list_elem_of_fmap in Hr' as (k & -> & Hk).
    exists k. split; [done|]. rewrite merge_sort_Permutation in Hk. by apply elem_of_unique. }
  split; [apply groupby_sum_NoDup|].
  split; [intros k; by rewrite groupby_sum_elem, Hkeys|].
  split; [|split].
  - apply Forall_forall. intros r' Hr'. destruct (Hgroups r' Hr') as (k & -> & _). simpl.
    apply col_sum_is_Some. apply Forall_forall. intros o Ho.
    apply list_elem_of_fmap in Ho as (r1 & -> & Hr1). apply list_elem_of_filter in Hr1 as [_ Hr1].
    destruct (Hrows r1 Hr1) as (r & Hr & _ & -> & _).
    exact (proj1 (Forall_forall _ _) Hts r Hr).
  - intros Hunity. apply Forall_forall. intros r' Hr'.
    destruct (Hgroups r' Hr') as (k & -> & _). simpl.
    apply col_sum_is_Some. apply Forall_forall. intros o Ho.
    apply list_elem_of_fmap in Ho as (r1 & -> & Hr1). apply list_elem_of_filter in Hr1 as [_ Hr1].
    destruct (Hrows r1 Hr1) as (r & Hr & _ & _ & _ & _ & Hu).
    apply Hu. exact (proj1 (Forall_forall _ _) Hunity r Hr).
  - intros Hnd u2i x2i Hidx. apply Forall_forall. intros r' Hr'.
    destruct (Hgroups r' Hr') as (k & -> & Hk).
    rewrite <- Hkeys in Hnd.
    destruct (filter_key_singleton t_key df1 k Hnd Hk) as (r1 & -> & Hr1 & Hk1).
    destruct (Hrows r1 Hr1) as (r & Hr & Hkr & _ & Hui & Hii & _).
    destruct (proj1 (Forall_forall _ _) Hidx r Hr) as (n & m & Hn & Hm & Hun' & Him).
    exists n, m. simpl. rewrite Hui, Hii, Hun', Him. subst k. rewrite Hkr in *. simpl.
    repeat split; try done; unfold col_sum, idx_sum; simpl; by rewrite Nat.add_0_r.
Qed.

(** The coordinates of a frame whose index columns hold no NaN. *)
Lemma coordinates_indexed (df : list trow) (fu fi : trow → nat) :
  Forall (λ r, t_user_id r = Some (Idx (fu r)) ∧ t_item_id r = Some (Idx (fi r))) df →
  coordinates df = Ok (map (λ r, (fu r, fi r)) df).
Proof.
  intros H. unfold coordinates, column.
  rewrite (traverse_Ok_map _ (λ r, Idx (fu r))).
  2:{ eapply Forall_impl; [exact H|]. intros r [-> _]. done. }
  simpl. rewrite (traverse_Ok_map _ (λ r, Idx (fi r))).
  2:{ eapply Forall_impl; [exact H|]. intros r [_ ->]. done. }
  simpl. rewrite (traverse_Ok_map coordinate (λ c, match c with Idx n => n | IdxNaN => 0 end)).
  2:{ apply Forall_forall. intros c Hc. apply list_elem_of_fmap in Hc as (r & -> & _). done. }
  simpl. rewrite (traverse_Ok_map coordinate (λ c, match c with Idx n => n | IdxNaN => 0 end)).
  2:{ apply Forall_forall. intros c Hc. apply list_elem_of_fmap in Hc as (r & -> & _). done. }
  simpl. rewrite <- !list_fmap_compose. fmapify. f_equal.
  rewrite <- (zip_map_map fu fi). done.
Qed.

(** The working frame of [fit] on an indexed model: it is produced, it has
    one row per (user, item) pair of the table, its index columns hold
    the indices of its keys, and under time decay it keeps a timestamp
    column. *)
Lemma fit_temp_df_indexed (decay : Z → Z → Z → float) (self : SAR)
    (df : list interaction) (x2i u2i : gmap string nat) :
  item2index self = Some x2i → user2index self = Some u2i →
  ∃ self' temp_df,
    fit_temp_df decay self df = Ok (self', temp_df) ∧
    n_users self' = n_users self ∧ n_items self' = n_items self ∧
    threshold self' = threshold self ∧ item2index self' = Some x2i ∧
    time_decay_flag self' = time_decay_flag self ∧ normalize self' = normalize self ∧
    NoDup (map t_key temp_df) ∧
    (∀ k, k ∈ map t_key temp_df ↔ k ∈ map i_key df) ∧
    Forall (λ r, t_user_id r = Some (index_cell u2i (t_user r)) ∧
                 t_item_id r = Some (index_cell x2i (t_item r))) temp_df ∧
    (time_decay_flag self = true → Forall (λ r, is_Some (t_timestamp r)) temp_df).
Proof.
  intros Hx Hu. unfold fit_temp_df.
  assert (map t_key (map (select_columns self) df) = map i_key df) as Hsel.
  { rewrite <- list_fmap_compose. by apply list_fmap_ext. }
  assert (∃ self' df1,
    (if time_decay_flag self
     then compute_time_decay decay self (map (select_columns self) df) col_rating
     else Ok (self, Pd.drop_duplicates_last t_key (map (select_columns self) df)))
    = Ok (self', df1) ∧
    item2index self' = item2index self ∧ user2index self' = user2index self ∧
    n_users self' = n_users self ∧ n_items self' = n_items self ∧
    threshold self' = threshold self ∧
    time_decay_flag self' = time_decay_flag self ∧ normalize self' = normalize self ∧
    NoDup (map t_key df1) ∧ (∀ k, k ∈ map t_key df1 ↔ k ∈ map i_key df) ∧
    (time_decay_flag self = true → Forall (λ r, is_Some (t_timestamp r)) df1))
    as (self' & df1 & -> & Hx' & Hu' & Hnu & Hni & Hth & Hfl & Hno & Hnd & Hel & Hts).
  { destruct (time_decay_flag self) eqn:Hflag.
    - destruct (compute_time_decay_frame decay self (map (select_columns self) df) col_rating)
        as (self' & df' & Hc & ? & ? & ? & ? & ? & ? & ? & ? & Hel & ? & _); [|done|].
      + apply Forall_forall. intros r Hr. apply list_elem_of_fmap in Hr as (r0 & -> & _).
        unfold select_columns. rewrite Hflag. by eexists.
      + exists self', df'. repeat (split; [congruence|]).
        split; [|done]. intros k. by rewrite Hel, Hsel.
    - exists self, (Pd.drop_duplicates_last t_key (map (select_columns self) df)).
      repeat (split; [done|]). split; [apply drop_duplicates_last_NoDup|].
      split; [|done]. intros k. by rewrite drop_duplicates_last_elem, Hsel. }
  simpl. rewrite Hx', Hx. simpl. rewrite Hu', Hu. simpl.
  eexists _, _. split; [reflexivity|].
  rewrite Hx', Hx. repeat (split; [done|]).
  rewrite <- !list_fmap_compose.
  split; [|split; [|split]].
  - erewrite list_fmap_ext; [exact Hnd|]. done.
  - intros k. rewrite <- Hel. erewrite list_fmap_ext; [reflexivity|]. done.
  - apply Forall_forall. intros r Hr. apply list_elem_of_fmap in Hr as (r0 & -> & _). done.
  - intros Hflag. apply Forall_forall. intros r Hr.
    apply list_elem_of_fmap in Hr as (r0 & -> & Hr0). simpl.
    exact (proj1 (Forall_forall _ _) (Hts Hflag) r0 Hr0).
Qed.

(** [compute_affinity_matrix] on a frame whose rows carry indices within
    the shape of the matrix: the matrix is built. *)
Lemma compute_affinity_matrix_indexed (self : SAR) (df : list trow) (c : weight_column)
    (u2i x2i : gmap string nat) (nu ni : nat) :
  n_users self = Some nu → n_items self = Some ni →
  (∀ u n, u2i !! u = Some n → n < nu) → (∀ x m, x2i !! x = Some m → m < ni) →
  Forall (row_indexed u2i x2i) df →
  (c = col_unity_rating → Forall (λ r, is_Some (t_unity r)) df) →
  is_ok (compute_affinity_matrix self df c) = true.
Proof.
  intros Hnu Hni Hu Hx Hidx Hun. unfold compute_affinity_matrix.
  set (U := λ r : trow, default 0 (u2i !! t_user r)).
  set (I := λ r : trow, default 0 (x2i !! t_item r)).
  assert (coordinates df = Ok (map (λ r, (U r, I r)) df)) as Hc.
  { apply coordinates_indexed. eapply Forall_impl; [exact Hidx|].
    intros r (n & m & Hn & Hm & -> & ->). unfold U, I. by rewrite Hn, Hm. }
  assert (∃ data, match c with
                  | col_rating => Ok (map t_rating df)
                  | col_unity_rating => column "_unity_rating" t_unity df
                  end = Ok data) as (data & ->).
  { destruct c; [by eexists|]. specialize (Hun eq_refl). unfold column.
    clear -Hun. induction Hun as [|r l [v Hv] _ (data & IH)]; [by exists []|].
    exists (v :: data). simpl. rewrite Hv. simpl. by rewrite IH. }
  simpl. rewrite Hc. simpl. rewrite Hnu, Hni. simpl. unfold Sp.coo_matrix.
  rewrite (proj2 (forallb_forall _ _)); [done|].
  intros e He. apply bool_decide_eq_true. apply list_elem_of_In in He.
  apply list_elem_of_lookup in He as [k Hk]. apply lookup_zip_with_Some in Hk as (v & p & -> & _ & Hp).
  simpl. assert (p ∈ map (λ r, (U r, I r)) df) as Hin by (apply list_elem_of_lookup; by exists k).
  apply list_elem_of_fmap in Hin as (r & -> & Hr).
  destruct (proj1 (Forall_forall _ _) Hidx r Hr) as (n & m & Hn & Hm & _).
  unfold U, I. rewrite Hn, Hm. simpl. split; [by eapply Hu|by eapply Hx].
Qed.

(** [fit_unity] on the working frame: it succeeds, and the frame it hands
    to the rest of [fit] still has one row per key, with the same keys and
    the same index cells. *)
Lemma fit_unity_indexed (decay : Z → Z → Z → float) (self : SAR) (temp_df : list trow)
    (u2i x2i : gmap string nat) (nu ni : nat) :
  n_users self = Some nu → n_items self = Some ni →
  (∀ u n, u2i !! u = Some n → n < nu) → (∀ x m, x2i !! x = Some m → m < ni) →
  NoDup (map t_key temp_df) → Forall (row_indexed u2i x2i) temp_df →
  (time_decay_flag self = true → Forall (λ r, is_Some (t_timestamp r)) temp_df) →
  ∃ self' temp_df',
    fit_unity decay self temp_df = Ok (self', temp_df') ∧
    n_users self' = n_users self ∧ n_items self' = n_items self ∧
    threshold self' = threshold self ∧ item2index self' = item2index self ∧
    NoDup (map t_key temp_df') ∧
    (∀ k, k ∈ map t_key temp_df' ↔ k ∈ map t_key temp_df) ∧
    Forall (row_indexed u2i x2i) temp_df'.
Proof.
  intros Hnu Hni Hu Hx Hnd Hidx Hts. unfold fit_unity.
  destruct (normalize self); [|by eexists _, _].
  set (unit := map _ temp_df).
  assert (map t_key unit = map t_key temp_df) as Hkeys.
  { subst unit. rewrite <- list_fmap_compose. by apply list_fmap_ext. }
  assert (Forall (row_indexed u2i x2i) unit) as Hidx1.
  { apply Forall_forall. intros r Hr. apply list_elem_of_fmap in Hr as (r0 & -> & Hr0).
    exact (proj1 (Forall_forall _ _) Hidx r0 Hr0). }
  assert (Forall (λ r, is_Some (t_unity r)) unit) as Hun1.
  { apply Forall_forall. intros r Hr. apply list_elem_of_fmap in Hr as (r0 & -> & Hr0).
    by eexists. }
  assert (∃ self1 temp1,
    (if time_decay_flag self then compute_time_decay decay self unit col_unity_rating
     else Ok (self, unit)) = Ok (self1, temp1) ∧
    item2index self1 = item2index self ∧
    n_users self1 = n_users self ∧ n_items self1 = n_items self ∧
    threshold self1 = threshold self ∧
    NoDup (map t_key temp1) ∧ (∀ k, k ∈ map t_key temp1 ↔ k ∈ map t_key temp_df) ∧
    Forall (λ r, is_Some (t_unity r)) temp1 ∧ Forall (row_indexed u2i x2i) temp1)
    as (self1 & temp1 & -> & Hx1 & Hnu1 & Hni1 & Hth1 & Hnd1 & Hel1 & Hun2 & Hidx2).
  { destruct (time_decay_flag self) eqn:Hflag.
    - destruct (compute_time_decay_frame decay self unit col_unity_rating)
        as (self1 & temp1 & Hc & ? & ? & ? & ? & ? & ? & ? & ? & Hel & ? & Hunity & Hkeep);
        [|done|].
      + apply Forall_forall. intros r Hr. apply list_elem_of_fmap in Hr as (r0 & -> & Hr0).
        exact (proj1 (Forall_forall _ _) (Hts eq_refl) r0 Hr0).
      + exists self1, temp1. repeat (split; [done|]).
        split; [intros k; by rewrite Hel, Hkeys|]. split; [by apply Hunity|].
        apply Hkeep; [by rewrite Hkeys|done].
    - exists self, unit. repeat (split; [done|]).
      split; [by rewrite Hkeys|]. split; [intros k; by rewrite Hkeys|done]. }
  simpl.
  pose proof (compute_affinity_matrix_indexed self1 temp1 col_unity_rating u2i x2i nu ni) as Hok.
  rewrite Hnu1, Hni1 in Hok. specialize (Hok Hnu Hni Hu Hx Hidx2 (λ _, Hun2)).
  destruct (compute_affinity_matrix self1 temp1 col_unity_rating) as [unity|e]; [|done].
  simpl. eexists _, _. split; [reflexivity|]. simpl. by rewrite Hnu1, Hni1, Hth1, Hx1.
Qed.

Lemma set_index_fields (self : SAR) (df : list interaction) :
  item2index (set_index self df) = Some (user_index_of (map i_item df)) ∧
  user2index (set_index self df) = Some (user_index_of (map i_user df)) ∧
  n_users (set_index self df) = Some (length (Pd.unique (map i_user df))) ∧
  n_items (set_index self df) = Some (length (Pd.unique (map i_item df))) ∧
  threshold (set_index self df) = threshold self.
Proof.
  unfold set_index. simpl. repeat split; try done; f_equal.
  - unfold user_index_of. rewrite dict_size.
    + by rewrite length_map, length_enumerate.
    + rewrite user_index_keys. apply NoDup_unique.
  - rewrite dict_size.
    + by rewrite length_enumerate.
    + rewrite fst_enumerate. apply NoDup_seq'.
Qed.

(** ** Co-occurrence *)

Section Counting.
Local Open Scope Z_scope.

Lemma sum_indicator (a : nat) (b n : nat) :
foldr Z.add 0 (map (λ u, if decide (a = u) then 1 else 0) (seq b n))
= if decide (b ≤ a < b + n)%nat then 1 else 0.
Proof.
revert b. induction n as [|n IH]; intros b; simpl.
- rewrite decide_False; [done|lia].
- rewrite IH. repeat case_decide; lia.
Qed.

Lemma sum_hits (ix : list (nat * nat)) (i n : nat) :
foldr Z.add 0 (map (λ u, user_item_hits ix u i) (seq 0 n))
= Z.of_nat (length (filter (λ p : nat * nat, p.2 = i ∧ (p.1 < n)%nat) ix)).
Proof.
induction ix as [|[a c] ix IH]; simpl.
- induction (seq 0 n) as [|u l IHl]; [done|]. simpl. by rewrite IHl.
- rewrite filter_cons. simpl.
  transitivity (foldr Z.add 0 (map (λ u, if decide (a = u ∧ c = i) then 1 else 0) (seq 0 n))
                + foldr Z.add 0 (map (λ u, user_item_hits ix u i) (seq 0 n))).
  { clear IH. induction (seq 0 n) as [|u l IHl]; [done|]. simpl. rewrite IHl.
    unfold user_item_hits at 1. rewrite filter_cons.
    destruct (decide ((a, c) = (u, i))) as [[= -> ->]|Hne].
    - rewrite decide_True by done. simpl length. unfold user_item_hits. lia.
    - rewrite decide_False by (intros [-> ->]; done). unfold user_item_hits. lia. }
  rewrite IH.
  destruct (decide (c = i)) as [->|Hne].
  + assert (map (λ u, if decide (a = u ∧ i = i) then 1 else 0) (seq 0 n)
            = map (λ u, if decide (a = u) then 1 else 0) (seq 0 n)) as ->.
    { apply list_fmap_ext. intros _ u _. simpl. repeat case_decide; tauto || done. }
    rewrite sum_indicator.
    destruct (decide (a < n)%nat).
    * rewrite decide_True by lia. rewrite decide_True by done. simpl length. lia.
    * rewrite decide_False by lia. rewrite decide_False by tauto. lia.
  + rewrite decide_False by tauto.
    assert (map (λ u, if decide (a = u ∧ c = i) then 1 else 0) (seq 0 n)
            = map (λ _, 0) (seq 0 n)) as ->.
    { apply list_fmap_ext. intros _ u _. simpl. rewrite decide_False; [done|tauto]. }
    assert (∀ l : list nat, foldr Z.add 0 (map (λ _, 0) l) = 0) as ->; [|lia].
    intros l. induction l; simpl; lia.
Qed.

Lemma hits_NoDup (ix : list (nat * nat)) (u i : nat) :
NoDup ix → user_item_hits ix u i * user_item_hits ix u i = user_item_hits ix u i.
Proof.
intros Hnd. unfold user_item_hits.
assert (length (filter (λ p, p = (u, i)) ix) ≤ 1)%nat as Hle.
{ induction Hnd as [|p ix Hnin _ IH]; [simpl; lia|].
  rewrite filter_cons. case_decide as Hp; [|done]. subst p. simpl.
  rewrite (proj2 (length_zero_iff_nil _)); [lia|].
  destruct (filter _ ix) as [|q l] eqn:Hf; [done|].
  assert (q ∈ filter (λ p, p = (u, i)) ix) as Hq by (rewrite Hf; apply list_elem_of_here).
  apply list_elem_of_filter in Hq as [-> Hq]. done. }
destruct (length _) as [|[|]]; simpl; lia.
Qed.

(** The diagonal of the co-occurrence counts of a frame without repeated
  coordinates: the number of rows in column [i]. *)
Lemma item_cooccurrence_diagonal (nu : nat) (ix : list (nat * nat)) (i : nat) :
NoDup ix → Forall (λ p, (p.1 < nu)%nat) ix →
item_cooccurrence nu ix i i = Z.of_nat (length (filter (λ p : nat * nat, p.2 = i) ix)).
Proof.
intros Hnd Hlt. unfold item_cooccurrence.
assert (map (λ u, user_item_hits ix u i * user_item_hits ix u i) (seq 0 nu)
        = map (λ u, user_item_hits ix u i) (seq 0 nu)) as ->.
{ apply list_fmap_ext. intros _ u _. apply (hits_NoDup ix u i Hnd). }
rewrite sum_hits. do 2 f_equal.
clear Hnd. induction Hlt as [|p ix Hp _ IH]; [done|].
rewrite !filter_cons. repeat case_decide; try tauto; by rewrite IH.
Qed.

Lemma item_cooccurrence_sym (nu : nat) (ix : list (nat * nat)) (i j : nat) :
item_cooccurrence nu ix i j = item_cooccurrence nu ix j i.
Proof.
unfold item_cooccurrence. f_equal. apply list_fmap_ext. intros _ u _. simpl. lia.
Qed.

Lemma threshold_mask_spec (t c : Z) :
threshold_mask t c = if (c <? t) then 0 else c.
Proof.
unfold threshold_mask. destruct (Z.ltb_spec c t).
- rewrite bool_decide_eq_false_2 by lia. lia.
- rewrite bool_decide_eq_true_2 by lia. lia.
Qed.
End Counting.

(** [set_index] builds an index that covers its table. *)
Lemma set_index_covers (self : SAR) (df : list interaction) :
  index_covers (set_index self df) df.
Proof.
  destruct (set_index_fields self df) as (Hx & Hu & Hnu & Hni & _).
  exists (user_index_of (map i_user df)), (user_index_of (map i_item df)),
         (length (Pd.unique (map i_user df))), (length (Pd.unique (map i_item df))).
  repeat (split; [done|]).
  split; [intros u n; apply user_index_lt|]. split; [intros x i; apply user_index_lt|].
  split; [intros u v n; apply user_index_inj|]. split; [intros x y i; apply user_index_inj|].
  intros r Hr. split.
  - destruct (user_index_is_Some (map i_user df) (i_user r)) as (n & Hn & _); [|by exists n].
    apply list_elem_of_fmap. by exists r.
  - destruct (user_index_is_Some (map i_item df) (i_item r)) as (n & Hn & _); [|by exists n].
    apply list_elem_of_fmap. by exists r.
Qed.

(** [load_file] restores an index that covers the table when the item map
    on disk is injective, stays below the size of its inverse and has every
    item of the table. *)
Lemma load_file_covers (self : SAR) (path : string) (n : nat) (df : list interaction)
    (d : disk) (files : saved_files) (self' : SAR) :
  d !! (path, n) = Some files →
  load_file self path n df d = Ok self' →
  (∀ x i, file_item2index files !! x = Some i → i < size (file_index2item files)) →
  (∀ x y i, file_item2index files !! x = Some i → file_item2index files !! y = Some i → x = y) →
  (∀ r, r ∈ df → is_Some (file_item2index files !! i_item r)) →
  index_covers self' df.
Proof.
  intros Hfile H Hlt Hinj Hcov. unfold load_file in H. rewrite Hfile in H. injection H as <-.
  exists (user_index_of (map i_user df)), (file_item2index files),
         (size (user_index_of (map i_user df))), (size (file_index2item files)).
  repeat (split; [done|]).
  assert (size (user_index_of (map i_user df)) = length (Pd.unique (map i_user df))) as ->.
  { unfold user_index_of. rewrite dict_size.
    - by rewrite length_map, length_enumerate.
    - rewrite user_index_keys. apply NoDup_unique. }
  split; [intros u m; apply user_index_lt|]. split; [done|].
  split; [intros u v m; apply user_index_inj|]. split; [done|].
  intros r Hr. split; [|by apply Hcov].
  destruct (user_index_is_Some (map i_user df) (i_user r)) as (m & Hm & _); [|by exists m].
  apply list_elem_of_fmap. by exists r.
Qed.

(** C2, as amended. For a model whose index covers the table (as after the
    first block of [fit] when it builds the index with [set_index], or
    restores one that fits the table), for every threshold and every item
    of the index: [fit] reaches its call of [compute_coocurrence_matrix]
    (the working frame, the normalisation step and the affinity matrix are
    all produced); the diagonal entry of the co-occurrence counts of the
    frame it passes, before the threshold is applied, is the number of
    distinct users who interacted with the item; and every cell of the
    matrix the call returns is 0 where the count is below the threshold and
    the count itself otherwise. *)
Theorem cooccurrence_diagonal_and_threshold (exponential_decay : Z → Z → Z → float)
    (self : SAR) (df : list interaction) :
  index_covers self df →
  ∃ self1 temp1 self2 temp_df affinity ix nu x2i C,
    fit_temp_df exponential_decay self df = Ok (self1, temp1) ∧
    fit_unity exponential_decay self1 temp1 = Ok (self2, temp_df) ∧
    compute_affinity_matrix self2 temp_df col_rating = Ok affinity ∧
    coordinates temp_df = Ok ix ∧
    n_users self2 = Some nu ∧ item2index self2 = Some x2i ∧
    compute_coocurrence_matrix (set_user_affinity (Some affinity) self2) temp_df = Ok C ∧
    (∀ item i, x2i !! item = Some i →
       item_cooccurrence nu ix i i
       = Z.of_nat (size (list_to_set (map i_user (filter (λ r, i_item r = item) df))
                         : gset string))) ∧
    (∀ i j, cell C i j
            = F64.of_Z (let c := item_cooccurrence nu ix i j in
                        if (c <? threshold self)%Z then 0%Z else c)).
Proof.
  intros (u2i & x2i & nu & ni & Hu & Hx & Hnu & Hni & Hult & Hxlt & Huinj & Hxinj & Hcov).
  destruct (fit_temp_df_indexed exponential_decay _ df _ _ Hx Hu)
    as (self1 & temp1 & Hfit & Hnu1 & Hni1 & Hth1 & Hx1 & Hfl1 & _ & Hnd1 & Hel1 & Hidx1 & Hts1).
  rewrite Hnu in Hnu1. rewrite Hni in Hni1.
  assert (∀ k, k ∈ map i_key df →
            ∃ n m, u2i !! k.1 = Some n ∧ x2i !! k.2 = Some m ∧ n < nu ∧ m < ni) as Hin.
  { intros k Hk. apply list_elem_of_fmap in Hk as (r0 & -> & Hr0).
    destruct (Hcov r0 Hr0) as [[n Hn] [m Hm]].
    exists n, m. repeat split; [done|done|by eapply Hult|by eapply Hxlt]. }
  assert (Forall (row_indexed u2i x2i) temp1) as Hrows1.
  { apply Forall_forall. intros r Hr.
    destruct (Hin (t_key r)) as (n & m & Hn & Hm & _).
    { apply Hel1. apply list_elem_of_fmap. by exists r. }
    pose proof (proj1 (Forall_forall _ _) Hidx1 r Hr) as [Hui Hii].
    exists n, m. rewrite Hui, Hii. unfold index_cell. simpl in Hn, Hm. by rewrite Hn, Hm. }
  destruct (fit_unity_indexed exponential_decay self1 temp1 u2i x2i nu ni Hnu1 Hni1)
    as (self2 & temp_df & Hunity & Hnu2 & Hni2 & Hth2 & Hx2 & Hnd & Hel2 & Hrows);
    [exact Hult|exact Hxlt|done|done| |].
  { intros Hflag. apply Hts1. by rewrite <- Hfl1. }
  rewrite Hnu1 in Hnu2. rewrite Hni1 in Hni2. rewrite Hth1 in Hth2. rewrite Hx1 in Hx2.
  assert (∀ k, k ∈ map t_key temp_df ↔ k ∈ map i_key df) as Hel
    by (intros k; by rewrite Hel2, Hel1).
  pose proof (compute_affinity_matrix_indexed self2 temp_df col_rating u2i x2i nu ni Hnu2 Hni2) as Haff.
  destruct (compute_affinity_matrix self2 temp_df col_rating) as [affinity|e] eqn:Haffinity.
  2:{ exfalso. enough (false = true) by done. apply Haff; try done.
      }
  clear Haff.
  set (U := λ u : string, default 0%nat (u2i !! u)).
  set (I := λ x : string, default 0%nat (x2i !! x)).
  assert (coordinates temp_df = Ok (map (λ r, (U (t_user r), I (t_item r))) temp_df)) as Hcoord.
  { apply coordinates_indexed. eapply Forall_impl; [exact Hrows|].
    intros r (n & m & Hn & Hm & -> & ->). unfold U, I. by rewrite Hn, Hm. }
  set (ix := map (λ r, (U (t_user r), I (t_item r))) temp_df) in *.
  assert (∀ r, r ∈ temp_df →
            ∃ n m, u2i !! t_user r = Some n ∧ x2i !! t_item r = Some m ∧ n < nu ∧ m < ni) as Hin'.
  { intros r Hr. apply (Hin (t_key r)). apply Hel. apply list_elem_of_fmap. by exists r. }
  assert (Forall (λ p : nat * nat, p.1 < nu ∧ p.2 < ni) ix) as Hrange.
  { apply Forall_forall. intros p Hp. apply list_elem_of_fmap in Hp as (r & -> & Hr).
    destruct (Hin' r Hr) as (n & m & Hn & Hm & ? & ?). unfold U, I. by rewrite Hn, Hm. }
  assert (NoDup ix) as Hndix.
  { subst ix.
    assert (map (λ r, (U (t_user r), I (t_item r))) temp_df
            = (λ k : string * string, (U k.1, I k.2)) <$> (map t_key temp_df)) as ->
      by (rewrite <- list_fmap_compose; done).
    apply NoDup_fmap_2_strong; [|done].
    intros [u1 i1] [u2 i2] H1 H2 [= HU HI].
    apply list_elem_of_fmap in H1 as (r1 & [= -> ->] & Hr1).
    apply list_elem_of_fmap in H2 as (r2 & [= -> ->] & Hr2).
    destruct (Hin' r1 Hr1) as (n1 & m1 & Hn1 & Hm1 & _).
    destruct (Hin' r2 Hr2) as (n2 & m2 & Hn2 & Hm2 & _).
    unfold U, I in HU, HI. rewrite Hn1, Hn2 in HU. rewrite Hm1, Hm2 in HI. simpl in *. subst.
    f_equal; [by eapply Huinj|by eapply Hxinj]. }
  eexists self1, temp1, self2, temp_df, affinity, ix, nu, x2i, _.
  split; [exact Hfit|]. split; [exact Hunity|]. split; [done|].
  split; [exact Hcoord|]. split; [exact Hnu2|]. split; [exact Hx2|].
  split.
  { unfold compute_coocurrence_matrix. rewrite Hcoord. simpl. rewrite Hnu2, Hni2. simpl.
    rewrite (proj2 (forallb_forall _ _)); [reflexivity|].
    intros p Hp. apply bool_decide_eq_true. apply list_elem_of_In in Hp.
    exact (proj1 (Forall_forall _ _) Hrange p Hp). }
  split.
  - intros item i Hitem.
    rewrite item_cooccurrence_diagonal; [|done|].
    2:{ eapply Forall_impl; [exact Hrange|]. by intros p [? _]. }
    f_equal. subst ix. rewrite filter_fmap_length. simpl.
    rewrite (filter_ext_in _ (λ r, t_item r = item)).
    2:{ intros r Hr. destruct (Hin' r Hr) as (n & m & Hn & Hm & _).
        unfold I. rewrite Hm. simpl. split.
        - intros Heq. subst m. by eapply Hxinj.
        - intros Heq. rewrite Heq in Hm. rewrite Hm in Hitem. by injection Hitem. }
    rewrite <- (length_map t_user).
    rewrite <- (size_list_to_set (C := gset string)).
    + f_equal. apply set_eq. intros u. rewrite !elem_of_list_to_set.
      rewrite !list_elem_of_fmap. split.
      * intros (r & -> & Hr). apply list_elem_of_filter in Hr as [Hi Hr].
        assert (t_key r ∈ map t_key temp_df) as Hk by (apply list_elem_of_fmap; by exists r).
        apply Hel in Hk. apply list_elem_of_fmap in Hk as (r0 & [= Hku Hki] & Hr0).
        exists r0. split; [done|]. apply list_elem_of_filter. split; [congruence|done].
      * intros (r0 & -> & Hr0). apply list_elem_of_filter in Hr0 as [Hi Hr0].
        assert (i_key r0 ∈ map t_key temp_df) as Hk.
        { apply Hel. apply list_elem_of_fmap. by exists r0. }
        apply list_elem_of_fmap in Hk as (r & [= Hku Hki] & Hr).
        exists r. split; [done|]. apply list_elem_of_filter. split; [congruence|done].
    + assert (map t_user (filter (λ r, t_item r = item) temp_df)
              = fst <$> filter (λ k : string * string, k.2 = item) (map t_key temp_df)) as ->.
      { clear. induction temp_df as [|r l IH]; [done|]. simpl. rewrite !filter_cons. simpl.
        case_decide; simpl; by rewrite IH. }
      apply NoDup_fmap_2_strong; [|by apply NoDup_filter].
      intros [u1 i1] [u2 i2] H1 H2. simpl. intros ->.
      apply list_elem_of_filter in H1 as [H1 _]. apply list_elem_of_filter in H2 as [H2 _].
      simpl in *. by subst.
  - intros i j. simpl. by rewrite threshold_mask_spec, Hth2.
Qed.

(** The index restored from the demo directory covers the scenario. *)
Lemma restored_model_covers : index_covers restored_model scenario.
Proof.
  exists (user_index_of (map i_user scenario)), (user_index_of ["x"; "y"; "z"]), 3, 3.
  split; [reflexivity|]. split; [reflexivity|]. split; [reflexivity|]. split; [reflexivity|].
  split; [intros u n; apply (user_index_lt (map i_user scenario))|].
  split; [intros x i; apply (user_index_lt ["x"; "y"; "z"])|].
  split; [intros u v n; apply user_index_inj|]. split; [intros x y i; apply user_index_inj|].
  intros r Hr. split.
  - destruct (user_index_is_Some (map i_user scenario) (i_user r)) as (n & Hn & _); [|by exists n].
    apply list_elem_of_fmap. by exists r.
  - destruct (user_index_is_Some ["x"; "y"; "z"] (i_item r)) as (n & Hn & _); [|by exists n].
    repeat (apply elem_of_cons in Hr as [->|Hr]; [set_solver|]). by apply not_elem_of_nil in Hr.
Defined.

(** C2 as amended, at the scenario with the index restored from the demo
    directory. *)
Lemma cooccurrence_diagonal_and_threshold_witness :
  index_covers restored_model scenario ∧
  ∃ self1 temp1 self2 temp_df affinity ix nu x2i C,
    fit_temp_df half_life_decay restored_model scenario = Ok (self1, temp1) ∧
    fit_unity half_life_decay self1 temp1 = Ok (self2, temp_df) ∧
    compute_affinity_matrix self2 temp_df col_rating = Ok affinity ∧
    coordinates temp_df = Ok ix ∧
    n_users self2 = Some nu ∧ item2index self2 = Some x2i ∧
    compute_coocurrence_matrix (set_user_affinity (Some affinity) self2) temp_df = Ok C ∧
    (∀ item i, x2i !! item = Some i →
       item_cooccurrence nu ix i i
       = Z.of_nat (size (list_to_set (map i_user (filter (λ r, i_item r = item) scenario))
                         : gset string))) ∧
    (∀ i j, cell C i j
            = F64.of_Z (let c := item_cooccurrence nu ix i j in
                        if (c <? threshold restored_model)%Z then 0%Z else c)).
Proof.
  split; [exact restored_model_covers|].
  apply (cooccurrence_diagonal_and_threshold half_life_decay restored_model scenario).
  exact restored_model_covers.
Defined.

(** C2, as stated, fails: [fit] restores an index written for the items x
    and y and is given a table that also has item z, with time decay and
    normalisation on. The index cell of z is NaN, the second aggregation
    sums it to 0, the index of x, and [fit] returns: the frame holds the
    coordinate (1, 0) twice, the diagonal count of x is 5 and the item
    frequencies are 5 and 2, while two distinct users interacted with x. *)
Lemma cooccurrence_diagonal_stale_index :
  is_ok stale_fit = true ∧
  (item2index (model_of stale_fit) ≫= λ x2i, x2i !! "x") = Some 0 ∧
  item_frequencies (model_of stale_fit) = Some [F64.of_Z 5; F64.of_Z 2] ∧
  (let ix := coordinates_of
               (let! (self1, temp1) := fit_temp_df half_life_decay stale_model scenario in
                fit_unity half_life_decay self1 temp1) in
   ix = [(0, 0); (0, 1); (1, 0); (1, 0); (2, 1)] ∧
   item_cooccurrence 3 ix 0 0 = 5%Z) ∧
  size (list_to_set (map i_user (filter (λ r, i_item r = "x") scenario)) : gset string) = 2.
Proof. repeat split; vm_compute; reflexivity. Qed.

(** ** Cold start *)

Lemma put_pairs_cell (a a' : ndarray) (ix : list (nat * nat)) (v : float) :
  Np.put_pairs a ix v = Ok a' →
  ∀ r c, cell a' r c = if decide ((r, c) ∈ ix) then v else cell a r c.
Proof.
  revert a. induction ix as [|[r0 c0] ix IH]; intros a H r c; simpl in H.
  - injection H as <-. rewrite decide_False; [done|]. apply not_elem_of_nil.
  - case_decide as Hb; [|done]. rewrite (IH _ H). simpl.
    destruct (decide ((r, c) ∈ ix)) as [Hin|Hnin].
    + rewrite decide_True; [done|]. by apply list_elem_of_further.
    + destruct (decide (r = r0 ∧ c = c0)) as [[-> ->]|Hne].
      * rewrite decide_True; [done|]. apply list_elem_of_here.
      * rewrite decide_False; [done|]. rewrite elem_of_cons. intros [[= -> ->]|?]; tauto.
Qed.

Lemma seed_scores_masks (self : SAR) (items : seeds) (x2i : gmap string nat)
    (users : list (option string)) (masked : ndarray) :
  item2index self = Some x2i →
  seed_scores self items = Ok (users, masked) →
  ∀ r g x i,
    users !! r = Some g → (g, x) ∈ seed_pairs items → x2i !! x = Some i →
    cell masked r i = F64.neg_inf.
Proof.
  intros Hx H r g x i Hr Hseed Hi. unfold seed_scores in H.
  rewrite Hx in H. simpl in H.
  destruct (s_users items) as [us|] eqn:Hus.
  - apply bind_Ok in H as (ids & Hids & H).
    apply bind_Ok in H as (ni & _ & H).
    apply bind_Ok in H as (pa & _ & H).
    apply bind_Ok in H as (sim & _ & H).
    apply bind_Ok in H as (ts & _ & H).
    apply bind_Ok in H as (ts' & Hput & H). injection H as <- <-.
    rewrite (put_pairs_cell _ _ _ _ Hput). rewrite decide_True; [done|].
    unfold seed_pairs in Hseed. rewrite Hus in Hseed.
    apply list_elem_of_lookup in Hseed as [n Hn].
    apply lookup_zip_with_Some in Hn as (g' & x' & [= <- <-] & Hg & Hxn).
    apply list_lookup_fmap_Some in Hg as (u & -> & Hu).
    rewrite unique_fmap_inj in Hr by apply _.
    apply list_lookup_fmap_Some in Hr as (u' & [= ->] & Hu').
    apply user_index_lookup in Hu'.
    apply list_elem_of_lookup. exists n. apply lookup_zip_with_Some.
    exists r, i. split; [done|]. split.
    + fmapify. rewrite list_lookup_fmap, Hu. simpl. by rewrite Hu'.
    + pose proof (traverse_Ok_lookup _ _ _ Hids n) as Hn.
      fmapify_in Hn. rewrite list_lookup_fmap, Hxn in Hn. simpl in Hn.
      destruct (ids !! n) as [y|]; [|done].
      unfold index_cell in Hn. rewrite Hi in Hn. simpl in Hn. by injection Hn as ->.
  - apply bind_Ok in H as (ids & Hids & H).
    apply bind_Ok in H as (ni & _ & H).
    apply bind_Ok in H as (pa & _ & H).
    apply bind_Ok in H as (sim & _ & H).
    apply bind_Ok in H as (ts & _ & H).
    apply bind_Ok in H as (ts' & Hput & H). injection H as <- <-.
    rewrite (put_pairs_cell _ _ _ _ Hput). rewrite decide_True; [done|].
    unfold seed_pairs in Hseed. rewrite Hus in Hseed.
    apply list_elem_of_fmap in Hseed as (x' & [= -> <-] & Hxin).
    apply list_elem_of_lookup in Hxin as [n Hxn].
    rewrite unique_constant in Hr.
    assert (r = 0) as ->.
    { destruct (map _ _); [done|]. destruct r; [done|]. done. }
    apply list_elem_of_lookup. exists n. apply lookup_zip_with_Some.
    exists 0, i. split; [done|]. split.
    + fmapify. rewrite !list_lookup_fmap, Hxn. done.
    + pose proof (traverse_Ok_lookup _ _ _ Hids n) as Hn.
      fmapify_in Hn. rewrite list_lookup_fmap, Hxn in Hn. simpl in Hn.
      destruct (ids !! n) as [y|]; [|done].
      unfold index_cell in Hn. rewrite Hi in Hn. simpl in Hn. by injection Hn as ->.
Qed.

Lemma result_table_rows (self : SAR) (i2x : gmap nat string)
    (users : list (option string)) (top : list (list (nat * float)))
    (df : list prediction) (row : prediction) :
  index2item self = Some i2x →
  result_table self users top = Ok df → row ∈ df →
  ∃ r toprow i,
    users !! r = Some (p_user row) ∧ top !! r = Some toprow ∧
    (i, p_score row) ∈ toprow ∧ i2x !! i = Some (p_item row).
Proof.
  intros Hi2x H Hrow. unfold result_table in H. rewrite Hi2x in H. simpl in H.
  apply bind_Ok in H as (rows & Hrows & H). case_decide; [|done]. injection H as <-.
  apply elem_of_concat in Hrow as (rowlist & Hrow & Hrl).
  apply list_elem_of_lookup in Hrl as [r Hr].
  pose proof (traverse_Ok_lookup _ _ _ Hrows r) as Hn. rewrite Hr in Hn.
  destruct (zip users top !! r) as [[g toprow]|] eqn:Hz; [|done].
  apply lookup_zip_with_Some in Hz as (g' & t' & [= <- <-] & Hg & Ht).
  simpl in Hn.
  apply list_elem_of_lookup in Hrow as [m Hm].
  pose proof (traverse_Ok_lookup _ _ _ Hn m) as Hp. rewrite Hm in Hp.
  destruct (toprow !! m) as [[i v]|] eqn:Htm; [|done]. simpl in Hp.
  destruct (i2x !! i) as [item|] eqn:Hitem; [|done]. injection Hp as <-. simpl.
  exists r, toprow, i. repeat split; try done.
  apply list_elem_of_lookup. by exists m.
Qed.

(** C8, as amended. For every cold-start call that returns a table: the
    score of every seed (grouping user, item) pair was set to -inf before
    the top-K selection; every row of the table has a score that is neither
    -inf nor NaN; and no seed item appears in the table under its own
    grouping key. (A row whose score is +inf is kept.) The selector is any
    function that returns, with each item, the score cell of that item; the
    index2item and item2index maps are inverse, as [set_index] builds them. *)
Theorem get_item_based_topk_excludes_seeds
    (topk : ndarray → nat → bool → list (list (nat * float)))
    (self : SAR) (items : seeds) (top_k : nat) (sort_top_k : bool)
    (x2i : gmap string nat) (i2x : gmap nat string) (table : list prediction) :
  selects_cells topk →
  item2index self = Some x2i → index2item self = Some i2x →
  (∀ i x, i2x !! i = Some x → x2i !! x = Some i) →
  get_item_based_topk topk self items top_k sort_top_k = Ok table →
  ∃ users masked,
    seed_scores self items = Ok (users, masked) ∧
    (∀ r g x i, users !! r = Some g → (g, x) ∈ seed_pairs items → x2i !! x = Some i →
                cell masked r i = F64.neg_inf) ∧
    (∀ row, row ∈ table → p_score row ≠ F64.neg_inf ∧ F64.isnan (p_score row) = false) ∧
    (∀ row, row ∈ table → (p_user row, p_item row) ∉ seed_pairs items).
Proof.
  intros Htop Hx Hi Hinv H. unfold get_item_based_topk in H.
  apply bind_Ok in H as ([users masked] & Hseed & H).
  apply bind_Ok in H as (df & Hdf & H). injection H as <-.
  exists users, masked. split; [done|].
  pose proof (seed_scores_masks _ _ _ _ _ Hx Hseed) as Hmask.
  split; [exact Hmask|]. split.
  - intros row Hrow. unfold replace_dropna in Hrow.
    by apply list_elem_of_filter in Hrow as [? _].
  - intros row Hrow Hin. unfold replace_dropna in Hrow.
    apply list_elem_of_filter in Hrow as [[Hne _] Hrow].
    destruct (result_table_rows _ _ _ _ _ _ Hi Hdf Hrow) as (r & toprow & i & Hr & Ht & Hiv & Hitem).
    apply Hne. rewrite (Htop _ _ _ _ _ _ _ Ht Hiv).
    eapply Hmask; [exact Hr|exact Hin|]. by apply Hinv.
Qed.

Lemma top_k_sorted_selects_cells : selects_cells top_k_sorted.
Proof.
  intros scores k sort r row i v Hr Hin. unfold top_k_sorted in Hr.
  fmapify_in Hr. apply list_lookup_fmap_Some in Hr as (r' & -> & Hr').
  apply lookup_seq in Hr' as [-> _].
  apply list_elem_of_fmap in Hin as (i' & [= -> ->] & _). done.
Qed.

(** C8, as stated, fails on its middle clause: on the scenario fitted with
    raw co-occurrence, the seeds y and z with the finite rating 1e308 each
    give item x the score 1e308 + 1e308, which overflows to +inf; the row is
    not finite and is returned. *)
Lemma get_item_based_topk_keeps_pos_inf :
  get_item_based_topk top_k_sorted cooccur_model seeds_huge 3 true
  = Ok [mk_prediction None "x" F64.inf] ∧
  F64.isfinite F64.inf = false.
Proof. split; vm_compute; reflexivity. Qed.

(** C8 as amended, at the scenario model with two seed sets. *)
Lemma get_item_based_topk_excludes_seeds_witness :
  ∃ users masked,
    seed_scores scenario_model seeds_by_user = Ok (users, masked) ∧
    (∀ r g x i, users !! r = Some g → (g, x) ∈ seed_pairs seeds_by_user →
                Pd.dict (map (λ kv : nat * string, (kv.2, kv.1))
                           (Pd.enumerate ["x"; "y"; "z"])) !! x = Some i →
                cell masked r i = F64.neg_inf) ∧
    (∀ row, row ∈ seeds_by_user_table → p_score row ≠ F64.neg_inf ∧ F64.isnan (p_score row) = false) ∧
    (∀ row, row ∈ seeds_by_user_table → (p_user row, p_item row) ∉ seed_pairs seeds_by_user).
Proof.
  apply (get_item_based_topk_excludes_seeds top_k_sorted scenario_model seeds_by_user 2 true
           _ (Pd.dict (Pd.enumerate ["x"; "y"; "z"])) seeds_by_user_table).
  - exact top_k_sorted_selects_cells.
  - vm_compute. reflexivity.
  - vm_compute. reflexivity.
  - intros i x. apply enumerate_index_inverse. by repeat constructor; set_solver.
  - vm_compute. reflexivity.
Defined.

(** ** Symmetry *)

Lemma jaccard_symmetric (c : ndarray) : Np.symmetric c → Np.symmetric (jaccard c).
Proof.
  intros [Hsq Hsym]. split; [done|]. intros i j Hi Hj. simpl in *.
  rewrite (Hsym i j) by done. by rewrite (F64_add_comm (cell c i i)).
Qed.

Lemma lift_symmetric (c : ndarray) : Np.symmetric c → Np.symmetric (lift c).
Proof.
  intros [Hsq Hsym]. split; [done|]. intros i j Hi Hj. simpl in *.
  rewrite (Hsym i j) by done. by rewrite (F64_mul_comm (cell c i i)).
Qed.

Lemma scale_symmetric (w : float) (a : ndarray) : Np.symmetric a → Np.symmetric (Np.scale w a).
Proof.
  intros [Hsq Hsym]. split; [done|]. intros i j Hi Hj. simpl in *. by rewrite Hsym.
Qed.

Lemma scale16_symmetric (w : float) (a : ndarray) : Np.symmetric a → Np.symmetric (scale16 w a).
Proof.
  intros [Hsq Hsym]. split; [done|]. intros i j Hi Hj. simpl in *. by rewrite Hsym.
Qed.

Lemma iadd_symmetric (a b c : ndarray) :
  Np.symmetric a → Np.symmetric b → Np.iadd a b = Ok c → Np.symmetric c.
Proof.
  intros [Hsa Ha] [Hsb Hb]. unfold Np.iadd. case_decide as Hshape; [|done].
  intros [= <-]. split; [done|]. simpl. intros i j Hi Hj.
  rewrite (Ha i j) by done. f_equal.
  destruct (decide (nrows b = nrows a)) as [Hr|Hr].
  - rewrite !decide_True by congruence. apply Hb; congruence.
  - rewrite !decide_False by congruence. done.
Qed.

Lemma zeros_symmetric (n : nat) : Np.symmetric (Np.zeros n n).
Proof. by split. Qed.

Lemma compute_coocurrence_matrix_symmetric (self : SAR) (df : list trow) (c : ndarray) :
  compute_coocurrence_matrix self df = Ok c → Np.symmetric c.
Proof.
  unfold compute_coocurrence_matrix. intros H.
  apply bind_Ok in H as (ix & _ & H). apply bind_Ok in H as (nu & _ & H).
  apply bind_Ok in H as (ni & _ & H). destruct (forallb _ _); [|done].
  injection H as <-. split; [done|]. intros i j _ _. simpl.
  by rewrite item_cooccurrence_sym.
Qed.

Section SimMatrix.
Context {FV : Type}.
Variables (self : SAR) (x2i : gmap string nat) (col_sim : string) (f : FV → FV → float).
Hypothesis Hx2i : item2index self = Some x2i.

Let idx (p : feature_row FV) : nat := default 0 (x2i !! f_itemid p).
Let value (p : feature_row FV * feature_row FV) : float :=
  F64.round16 (f (f_value p.1 col_sim) (f_value p.2 col_sim)).

Lemma sim_fold_cells (W : list (feature_row FV * feature_row FV)) (M0 M : ndarray) :
  foldl (sim_write self col_sim f) (Ok M0) W = Ok M →
  nrows M = nrows M0 ∧ ncols M = ncols M0 ∧
  ∀ a b, cell M a b =
    match last (filter (λ p, idx p.1 = a ∧ idx p.2 = b) W) with
    | Some p => value p
    | None => cell M0 a b
    end.
Proof.
  revert M. induction W as [|p W IH] using rev_ind; intros M H.
  - injection H as <-. done.
  - rewrite foldl_app in H. simpl in H. unfold sim_write at 1 in H.
    apply bind_Ok in H as (M1 & HM1 & H). rewrite Hx2i in H. simpl in H.
    apply bind_Ok in H as (i1 & Hi1 & H). apply bind_Ok in H as (i2 & Hi2 & H).
    unfold lookup_key in Hi1, Hi2.
    destruct (x2i !! f_itemid p.1) as [n1|] eqn:E1; [|done]. injection Hi1 as <-.
    destruct (x2i !! f_itemid p.2) as [n2|] eqn:E2; [|done]. injection Hi2 as <-.
    unfold Np.set_cell in H. case_decide; [|done]. injection H as <-.
    destruct (IH _ HM1) as (Hr & Hc & Hcell). simpl.
    split; [done|]. split; [done|]. intros a b.
    rewrite filter_app, last_app', filter_cons, filter_nil.
    assert (idx p.1 = n1) as Hn1 by (unfold idx; by rewrite E1).
    assert (idx p.2 = n2) as Hn2 by (unfold idx; by rewrite E2).
    destruct (decide (a = n1 ∧ b = n2)) as [[-> ->]|Hne].
    + rewrite decide_True by done. done.
    + rewrite decide_False by (rewrite Hn1, Hn2; intros [<- <-]; tauto).
      simpl. apply Hcell.
Qed.

Lemma make_sim_matrix_symmetric (features : list (feature_row FV))
    (uninit : nat → nat → float) (M : ndarray) :
  (∀ a b, f a b = f b a) →
  (∀ a, a < length features → ∃ p, p ∈ features ∧ x2i !! f_itemid p = Some a) →
  make_sim_matrix self features col_sim f uninit = Ok M →
  Np.symmetric M.
Proof.
  intros Hf Hcover HM. unfold make_sim_matrix in HM.
  destruct (sim_fold_cells _ _ _ HM) as (Hr & Hc & Hcell). simpl in *.
  split; [congruence|]. intros a b Ha Hb. rewrite Hr in Ha, Hb.
  rewrite !Hcell, !filter_list_prod_key, !last_list_prod.
  assert (∀ a, a < length features → is_Some (last (filter (λ p, idx p = a) features))) as Hlast.
  { intros c Hc'. destruct (Hcover c Hc') as (p & Hp & Hpc).
    destruct (last _) eqn:E; [by eexists|]. apply last_None in E.
    exfalso. eapply (filter_nil_not_elem_of _ _ p E); [|done].
    unfold idx. by rewrite Hpc. }
  destruct (Hlast a Ha) as [pa ->]. destruct (Hlast b Hb) as [pb ->].
  unfold value. simpl. by rewrite Hf.
Qed.
End SimMatrix.

Lemma compute_feature_sim_matrix_symmetric {FV} (self : SAR) (x2i : gmap string nat)
    (cw : col_weights FV) (features : list (feature_row FV))
    (uninit : string → nat → nat → float) (M : ndarray) :
  item2index self = Some x2i →
  (∀ col w f, (col, (w, f)) ∈ cw_features cw → ∀ a b, f a b = f b a) →
  (∀ a, a < length features → ∃ p, p ∈ features ∧ x2i !! f_itemid p = Some a) →
  compute_feature_sim_matrix self cw features uninit = Ok M →
  Np.symmetric M.
Proof.
  intros Hx Hf Hcover. unfold compute_feature_sim_matrix.
  revert M. induction (cw_features cw) as [|[col [w f]] cols IH] using rev_ind; intros M H.
  - injection H as <-. apply zeros_symmetric.
  - rewrite foldl_app in H. simpl in H.
    apply bind_Ok in H as (M1 & HM1 & H).
    assert (Np.symmetric M1) as Hsym1.
    { apply IH; [|done]. intros col' w' f' Hin. apply (Hf col' w' f').
      apply elem_of_app. by left. }
    case_decide; [by injection H as <-|].
    apply bind_Ok in H as (sim & Hsim & H).
    eapply iadd_symmetric; [exact Hsym1| |exact H].
    apply scale16_symmetric.
    eapply make_sim_matrix_symmetric; [exact Hx| |exact Hcover|exact Hsim].
    apply (Hf col w f). apply elem_of_app. right. apply list_elem_of_here.
Qed.

Lemma same_catalogue_refl self : same_catalogue self self.
Proof. done. Qed.

Lemma same_catalogue_trans s1 s2 s3 :
  same_catalogue s1 s2 → same_catalogue s2 s3 → same_catalogue s1 s3.
Proof. intros (? & ? & ?) (? & ? & ?). repeat split; congruence. Qed.

Lemma compute_time_decay_same (decay : Z → Z → Z → float) self df c self' df' :
  compute_time_decay decay self df c = Ok (self', df') → same_catalogue self self'.
Proof.
  unfold compute_time_decay. intros H.
  apply bind_Ok in H as (ts & _ & H). apply bind_Ok in H as (df1 & _ & H).
  injection H as <- _. by destruct (time_now self).
Qed.

Lemma fit_temp_df_same (decay : Z → Z → Z → float) self df self' temp_df :
  fit_temp_df decay self df = Ok (self', temp_df) → same_catalogue self self'.
Proof.
  unfold fit_temp_df. intros H.
  apply bind_Ok in H as ([self1 df1] & H1 & H).
  apply bind_Ok in H as (x2i & _ & H). apply bind_Ok in H as (u2i & _ & H).
  injection H as <- _.
  destruct (time_decay_flag self).
  - by eapply compute_time_decay_same.
  - by injection H1 as <- _.
Qed.

Lemma fit_unity_same (decay : Z → Z → Z → float) self temp_df self' temp_df' :
  fit_unity decay self temp_df = Ok (self', temp_df') → same_catalogue self self'.
Proof.
  unfold fit_unity. intros H. destruct (normalize self); [|by injection H as <- _].
  apply bind_Ok in H as ([self1 df1] & H1 & H).
  apply bind_Ok in H as (unity & _ & H). injection H as <- _.
  assert (same_catalogue self self1) as Hs.
  { destruct (time_decay_flag self).
    - by eapply compute_time_decay_same.
    - by injection H1 as <- _. }
  destruct Hs as (? & ? & ?). by repeat split.
Qed.

Lemma fit_index_restored (self : SAR) (df : list interaction) (n : nat) (demo : bool)
    (d : disk) (self' : SAR) (path : string) :
  fit_index self df n demo d = Ok (self', (true, path)) →
  ∃ path' files, d !! (path', n) = Some files ∧
                 features_sim_matrix self' = Some (file_item_feature_similarity files).
Proof.
  unfold fit_index. intros H.
  destruct demo.
  - apply bind_Ok in H as (s & Hs & H). injection H as <- _.
    unfold load_file in Hs. destruct (d !! _) as [files|] eqn:E; [|done].
    injection Hs as <-. by eexists _, files.
  - destruct (bool_decide _) eqn:Hb.
    + apply bind_Ok in H as (s & Hs & H). injection H as <- _.
      unfold load_file in Hs. destruct (d !! _) as [files|] eqn:E; [|done].
      injection Hs as <-. by eexists _, files.
    + apply bind_Ok in H as (s & Hs & H). by injection H.
Qed.

(** Which branch [fit_index] takes: with [demo] off and no file for this
    catalogue size in the experiment directory, nothing is restored. *)
Lemma fit_index_load (self : SAR) (df : list interaction) (n : nat) (demo : bool)
    (d : disk) (self' : SAR) (load : bool) (path : string) :
  fit_index self df n demo d = Ok (self', (load, path)) →
  similarity_type self' = similarity_type self ∧
  (demo = false → d !! (DATA_DIR ++ "experiment/", n) = None → load = false).
Proof.
  unfold fit_index. intros H. destruct demo.
  - apply bind_Ok in H as (s & Hs & H). injection H as <- <- _.
    unfold load_file in Hs. destruct (d !! _); [|done]. injection Hs as <-. done.
  - destruct (bool_decide _) eqn:Hb.
    + apply bind_Ok in H as (s & Hs & H). injection H as <- <- _.
      unfold load_file in Hs. destruct (d !! _) as [files|] eqn:E; [|done].
      injection Hs as <-. split; [done|]. intros _ Hnone.
      apply bool_decide_eq_true in Hb. rewrite Hnone in Hb. by destruct Hb.
    + apply bind_Ok in H as (s & Hs & H). injection H as <- <- _.
      split; [|done]. destruct (index2item self); by injection Hs as <-.
Qed.

Lemma fit_similarity_symmetric {FV} (self : SAR) (c : ndarray)
    (features : list (feature_row FV)) (cw : col_weights FV) (load : bool) (path : string)
    (uninit : string → nat → nat → float) (d d' : disk) (m : SAR) :
  fit_similarity self c features cw load path uninit d = Ok (m, d') →
  Np.symmetric c →
  (∀ col w f, (col, (w, f)) ∈ cw_features cw → ∀ a b, f a b = f b a) →
  (similarity_type self = "custom" → load = false →
     ∃ x2i, item2index self = Some x2i ∧
            ∀ a, a < length features → ∃ p, p ∈ features ∧ x2i !! f_itemid p = Some a) →
  (similarity_type self = "custom" → load = true →
     ∃ fsm, features_sim_matrix self = Some fsm ∧ Np.symmetric fsm) →
  ∃ sim, item_similarity m = Some sim ∧ Np.symmetric sim.
Proof.
  intros H Hc Hf Hcover Hload. unfold fit_similarity in H.
  repeat case_decide.
  - injection H as <- _. by exists c.
  - injection H as <- _. eexists. split; [done|]. by apply jaccard_symmetric.
  - injection H as <- _. eexists. split; [done|]. by apply lift_symmetric.
  - match goal with H : similarity_type_is _ "custom" |- _ => destruct H as [_ Hty] end.
    apply bind_Ok in H as (w & Hw & H).
    apply bind_Ok in H as ([self1 d1] & Hblk & H).
    apply bind_Ok in H as (sim & Hsim & H). apply attr_Ok in Hsim.
    apply bind_Ok in H as (fsm & Hfsm & H). apply attr_Ok in Hfsm.
    apply bind_Ok in H as (sim' & Hadd & H). injection H as <- _.
    exists sim'. split; [done|].
    eapply iadd_symmetric; [| |exact Hadd].
    + destruct load.
      * injection Hblk as <- _. simpl in Hsim. injection Hsim as <-.
        by apply scale_symmetric, jaccard_symmetric.
      * apply bind_Ok in Hblk as (fsm' & _ & Hblk). apply bind_Ok in Hblk as (d2 & _ & Hblk).
        injection Hblk as <- _. simpl in Hsim. injection Hsim as <-.
        by apply scale_symmetric, jaccard_symmetric.
    + apply scale_symmetric. destruct load.
      * injection Hblk as <- _. simpl in Hfsm.
        destruct Hload as (fsm0 & Hfsm0 & Hsym0); [done|done|]. congruence.
      * apply bind_Ok in Hblk as (fsm' & Hcomp & Hblk). apply bind_Ok in Hblk as (d2 & _ & Hblk).
        injection Hblk as <- _. simpl in Hfsm. injection Hfsm as <-.
        destruct Hcover as (x2i & Hx & Hcover); [done|done|].
        eapply compute_feature_sim_matrix_symmetric; [|exact Hf|exact Hcover|exact Hcomp].
        done.
  - done.
Qed.

(** C9, as amended. For every model [fit] returns: every matrix
    [compute_coocurrence_matrix] returns is symmetric, and the item
    similarity is symmetric in every similarity mode (raw, jaccard, lift,
    custom), provided every pairwise feature similarity function is
    symmetric and, in custom mode only: where [fit] computes the feature
    similarity matrix (nothing is restored from disk), the feature table has
    a row for every catalogue index below its length (the other cells of
    the [np.empty] buffer are never written); where [fit] restores the
    matrix from disk, the stored matrix is symmetric. *)
Theorem fit_matrices_symmetric {FV} (exponential_decay : Z → Z → Z → float)
    (self : SAR) (df : list interaction) (features : list (feature_row FV))
    (cw : col_weights FV) (demo : bool) (uninit : string → nat → nat → float)
    (d d' : disk) (m : SAR) :
  fit exponential_decay self df features cw demo uninit d = Ok (m, d') →
  (∀ col w f, (col, (w, f)) ∈ cw_features cw → ∀ a b, f a b = f b a) →
  (similarity_type self = "custom" → demo = false →
   d !! (DATA_DIR ++ "experiment/", length features) = None →
     ∃ x2i, item2index m = Some x2i ∧
            ∀ a, a < length features → ∃ p, p ∈ features ∧ x2i !! f_itemid p = Some a) →
  (similarity_type self = "custom" →
     ∀ path files, d !! (path, length features) = Some files →
                   Np.symmetric (file_item_feature_similarity files)) →
  (∀ s temp_df c, compute_coocurrence_matrix s temp_df = Ok c → Np.symmetric c) ∧
  ∃ sim, item_similarity m = Some sim ∧ Np.symmetric sim.
Proof.
  intros H Hf Hcover Hdisk.
  split; [intros s t c; apply compute_coocurrence_matrix_symmetric|].
  unfold fit in H.
  apply bind_Ok in H as ([self1 [load path]] & Hidx & H).
  apply bind_Ok in H as ([self2 temp_df] & Htemp & H).
  apply bind_Ok in H as ([self3 temp_df'] & Hunity & H).
  apply bind_Ok in H as (aff & _ & H).
  apply bind_Ok in H as (c & Hc & H).
  pose proof (fit_temp_df_same _ _ _ _ _ Htemp) as S12.
  pose proof (fit_unity_same _ _ _ _ _ Hunity) as S23.
  destruct (same_catalogue_trans _ _ _ S12 S23) as (Hx13 & Hf13 & Hty13).
  destruct (fit_index_load _ _ _ _ _ _ _ _ Hidx) as [Hty01 Hfresh].
  set (self5 := set_item_frequencies _ _) in H.
  assert (similarity_type self5 = similarity_type self) as Hty5.
  { subst self5. simpl. congruence. }
  assert (item2index m = item2index self5) as Hxm.
  { clear -H. unfold fit_similarity in H. repeat case_decide; try by injection H as <- _.
    - apply bind_Ok in H as (w & Hw & H).
      apply bind_Ok in H as ([self1 d1] & Hblk & H).
      apply bind_Ok in H as (sim & Hsim & H). apply bind_Ok in H as (fsm & Hfsm & H).
      apply bind_Ok in H as (sim' & Hadd & H). injection H as <- _. simpl.
      destruct load.
      + by injection Hblk as <- _.
      + apply bind_Ok in Hblk as (fsm' & _ & Hblk). apply bind_Ok in Hblk as (d2 & _ & Hblk).
        by injection Hblk as <- _.
    - done. }
  eapply (fit_similarity_symmetric self5); [exact H| |exact Hf| |].
  - by eapply compute_coocurrence_matrix_symmetric.
  - intros Hty ->. rewrite Hty5 in Hty. rewrite <- Hxm.
    destruct demo.
    + exfalso. clear -Hidx. unfold fit_index in Hidx.
      apply bind_Ok in Hidx as (s & _ & Hidx). by injection Hidx.
    + apply Hcover; [done|done|].
      destruct (d !! (DATA_DIR ++ "experiment/", length features)) as [files|] eqn:E; [|done].
      exfalso. clear -Hidx E. unfold fit_index in Hidx. rewrite E in Hidx.
      rewrite bool_decide_eq_true_2 in Hidx by done.
      apply bind_Ok in Hidx as (s & _ & Hidx). by injection Hidx.
  - intros Hty ->. rewrite Hty5 in Hty.
    destruct (fit_index_restored _ _ _ _ _ _ _ Hidx) as (path' & files & Hfile & Hfsm).
    exists (file_item_feature_similarity files). split; [|by eapply Hdisk].
    subst self5. simpl. by rewrite Hf13.
Qed.

Lemma same_value_symmetric (a b : string) : same_value a b = same_value b a.
Proof. unfold same_value. repeat case_decide; congruence. Qed.

(** C9 as amended, at the scenario fitted in custom mode with the cuisine
    table, which has one row per item. *)
Lemma fit_matrices_symmetric_witness :
  (∀ s temp_df c, compute_coocurrence_matrix s temp_df = Ok c → Np.symmetric c) ∧
  ∃ sim, item_similarity (model_of custom_fit) = Some sim ∧ Np.symmetric sim.
Proof.
  apply (fit_matrices_symmetric half_life_decay (unfitted "custom" false false) scenario
           cuisines cuisine_weights false zeroed ∅ (disk_of custom_fit) (model_of custom_fit)).
  - apply (is_ok_fit custom_fit). vm_compute. reflexivity.
  - intros col w f Hin a b. apply list_elem_of_singleton in Hin. injection Hin as _ _ ->.
    apply same_value_symmetric.
  - intros _ _ _. exists (user_index_of ["x"; "y"; "z"]). split; [vm_compute; reflexivity|].
    intros a Ha. destruct a as [|[|[|a]]]; [| | |simpl in Ha; lia].
    + exists (mk_feature_row "x" (λ _, "thai")). split; [set_solver|vm_compute; reflexivity].
    + exists (mk_feature_row "y" (λ _, "thai")). split; [set_solver|vm_compute; reflexivity].
    + exists (mk_feature_row "z" (λ _, "greek")). split; [set_solver|vm_compute; reflexivity].
  - intros _ path files Hfile. by rewrite lookup_empty in Hfile.
Defined.

(** C9, as stated, fails: the feature table names item x twice and item y
    never, the feature similarity function is symmetric, [fit] returns, and
    the item similarity differs across the diagonal: the cells (0,1) and
    (1,0) of the feature similarity matrix are what [np.empty] left
    there. *)
Lemma fit_custom_uncovered_asymmetric :
  (∀ col w f, (col, (w, f)) ∈ cw_features cuisine_weights → ∀ a b, f a b = f b a) ∧
  ∃ m d' sim,
    uncovered_fit = Ok (m, d') ∧ item_similarity m = Some sim ∧ ¬ Np.symmetric sim.
Proof.
  split.
  { intros col w f Hin a b. apply list_elem_of_singleton in Hin. injection Hin as _ _ ->.
    apply same_value_symmetric. }
  exists (model_of uncovered_fit), (disk_of uncovered_fit),
         (default (Np.zeros 0 0) (item_similarity (model_of uncovered_fit))).
  split; [apply is_ok_fit; vm_compute; reflexivity|].
  split; [apply option_default_Some; vm_compute; reflexivity|].
  intros [_ Hsym]. specialize (Hsym 0 1).
  assert (cell (default (Np.zeros 0 0) (item_similarity (model_of uncovered_fit))) 0 1
          ≠ cell (default (Np.zeros 0 0) (item_similarity (model_of uncovered_fit))) 1 0) as Hne
    by (vm_compute; discriminate).
  apply Hne, Hsym; vm_compute; lia.
Qed.

(** C9: likewise with a symmetric feature function and a feature
    similarity matrix on disk that is not symmetric. *)
Example fit_custom_restored_asymmetric :
  ∃ m d' sim,
    skewed_fit = Ok (m, d') ∧ item_similarity m = Some sim ∧ ¬ Np.symmetric sim.
Proof.
  exists (model_of skewed_fit), (disk_of skewed_fit),
         (default (Np.zeros 0 0) (item_similarity (model_of skewed_fit))).
  split; [apply is_ok_fit; vm_compute; reflexivity|].
  split; [apply option_default_Some; vm_compute; reflexivity|].
  intros [_ Hsym]. specialize (Hsym 0 1).
  assert (cell (default (Np.zeros 0 0) (item_similarity (model_of skewed_fit))) 0 1
          ≠ cell (default (Np.zeros 0 0) (item_similarity (model_of skewed_fit))) 1 0) as Hne
    by (vm_compute; discriminate).
  apply Hne, Hsym; vm_compute; lia.
Qed.

(** * Further properties *)

(** ** The index built by [set_index] *)

Lemma item_index_lookup (items : list string) (i : nat) (x : string) :
  Pd.dict (Pd.enumerate (Pd.unique items)) !! i = Some x ↔ Pd.unique items !! i = Some x.
Proof.
  rewrite dict_lookup; [apply elem_of_enumerate|].
  rewrite fst_enumerate. apply NoDup_seq'.
Qed.

Lemma set_index_item2index (self : SAR) (df : list interaction) :
  item2index (set_index self df) = Some (user_index_of (map i_item df)).
Proof. done. Qed.

(** X1. [set_index]: the two item maps are inverse to each other, so an item
    id survives the round trip through its index and back. *)
Theorem set_index_round_trip (self : SAR) (df : list interaction) :
  ∃ i2x x2i,
    index2item (set_index self df) = Some i2x ∧
    item2index (set_index self df) = Some x2i ∧
    (∀ i x, i2x !! i = Some x ↔ x2i !! x = Some i) ∧
    (∀ x, x ∈ map i_item df → ∃ i, x2i !! x = Some i ∧ i2x !! i = Some x).
Proof.
  eexists _, _. split; [reflexivity|]. split; [apply set_index_item2index|].
  split.
  - intros i x. by rewrite item_index_lookup, user_index_lookup.
  - intros x Hx. destruct (user_index_is_Some _ _ Hx) as (i & Hi & _).
    exists i. split; [done|]. apply item_index_lookup. by apply user_index_lookup.
Qed.

(** X2. [set_index]: users and items are numbered from 0 without gaps, in the
    order of their first appearance in the table; the two counts are the
    numbers of distinct users and items; ids outside the table have no
    index. *)
Theorem set_index_contiguous (self : SAR) (df : list interaction) :
  ∃ u2i x2i nu ni,
    user2index (set_index self df) = Some u2i ∧
    item2index (set_index self df) = Some x2i ∧
    n_users (set_index self df) = Some nu ∧
    n_items (set_index self df) = Some ni ∧
    nu = size (list_to_set (map i_user df) : gset string) ∧
    ni = size (list_to_set (map i_item df) : gset string) ∧
    (∀ u n, u2i !! u = Some n ↔ Pd.unique (map i_user df) !! n = Some u) ∧
    (∀ x i, x2i !! x = Some i ↔ Pd.unique (map i_item df) !! i = Some x) ∧
    (∀ n, n < nu ↔ ∃ u, u2i !! u = Some n) ∧
    (∀ i, i < ni ↔ ∃ x, x2i !! x = Some i) ∧
    (∀ u, is_Some (u2i !! u) ↔ u ∈ map i_user df) ∧
    (∀ x, is_Some (x2i !! x) ↔ x ∈ map i_item df).
Proof.
  destruct (set_index_fields self df) as (Hx & Hu & Hnu & Hni & _).
  eexists _, _, _, _. split; [exact Hu|]. split; [exact Hx|].
  split; [exact Hnu|]. split; [exact Hni|].
  split; [apply unique_length_distinct|]. split; [apply unique_length_distinct|].
  split; [intros u n; apply user_index_lookup|].
  split; [intros x i; apply user_index_lookup|].
  assert (∀ l : list string, ∀ n, n < length (Pd.unique l) ↔ ∃ u, user_index_of l !! u = Some n) as Hlt.
  { intros l n. split.
    - intros Hn. apply lookup_lt_is_Some in Hn as [u Hn]. exists u. by apply user_index_lookup.
    - intros [u Hn]. by eapply user_index_lt. }
  assert (∀ l : list string, ∀ u, is_Some (user_index_of l !! u) ↔ u ∈ l) as Hin.
  { intros l u. split.
    - intros [n Hn]. apply user_index_lookup in Hn. apply elem_of_unique.
      apply list_elem_of_lookup. by exists n.
    - intros Hu'. destruct (user_index_is_Some _ _ Hu') as (n & Hn & _). by exists n. }
  split; [apply Hlt|]. split; [apply Hlt|]. split; [apply Hin|apply Hin].
Qed.

(** ** What [fit] leaves of the index *)

Lemma same_index_refl (self : SAR) : same_index self self.
Proof. by repeat split. Qed.

Lemma same_index_trans (s1 s2 s3 : SAR) :
  same_index s1 s2 → same_index s2 s3 → same_index s1 s3.
Proof.
  intros (? & ? & ? & ? & ? & ? & ? & ? & ? & ? & ?) (? & ? & ? & ? & ? & ? & ? & ? & ? & ? & ?).
  repeat split; congruence.
Qed.

Lemma compute_time_decay_same_index (decay : Z → Z → Z → float) self df c self' df' :
  compute_time_decay decay self df c = Ok (self', df') → same_index self self'.
Proof.
  unfold compute_time_decay. intros H.
  apply bind_Ok in H as (ts & _ & H). apply bind_Ok in H as (df1 & _ & H).
  injection H as <- _. destruct (time_now self); by repeat split.
Qed.

Lemma fit_temp_df_same_index (decay : Z → Z → Z → float) self df self' temp_df :
  fit_temp_df decay self df = Ok (self', temp_df) → same_index self self'.
Proof.
  unfold fit_temp_df. intros H.
  apply bind_Ok in H as ([self1 df1] & H1 & H).
  apply bind_Ok in H as (x2i & _ & H). apply bind_Ok in H as (u2i & _ & H).
  injection H as <- _.
  destruct (time_decay_flag self).
  - by eapply compute_time_decay_same_index.
  - injection H1 as <- _. apply same_index_refl.
Qed.

Lemma fit_unity_same_index (decay : Z → Z → Z → float) self temp_df self' temp_df' :
  fit_unity decay self temp_df = Ok (self', temp_df') → same_index self self'.
Proof.
  unfold fit_unity. intros H.
  destruct (normalize self) eqn:Hn; [|injection H as <- _; apply same_index_refl].
  apply bind_Ok in H as ([self1 df1] & H1 & H).
  apply bind_Ok in H as (unity & _ & H). injection H as <- _.
  assert (same_index self self1) as Hs.
  { destruct (time_decay_flag self).
    - by eapply compute_time_decay_same_index.
    - injection H1 as <- _. apply same_index_refl. }
  destruct Hs as (? & ? & ? & ? & ? & ? & ? & ? & ? & ? & ?). by repeat split.
Qed.

(** [fit], last block: it returns only for a similarity type that is one
    of the module's literals. *)
Lemma fit_similarity_Ok_literal {FV} (self : SAR) (c : ndarray)
    (features : list (feature_row FV)) (cw : col_weights FV) (load : bool) (path : string)
    (uninit : string → nat → nat → float) (d : disk) (r : SAR * disk) :
  fit_similarity self c features cw load path uninit d = Ok r →
  similarity_is_literal self = true.
Proof.
  unfold fit_similarity. intros H.
  repeat case_decide; try done;
    match goal with H : similarity_type_is _ _ |- _ => by destruct H end.
Qed.

(** [fit], last block: only the item similarity and, in custom mode, the
    feature similarity matrix are assigned. *)
Lemma fit_similarity_keeps {FV} (self : SAR) (c : ndarray)
    (features : list (feature_row FV)) (cw : col_weights FV) (load : bool) (path : string)
    (uninit : string → nat → nat → float) (d d' : disk) (m : SAR) :
  fit_similarity self c features cw load path uninit d = Ok (m, d') →
  same_index self m ∧ user_affinity m = user_affinity self ∧
  unity_user_affinity m = unity_user_affinity self ∧
  item_frequencies m = item_frequencies self ∧ time_now m = time_now self.
Proof.
  unfold fit_similarity. intros H.
  repeat case_decide; try (injection H as <- _; by repeat split).
  - apply bind_Ok in H as (w & Hw & H).
    apply bind_Ok in H as ([self1 d1] & Hblk & H).
    apply bind_Ok in H as (sim & Hsim & H). apply bind_Ok in H as (fsm & Hfsm & H).
    apply bind_Ok in H as (sim' & Hadd & H). injection H as <- _.
    destruct load.
    + injection Hblk as <- _. by repeat split.
    + apply bind_Ok in Hblk as (fsm' & _ & Hblk). apply bind_Ok in Hblk as (d2 & _ & Hblk).
      injection Hblk as <- _. by repeat split.
  - done.
Qed.

(** [fit], first block, on a model without an index and with no files
    for this catalogue size: the index is built from the table. *)
Lemma fit_index_fresh (self : SAR) (df : list interaction) (n : nat) (d : disk) :
  index2item self = None → d !! (DATA_DIR ++ "experiment/", n) = None →
  fit_index self df n false d = Ok (set_index self df, (false, DATA_DIR ++ "experiment/")).
Proof.
  intros Hi Hd. unfold fit_index.
  rewrite bool_decide_eq_false_2 by (rewrite Hd; by intros [? ?]).
  by rewrite Hi.
Qed.

(** The frame [fit] hands to [compute_affinity_matrix] and
    [compute_coocurrence_matrix] when it has built the index itself. *)
Lemma fit_fresh_frame (decay : Z → Z → Z → float) (self : SAR) (df : list interaction) :
  let u2i := user_index_of (map i_user df) in
  let x2i := user_index_of (map i_item df) in
  ∃ self1 temp1 self2 temp_df affinity C,
    fit_temp_df decay (set_index self df) df = Ok (self1, temp1) ∧
    fit_unity decay self1 temp1 = Ok (self2, temp_df) ∧
    compute_affinity_matrix self2 temp_df col_rating = Ok affinity ∧
    compute_coocurrence_matrix (set_user_affinity (Some affinity) self2) temp_df = Ok C ∧
    same_index (set_index self df) self2 ∧
    NoDup (map t_key temp_df) ∧
    (∀ k, k ∈ map t_key temp_df ↔ k ∈ map i_key df) ∧
    Forall (row_indexed u2i x2i) temp_df.
Proof.
  intros u2i x2i.
  destruct (set_index_fields self df) as (Hx & Hu & Hnu & Hni & Hth).
  fold x2i in Hx. fold u2i in Hu.
  set (nu := length (Pd.unique (map i_user df))) in *.
  set (ni := length (Pd.unique (map i_item df))) in *.
  destruct (fit_temp_df_indexed decay _ df _ _ Hx Hu)
    as (self1 & temp1 & Hfit & Hnu1 & Hni1 & Hth1 & Hx1 & Hfl1 & _ & Hnd1 & Hel1 & Hidx1 & Hts1).
  rewrite Hnu in Hnu1. rewrite Hni in Hni1.
  assert (∀ k, k ∈ map i_key df →
            ∃ n m, u2i !! k.1 = Some n ∧ x2i !! k.2 = Some m ∧ n < nu ∧ m < ni) as Hin.
  { intros k Hk. apply list_elem_of_fmap in Hk as (r0 & -> & Hr0).
    destruct (user_index_is_Some (map i_user df) (i_user r0)) as (n & Hn & Hlt).
    { apply list_elem_of_fmap. by exists r0. }
    destruct (user_index_is_Some (map i_item df) (i_item r0)) as (m & Hm & Hlt').
    { apply list_elem_of_fmap. by exists r0. }
    by exists n, m. }
  assert (Forall (row_indexed u2i x2i) temp1) as Hrows1.
  { apply Forall_forall. intros r Hr.
    destruct (Hin (t_key r)) as (n & m & Hn & Hm & _).
    { apply Hel1. apply list_elem_of_fmap. by exists r. }
    pose proof (proj1 (Forall_forall _ _) Hidx1 r Hr) as [Hui Hii].
    exists n, m. rewrite Hui, Hii. unfold index_cell. simpl in Hn, Hm. by rewrite Hn, Hm. }
  destruct (fit_unity_indexed decay self1 temp1 u2i x2i nu ni Hnu1 Hni1)
    as (self2 & temp_df & Hunity & Hnu2 & Hni2 & Hth2 & Hx2 & Hnd & Hel2 & Hrows);
    [intros u n; apply user_index_lt|intros x m; apply user_index_lt|done|done| |].
  { intros Hflag. apply Hts1. by rewrite <- Hfl1. }
  rewrite Hnu1 in Hnu2. rewrite Hni1 in Hni2.
  assert (∀ k, k ∈ map t_key temp_df ↔ k ∈ map i_key df) as Hel
    by (intros k; by rewrite Hel2, Hel1).
  pose proof (compute_affinity_matrix_indexed self2 temp_df col_rating u2i x2i nu ni Hnu2 Hni2) as Haff.
  destruct (compute_affinity_matrix self2 temp_df col_rating) as [affinity|e] eqn:Haffinity.
  2:{ exfalso. enough (false = true) by done. apply Haff; try done.
      - intros u n. apply user_index_lt.
      - intros x m. apply user_index_lt. }
  clear Haff.
  set (U := λ r : trow, default 0 (u2i !! t_user r)).
  set (I := λ r : trow, default 0 (x2i !! t_item r)).
  assert (coordinates temp_df = Ok (map (λ r, (U r, I r)) temp_df)) as Hcoord.
  { apply coordinates_indexed. eapply Forall_impl; [exact Hrows|].
    intros r (n & m & Hn & Hm & -> & ->). unfold U, I. by rewrite Hn, Hm. }
  eexists self1, temp1, self2, temp_df, affinity, _.
  split; [exact Hfit|]. split; [exact Hunity|]. split; [done|].
  split.
  { unfold compute_coocurrence_matrix. rewrite Hcoord. simpl. rewrite Hnu2, Hni2. simpl.
    rewrite (proj2 (forallb_forall _ _)); [reflexivity|].
    intros p Hp. apply bool_decide_eq_true. apply list_elem_of_In in Hp.
    apply list_elem_of_fmap in Hp as (r & -> & Hr).
    destruct (Hin (t_key r)) as (n & m & Hn & Hm & ? & ?).
    { apply Hel. apply list_elem_of_fmap. by exists r. }
    unfold U, I. simpl in Hn, Hm. by rewrite Hn, Hm. }
  split.
  { eapply same_index_trans; [by eapply fit_temp_df_same_index|by eapply fit_unity_same_index]. }
  done.
Qed.

(** The co-occurrence counts of a frame with one row per (user, item)
    pair of the table, indexed by the index of [set_index]: the diagonal
    counts the distinct users of the item. *)
Lemma indexed_frame_diagonal (df : list interaction) (temp_df : list trow)
    (ix : list (nat * nat)) (item : string) (i : nat) :
  let u2i := user_index_of (map i_user df) in
  let x2i := user_index_of (map i_item df) in
  NoDup (map t_key temp_df) →
  (∀ k, k ∈ map t_key temp_df ↔ k ∈ map i_key df) →
  Forall (row_indexed u2i x2i) temp_df →
  coordinates temp_df = Ok ix →
  x2i !! item = Some i →
  item_cooccurrence (length (Pd.unique (map i_user df))) ix i i
  = Z.of_nat (size (list_to_set (map i_user (filter (λ r, i_item r = item) df)) : gset string)).
Proof.
  intros u2i x2i Hnd Hel Hrows Hix Hitem.
  set (U := λ u : string, default 0%nat (u2i !! u)).
  set (I := λ x : string, default 0%nat (x2i !! x)).
  assert (coordinates temp_df = Ok (map (λ r, (U (t_user r), I (t_item r))) temp_df)) as Hcoord.
  { apply coordinates_indexed. eapply Forall_impl; [exact Hrows|].
    intros r (n & m & Hn & Hm & -> & ->). unfold U, I. by rewrite Hn, Hm. }
  rewrite Hcoord in Hix. injection Hix as <-.
  assert (∀ r, r ∈ temp_df →
            ∃ n m, u2i !! t_user r = Some n ∧ x2i !! t_item r = Some m ∧
                   n < length (Pd.unique (map i_user df))) as Hin.
  { intros r Hr. destruct (proj1 (Forall_forall _ _) Hrows r Hr) as (n & m & Hn & Hm & _).
    exists n, m. split; [done|]. split; [done|]. by eapply user_index_lt. }
  rewrite item_cooccurrence_diagonal.
  2:{ assert (map (λ r, (U (t_user r), I (t_item r))) temp_df
              = (λ k : string * string, (U k.1, I k.2)) <$> (map t_key temp_df)) as ->
        by (rewrite <- list_fmap_compose; done).
      apply NoDup_fmap_2_strong; [|done].
      intros [u1 i1] [u2 i2] H1 H2 [= HU HI].
      apply list_elem_of_fmap in H1 as (r1 & [= -> ->] & Hr1).
      apply list_elem_of_fmap in H2 as (r2 & [= -> ->] & Hr2).
      destruct (Hin r1 Hr1) as (n1 & m1 & Hn1 & Hm1 & _).
      destruct (Hin r2 Hr2) as (n2 & m2 & Hn2 & Hm2 & _).
      unfold U, I in HU, HI. rewrite Hn1, Hn2 in HU. rewrite Hm1, Hm2 in HI. simpl in *. subst.
      f_equal; eapply user_index_inj; eauto. }
  2:{ apply Forall_forall. intros p Hp. apply list_elem_of_fmap in Hp as (r & -> & Hr).
      destruct (Hin r Hr) as (n & m & Hn & Hm & ?). unfold U. by rewrite Hn. }
  f_equal. rewrite filter_fmap_length. simpl.
  rewrite (filter_ext_in _ (λ r, t_item r = item)).
  2:{ intros r Hr. destruct (Hin r Hr) as (n & m & Hn & Hm & _).
      unfold I. rewrite Hm. simpl. split.
      - intros Heq. subst m. eapply user_index_inj; eauto.
      - intros Heq. rewrite Heq in Hm. rewrite Hm in Hitem. by injection Hitem. }
  rewrite <- (length_map t_user).
  rewrite <- (size_list_to_set (C := gset string)).
  + f_equal. apply set_eq. intros u. rewrite !elem_of_list_to_set.
    rewrite !list_elem_of_fmap. split.
    * intros (r & -> & Hr). apply list_elem_of_filter in Hr as [Hi Hr].
      assert (t_key r ∈ map t_key temp_df) as Hk by (apply list_elem_of_fmap; by exists r).
      apply Hel in Hk. apply list_elem_of_fmap in Hk as (r0 & [= Hku Hki] & Hr0).
      exists r0. split; [done|]. apply list_elem_of_filter. split; [congruence|done].
    * intros (r0 & -> & Hr0). apply list_elem_of_filter in Hr0 as [Hi Hr0].
      assert (i_key r0 ∈ map t_key temp_df) as Hk.
      { apply Hel. apply list_elem_of_fmap. by exists r0. }
      apply list_elem_of_fmap in Hk as (r & [= Hku Hki] & Hr).
      exists r. split; [done|]. apply list_elem_of_filter. split; [congruence|done].
  + assert (map t_user (filter (λ r, t_item r = item) temp_df)
            = fst <$> filter (λ k : string * string, k.2 = item) (map t_key temp_df)) as ->.
    { clear. induction temp_df as [|r l IH]; [done|]. simpl. rewrite !filter_cons. simpl.
      case_decide; simpl; by rewrite IH. }
    apply NoDup_fmap_2_strong; [|by apply NoDup_filter].
    intros [u1 i1] [u2 i2] H1 H2. simpl. intros ->.
    apply list_elem_of_filter in H1 as [H1 _]. apply list_elem_of_filter in H2 as [H2 _].
    simpl in *. by subst.
Qed.

Lemma compute_coocurrence_matrix_cells (self : SAR) (df : list trow) (C : ndarray) :
  compute_coocurrence_matrix self df = Ok C →
  ∃ ix nu ni,
    coordinates df = Ok ix ∧ n_users self = Some nu ∧ n_items self = Some ni ∧
    nrows C = ni ∧ ncols C = ni ∧
    ∀ i j, cell C i j = F64.of_Z (threshold_mask (threshold self) (item_cooccurrence nu ix i j)).
Proof.
  unfold compute_coocurrence_matrix. intros H.
  apply bind_Ok in H as (ix & Hix & H).
  apply bind_Ok in H as (nu & Hnu & H). apply attr_Ok in Hnu.
  apply bind_Ok in H as (ni & Hni & H). apply attr_Ok in Hni.
  destruct (forallb _ _); [|done]. injection H as <-.
  by exists ix, nu, ni.
Qed.

(** [fit] on a model without an index and with no files on disk for this
    catalogue size: the blocks before the similarity all succeed, and [fit]
    is its last block on the matrices they built. *)
Lemma fit_fresh_eq {FV} (decay : Z → Z → Z → float) (self : SAR) (df : list interaction)
    (features : list (feature_row FV)) (cw : col_weights FV)
    (uninit : string → nat → nat → float) (d : disk) :
  index2item self = None →
  d !! (DATA_DIR ++ "experiment/", length features) = None →
  ∃ self1 temp1 self2 temp_df affinity C,
    fit_temp_df decay (set_index self df) df = Ok (self1, temp1) ∧
    fit_unity decay self1 temp1 = Ok (self2, temp_df) ∧
    compute_affinity_matrix self2 temp_df col_rating = Ok affinity ∧
    compute_coocurrence_matrix (set_user_affinity (Some affinity) self2) temp_df = Ok C ∧
    same_index (set_index self df) self2 ∧
    NoDup (map t_key temp_df) ∧
    (∀ k, k ∈ map t_key temp_df ↔ k ∈ map i_key df) ∧
    Forall (row_indexed (user_index_of (map i_user df)) (user_index_of (map i_item df))) temp_df ∧
    fit decay self df features cw false uninit d
    = fit_similarity
        (set_item_frequencies (Some (Np.diagonal C)) (set_user_affinity (Some affinity) self2))
        C features cw false (DATA_DIR ++ "experiment/") uninit d.
Proof.
  intros Hi Hd.
  destruct (fit_fresh_frame decay self df)
    as (self1 & temp1 & self2 & temp_df & aff & C & H1 & H2 & H3 & H4 & Hs & Hnd & Hel & Hrows).
  exists self1, temp1, self2, temp_df, aff, C.
  repeat (split; [done|]).
  unfold fit. rewrite (fit_index_fresh _ _ _ _ Hi Hd). simpl.
  rewrite H1. simpl. rewrite H2. simpl. rewrite H3. simpl. by rewrite H4.
Qed.

(** X3. A model fresh from [__init__] (it has no index yet) whose
    similarity type is the module's own literal of one of the three
    built-in modes, fitted on a table with at least one row, with no files
    on disk for this catalogue size: [fit] succeeds, writes nothing to
    disk, and leaves a model that carries the index of [set_index], an
    affinity matrix, an item similarity and the item frequencies (and the
    unity affinity when [normalize] is set). *)
Theorem fit_fresh_succeeds {FV} (exponential_decay : Z → Z → Z → float) (self : SAR)
    (df : list interaction) (features : list (feature_row FV)) (cw : col_weights FV)
    (uninit : string → nat → nat → float) (d : disk) :
  index2item self = None →
  d !! (DATA_DIR ++ "experiment/", length features) = None →
  similarity_type self ∈ [COOCCUR; JACCARD; LIFT] →
  similarity_is_literal self = true →
  df ≠ [] →
  ∃ m,
    fit exponential_decay self df features cw false uninit d = Ok (m, d) ∧
    same_index (set_index self df) m ∧
    is_Some (user_affinity m) ∧ is_Some (item_similarity m) ∧
    is_Some (item_frequencies m) ∧
    (normalize self = true → is_Some (unity_user_affinity m)).
Proof.
  intros Hi Hd Hsim Hlit _.
  destruct (fit_fresh_eq exponential_decay self df features cw uninit d Hi Hd)
    as (self1 & temp1 & self2 & temp_df & aff & C & H1 & H2 & H3 & H4 & Hs & _ & _ & _ & Hfit).
  rewrite Hfit. clear Hfit.
  assert (normalize self = true → is_Some (unity_user_affinity self2)) as Hunity.
  { intros Hn.
    pose proof (fit_temp_df_same_index _ _ _ _ _ H1)
      as (_ & _ & _ & _ & _ & _ & _ & _ & _ & Hn1 & _).
    simpl in Hn1. unfold fit_unity in H2. rewrite Hn1, Hn in H2.
    apply bind_Ok in H2 as ([s t] & _ & H2). apply bind_Ok in H2 as (u & _ & H2).
    injection H2 as <- _. by eexists. }
  set (self4 := set_item_frequencies _ _).
  assert (same_index (set_index self df) self4) as Hs4.
  { destruct Hs as (? & ? & ? & ? & ? & ? & ? & ? & ? & ? & ?). by repeat split. }
  assert (similarity_type self4 = similarity_type self) as Hty.
  { destruct Hs4 as (_ & _ & _ & _ & _ & _ & -> & _). done. }
  assert (similarity_is_literal self4 = true) as Hlit4.
  { destruct Hs4 as (_ & _ & _ & _ & _ & _ & _ & _ & _ & _ & ->). done. }
  assert (∀ c, similarity_type_is self4 c ↔ similarity_type self = c) as Hc.
  { intros c. unfold similarity_type_is. rewrite Hty, Hlit4. naive_solver. }
  unfold fit_similarity.
  apply elem_of_cons in Hsim as [Heq|Hsim].
  { rewrite decide_True by (by apply Hc). eexists. split; [reflexivity|].
    split; [by destruct Hs4 as (? & ? & ? & ? & ? & ? & ? & ? & ? & ? & ?)|].
    simpl. repeat split; by eauto. }
  apply elem_of_cons in Hsim as [Heq|Hsim].
  { rewrite decide_False by (by rewrite Hc, Heq). rewrite decide_True by (by apply Hc).
    eexists. split; [reflexivity|].
    split; [by destruct Hs4 as (? & ? & ? & ? & ? & ? & ? & ? & ? & ? & ?)|].
    simpl. repeat split; by eauto. }
  apply list_elem_of_singleton in Hsim as Heq.
  rewrite decide_False by (by rewrite Hc, Heq).
  rewrite decide_False by (by rewrite Hc, Heq). rewrite decide_True by (by apply Hc).
  eexists. split; [reflexivity|].
  split; [by destruct Hs4 as (? & ? & ? & ? & ? & ? & ? & ? & ? & ? & ?)|].
  simpl. repeat split; by eauto.
Qed.

(** X3, at the scenario, with time decay, normalisation and lift similarity. *)
Lemma fit_fresh_succeeds_witness :
  ∃ m,
    fit half_life_decay (unfitted LIFT true true) scenario no_features no_weights false zeroed ∅
    = Ok (m, ∅) ∧
    same_index (set_index (unfitted LIFT true true) scenario) m ∧
    is_Some (user_affinity m) ∧ is_Some (item_similarity m) ∧
    is_Some (item_frequencies m) ∧
    (normalize (unfitted LIFT true true) = true → is_Some (unity_user_affinity m)).
Proof.
  apply (fit_fresh_succeeds half_life_decay (unfitted LIFT true true) scenario
           no_features no_weights zeroed ∅).
  - reflexivity.
  - apply lookup_empty.
  - vm_compute. apply list_elem_of_further, list_elem_of_further, list_elem_of_here.
  - reflexivity.
  - discriminate.
Defined.

(** A similarity type that is equal to a name of the module without being
    its literal (a string read from a file, say) passes [__init__]; [fit]
    then runs through all its matrix work and ends in the [ValueError]. *)
Example fit_equal_string_raises :
  ∃ self,
    init JACCARD false 30 None false 1 false = Ok self ∧
    fit_plain self scenario = Raise (ValueError "Unknown similarity type: jaccard").
Proof. eexists. split; [reflexivity|]. vm_compute. reflexivity. Qed.

(** What a successful [fit] that built the index itself leaves in the
    model. *)
Lemma fit_fresh_inv {FV} (decay : Z → Z → Z → float) (self : SAR)
    (df : list interaction) (features : list (feature_row FV)) (cw : col_weights FV)
    (uninit : string → nat → nat → float) (d d' : disk) (m : SAR) :
  index2item self = None →
  d !! (DATA_DIR ++ "experiment/", length features) = None →
  fit decay self df features cw false uninit d = Ok (m, d') →
  ∃ self1 temp1 self2 temp_df affinity C,
    fit_temp_df decay (set_index self df) df = Ok (self1, temp1) ∧
    fit_unity decay self1 temp1 = Ok (self2, temp_df) ∧
    compute_affinity_matrix self2 temp_df col_rating = Ok affinity ∧
    compute_coocurrence_matrix (set_user_affinity (Some affinity) self2) temp_df = Ok C ∧
    NoDup (map t_key temp_df) ∧
    (∀ k, k ∈ map t_key temp_df ↔ k ∈ map i_key df) ∧
    Forall (row_indexed (user_index_of (map i_user df)) (user_index_of (map i_item df))) temp_df ∧
    same_index (set_index self df) self2 ∧
    same_index (set_index self df) m ∧
    user_affinity m = Some affinity ∧
    unity_user_affinity m = unity_user_affinity self2 ∧
    item_frequencies m = Some (Np.diagonal C).
Proof.
  intros Hi Hd Hfit.
  destruct (fit_fresh_eq decay self df features cw uninit d Hi Hd)
    as (self1 & temp1 & self2 & temp_df & aff & C & H1 & H2 & H3 & H4 & Hs & Hnd & Hel & Hrows & Heq).
  rewrite Heq in Hfit. clear Heq.
  destruct (fit_similarity_keeps _ _ _ _ _ _ _ _ _ _ Hfit) as (Hsm & Haff & Hun & Hfreq & _).
  exists self1, temp1, self2, temp_df, aff, C.
  repeat (split; [done|]). split; [|done].
  eapply same_index_trans; [exact Hs|].
  destruct Hsm as (? & ? & ? & ? & ? & ? & ? & ? & ? & ? & ?). by repeat split.
Qed.

(** The item frequencies after such a [fit]. *)
Lemma fit_fresh_frequencies {FV} (decay : Z → Z → Z → float) (self : SAR)
    (df : list interaction) (features : list (feature_row FV)) (cw : col_weights FV)
    (uninit : string → nat → nat → float) (d d' : disk) (m : SAR) :
  index2item self = None →
  d !! (DATA_DIR ++ "experiment/", length features) = None →
  fit decay self df features cw false uninit d = Ok (m, d') →
  ∃ fs,
    item_frequencies m = Some fs ∧
    length fs = length (Pd.unique (map i_item df)) ∧
    ∀ item i, user_index_of (map i_item df) !! item = Some i →
      fs !! i = Some (F64.of_Z
                        (let c := Z.of_nat (size (list_to_set (map i_user (filter (λ r, i_item r = item) df))
                                                  : gset string)) in
                         if (c <? threshold self)%Z then 0%Z else c)).
Proof.
  intros Hi Hd Hfit.
  destruct (fit_fresh_inv decay self df features cw uninit d d' m Hi Hd Hfit)
    as (self1 & temp1 & self2 & temp_df & aff & C & H1 & H2 & H3 & H4 & Hnd & Hel & Hrows
        & Hs & Hsm & Haff & Hun & Hfreq).
  destruct (set_index_fields self df) as (Hx & Hu & Hnu & Hni & Hth).
  destruct Hs as (Hnu2 & Hni2 & Hu2 & Hx2 & Hi2 & Hth2 & _).
  destruct (compute_coocurrence_matrix_cells _ _ _ H4)
    as (ix & nu & ni & Hix & Hnu' & Hni' & Hr & Hc & Hcell). simpl in *.
  rewrite Hnu2, Hnu in Hnu'. injection Hnu' as <-.
  rewrite Hni2, Hni in Hni'. injection Hni' as <-.
  exists (Np.diagonal C). split; [done|].
  split; [unfold Np.diagonal; rewrite length_map, length_seq, Hr, Hc; lia|].
  intros item i Hitem.
  pose proof (user_index_lt _ _ _ Hitem) as Hlt.
  unfold Np.diagonal. fmapify. rewrite list_lookup_fmap.
  rewrite lookup_seq_lt by (rewrite Hr, Hc; lia). simpl.
  rewrite Hcell, threshold_mask_spec. simpl. rewrite Hth2.
  by rewrite (indexed_frame_diagonal df temp_df ix item i Hnd Hel Hrows Hix Hitem).
Qed.

(** X4. After [fit] has built the index itself, the item frequencies are the
    diagonal of the co-occurrence matrix: one entry per item of the
    catalogue, the number of distinct users who interacted with the item,
    or 0 where that number is below the threshold. *)
Theorem fit_item_frequencies {FV} (exponential_decay : Z → Z → Z → float) (self : SAR)
    (df : list interaction) (features : list (feature_row FV)) (cw : col_weights FV)
    (uninit : string → nat → nat → float) (d d' : disk) (m : SAR) :
  index2item self = None →
  d !! (DATA_DIR ++ "experiment/", length features) = None →
  fit exponential_decay self df features cw false uninit d = Ok (m, d') →
  ∃ fs x2i,
    item_frequencies m = Some fs ∧ item2index m = Some x2i ∧
    n_items m = Some (length fs) ∧
    ∀ item i, x2i !! item = Some i →
      fs !! i = Some (F64.of_Z
                        (let c := Z.of_nat (size (list_to_set (map i_user (filter (λ r, i_item r = item) df))
                                                  : gset string)) in
                         if (c <? threshold self)%Z then 0%Z else c)).
Proof.
  intros Hi Hd Hfit.
  destruct (fit_fresh_frequencies _ _ _ _ _ _ _ _ _ Hi Hd Hfit) as (fs & Hfs & Hlen & Hcount).
  destruct (fit_fresh_inv _ _ _ _ _ _ _ _ _ Hi Hd Hfit)
    as (_ & _ & _ & _ & _ & _ & _ & _ & _ & _ & _ & _ & _ & _ & Hsm & _).
  destruct (set_index_fields self df) as (Hx & _ & _ & Hni & _).
  destruct Hsm as (_ & Hnim & _ & Hxm & _).
  exists fs, (user_index_of (map i_item df)).
  split; [done|]. split; [by rewrite Hxm|]. split; [by rewrite Hnim, Hni, Hlen|done].
Qed.

(** X4, at the scenario model. *)
Lemma fit_item_frequencies_witness :
  ∃ fs x2i,
    item_frequencies scenario_model = Some fs ∧ item2index scenario_model = Some x2i ∧
    n_items scenario_model = Some (length fs) ∧
    ∀ item i, x2i !! item = Some i →
      fs !! i = Some (F64.of_Z
                        (let c := Z.of_nat (size (list_to_set (map i_user (filter (λ r, i_item r = item) scenario))
                                                  : gset string)) in
                         if (c <? threshold (unfitted JACCARD false false))%Z then 0%Z else c)).
Proof.
  apply (fit_item_frequencies half_life_decay (unfitted JACCARD false false) scenario
           no_features no_weights zeroed ∅ ∅ scenario_model).
  - reflexivity.
  - apply lookup_empty.
  - apply (is_ok_fit (fit_plain (unfitted JACCARD false false) scenario)).
    vm_compute. reflexivity.
Defined.

(** ** Affinity *)

Section KeyedFilter.
Context {A K : Type} `{EqDecision K}.

Lemma filter_key_NoDup (key : A → K) (l : list A) (k : K) :
  NoDup (map key l) → (length (filter (λ r, key r = k) l) ≤ 1)%nat.
Proof.
  intros Hnd. destruct (decide (k ∈ map key l)) as [Hin|Hnin].
  - destruct (filter_key_singleton key l k Hnd Hin) as (r & -> & _). done.
  - rewrite (filter_nil_not_in _ _ _ Hnin). simpl. lia.
Qed.

Lemma filter_eq_NoDup (l : list K) (k : K) :
  NoDup l → filter (λ k', k' = k) l = if decide (k ∈ l) then [k] else [].
Proof.
  intros Hnd. destruct (decide (k ∈ l)) as [Hin|Hnin].
  - destruct (filter_key_singleton id l k) as (r & Hr & _ & Heq).
    + by rewrite list_fmap_id.
    + by rewrite list_fmap_id.
    + simpl in Heq. subst r. exact Hr.
  - apply (filter_nil_not_in id). by rewrite list_fmap_id.
Qed.
End KeyedFilter.

(** The rows of one key in [groupby(...).sum()]: none when the frame has
    no row of the key, else the one row of the sums. *)
Lemma groupby_sum_filter (df : list trow) (k : string * string) :
  filter (λ r, t_key r = k) (groupby_sum df)
  = match filter (λ r, t_key r = k) df with
    | [] => []
    | g => [sum_group k g]
    end.
Proof.
  unfold groupby_sum. rewrite filter_key_fmap.
  rewrite (filter_ext_in _ (λ k', k' = k)).
  2:{ intros [u i] _. done. }
  rewrite filter_eq_NoDup by (rewrite merge_sort_Permutation; apply NoDup_unique).
  destruct (decide (k ∈ _)) as [Hin|Hnin].
  - rewrite merge_sort_Permutation in Hin. rewrite elem_of_unique in Hin.
    simpl. destruct (filter (λ r, t_key r = k) df) eqn:Hf; [|done].
    exfalso. apply list_elem_of_fmap in Hin as (r & -> & Hr).
    by eapply (filter_nil_not_elem_of _ _ r Hf).
  - rewrite merge_sort_Permutation in Hnin. rewrite elem_of_unique in Hnin.
    by rewrite (filter_nil_not_in _ _ _ Hnin).
Qed.

(** X5. [fit] under time decay: the working frame has one row per (user, item)
    pair of the table, whose rating is the sum of the pair's ratings, each
    multiplied by its decay weight at the reference time; the reference time
    is [time_now] when it was given, else the latest timestamp of the table,
    and [fit] leaves it set in [self]. *)
Theorem fit_temp_df_decayed_sum (exponential_decay : Z → Z → Z → float) (self : SAR)
    (df : list interaction) (x2i u2i : gmap string nat) :
  time_decay_flag self = true →
  item2index self = Some x2i → user2index self = Some u2i →
  ∃ self' temp_df,
    fit_temp_df exponential_decay self df = Ok (self', temp_df) ∧
    time_now self' = match time_now self with
                     | Some t => Some t
                     | None => list_max (map i_timestamp df)
                     end ∧
    ∀ user item,
      map (λ r, (t_user r, t_item r, t_rating r))
          (filter (λ r, t_key r = (user, item)) temp_df)
      = match filter (λ r, i_key r = (user, item)) df with
        | [] => []
        | g => [(user, item,
                 Pd.sum_skipna
                   (map (λ r, F64.mul (i_rating r)
                                (exponential_decay (i_timestamp r) (default 0%Z (time_now self'))
                                   (time_decay_half_life self))) g))]
        end.
Proof.
  intros Hflag Hx Hu. unfold fit_temp_df. rewrite Hflag. unfold compute_time_decay.
  assert (column "timestamp" t_timestamp (map (select_columns self) df)
          = Ok (map i_timestamp df)) as ->.
  { unfold column. rewrite (traverse_Ok_map _ (λ r, default 0%Z (t_timestamp r))).
    - rewrite <- list_fmap_compose. f_equal. apply list_fmap_ext. intros _ r _. simpl.
      unfold select_columns. by rewrite Hflag.
    - apply Forall_forall. intros r Hr. apply list_elem_of_fmap in Hr as (r0 & -> & _).
      unfold select_columns. by rewrite Hflag. }
  simpl.
  set (self' := match time_now self with None => _ | Some _ => self end).
  assert (time_now self' = match time_now self with
                           | Some t => Some t
                           | None => list_max (map i_timestamp df)
                           end) as Hnow.
  { subst self'. destruct (time_now self) eqn:E; [exact E|done]. }
  assert (item2index self' = Some x2i ∧ user2index self' = Some u2i ∧
          time_decay_half_life self' = time_decay_half_life self) as (Hx' & Hu' & Hhl).
  { subst self'. by destruct (time_now self). }
  set (w := λ r : interaction,
         F64.mul (i_rating r)
           (exponential_decay (i_timestamp r) (default 0%Z (time_now self'))
              (time_decay_half_life self))).
  set (decayed := λ r : interaction,
         mk_trow (i_user r) (i_item r) (w r) (Some (i_timestamp r)) None None None).
  assert (traverse (decay_row exponential_decay (time_now self') (time_decay_half_life self') col_rating)
            (map (select_columns self) df) = Ok (map decayed df)) as ->.
  { destruct df as [|r0 df0]; [done|].
    assert (is_Some (time_now self')) as [now Hsome].
    { rewrite Hnow. destruct (time_now self); by eexists. }
    rewrite (traverse_Ok_map _ (λ r, mk_trow (t_user r) (t_item r)
                                      (F64.mul (t_rating r)
                                         (exponential_decay (default 0%Z (t_timestamp r)) now
                                            (time_decay_half_life self)))
                                      (t_timestamp r) (t_item_id r) (t_user_id r) (t_unity r))).
    - f_equal. rewrite <- list_fmap_compose. apply list_fmap_ext. intros _ r _. simpl.
      unfold decayed, w, select_columns. rewrite Hflag, Hsome. done.
    - apply Forall_forall. intros r Hr. apply list_elem_of_fmap in Hr as (r1 & -> & _).
      unfold decay_row, select_columns. rewrite Hflag, Hsome, Hhl. done. }
  simpl. rewrite Hx'. simpl. rewrite Hu'. simpl.
  eexists _, _. split; [reflexivity|]. split; [exact Hnow|].
  intros user item.
  rewrite !filter_key_fmap. simpl.
  change (λ r : trow, (t_user r, t_item r) = (user, item)) with (λ r : trow, t_key r = (user, item)).
  rewrite groupby_sum_filter, filter_key_fmap. simpl.
  change (λ r : interaction, t_key (decayed r) = (user, item))
    with (λ r : interaction, i_key r = (user, item)).
  destruct (filter (λ r, i_key r = (user, item)) df) as [|r g]; [done|].
  simpl. do 3 f_equal. rewrite <- list_fmap_compose. done.
Qed.

(** X5, at the table with one pair rated twice, one half-life apart. *)
Lemma fit_temp_df_decayed_sum_witness :
  let self := set_index (unfitted JACCARD true false) rated_twice in
  ∃ self' temp_df,
    fit_temp_df half_life_decay self rated_twice = Ok (self', temp_df) ∧
    time_now self' = match time_now self with
                     | Some t => Some t
                     | None => list_max (map i_timestamp rated_twice)
                     end ∧
    ∀ user item,
      map (λ r, (t_user r, t_item r, t_rating r))
          (filter (λ r, t_key r = (user, item)) temp_df)
      = match filter (λ r, i_key r = (user, item)) rated_twice with
        | [] => []
        | g => [(user, item,
                 Pd.sum_skipna
                   (map (λ r, F64.mul (i_rating r)
                                (half_life_decay (i_timestamp r) (default 0%Z (time_now self'))
                                   (time_decay_half_life self))) g))]
        end.
Proof.
  intros self.
  apply (fit_temp_df_decayed_sum half_life_decay self rated_twice
           (user_index_of (map i_item rated_twice)) (user_index_of (map i_user rated_twice))).
  - reflexivity.
  - reflexivity.
  - reflexivity.
Defined.

(** [compute_affinity_matrix] on a frame with one row per key whose index
    columns hold the indices of an injective index: the matrix has the
    shape of the index, and the entry of a (user, item) pair is the weight
    of the pair's row, or a structural zero when the frame has no such row. *)
Lemma compute_affinity_matrix_cell (self : SAR) (df : list trow) (c : weight_column)
    (w : trow → float) (u2i x2i : gmap string nat) (aff : csr) :
  compute_affinity_matrix self df c = Ok aff →
  match c with
  | col_rating => ∀ r, r ∈ df → t_rating r = w r
  | col_unity_rating => ∀ r, r ∈ df → t_unity r = Some (w r)
  end →
  NoDup (map t_key df) → Forall (row_indexed u2i x2i) df →
  (∀ a b n, u2i !! a = Some n → u2i !! b = Some n → a = b) →
  (∀ a b n, x2i !! a = Some n → x2i !! b = Some n → a = b) →
  n_users self = Some (sp_rows aff) ∧ n_items self = Some (sp_cols aff) ∧
  ∀ user item n i, u2i !! user = Some n → x2i !! item = Some i →
    stored aff n i = head (map w (filter (λ r, t_key r = (user, item)) df)).
Proof.
  intros H Hw Hnd Hrows Hinju Hinjx. unfold compute_affinity_matrix in H.
  apply bind_Ok in H as (data & Hdata & H).
  apply bind_Ok in H as (ix & Hix & H).
  apply bind_Ok in H as (nu & Hnu & H). apply attr_Ok in Hnu.
  apply bind_Ok in H as (ni & Hni & H). apply attr_Ok in Hni.
  unfold Sp.coo_matrix in H. destruct (forallb _ _); [|done]. injection H as <-. simpl.
  split; [done|]. split; [done|].
  intros user item n i Hn Hi.
  assert (data = map w df) as ->.
  { destruct c.
    - injection Hdata as <-. apply list_fmap_ext. intros j r Hr. apply Hw.
      apply list_elem_of_lookup. eauto.
    - unfold column in Hdata. rewrite (traverse_Ok_map _ w) in Hdata; [by injection Hdata|].
      apply Forall_forall. intros r Hr. by rewrite (Hw r Hr). }
  set (U := λ r : trow, default 0 (u2i !! t_user r)).
  set (I := λ r : trow, default 0 (x2i !! t_item r)).
  assert (coordinates df = Ok (map (λ r, (U r, I r)) df)) as Hcoord.
  { apply coordinates_indexed. eapply Forall_impl; [exact Hrows|].
    intros r (n' & m' & Hn' & Hm' & -> & ->). unfold U, I. by rewrite Hn', Hm'. }
  rewrite Hcoord in Hix. injection Hix as <-.
  rewrite zip_map_map.
  rewrite (filter_key_fmap (λ r, (w r, (U r, I r))) snd df (n, i)). simpl.
  rewrite (filter_ext_in _ (λ r, t_key r = (user, item))).
  2:{ intros r Hr. destruct (proj1 (Forall_forall _ _) Hrows r Hr) as (n' & m' & Hn' & Hm' & _).
      unfold U, I, t_key. rewrite Hn', Hm'. simpl. split.
      - intros [= -> ->]. f_equal; [by eapply Hinju|by eapply Hinjx].
      - intros [= Hu' Hi']. rewrite Hu' in Hn'. rewrite Hi' in Hm'. congruence. }
  pose proof (filter_key_NoDup t_key df (user, item) Hnd) as Hlen.
  rewrite <- list_fmap_compose.
  destruct (filter (λ r, t_key r = (user, item)) df) as [|r [|r' g]]; [done|done|].
  simpl in Hlen. lia.
Qed.

(** The ratings of the working frame when time decay is off: the last
    rating of each pair. *)
Lemma fit_temp_df_last (decay : Z → Z → Z → float) (self self' : SAR)
    (df : list interaction) (temp_df : list trow) (k : string * string) :
  time_decay_flag self = false →
  fit_temp_df decay self df = Ok (self', temp_df) →
  map t_rating (filter (λ r, t_key r = k) temp_df)
  = match last (filter (λ r, i_key r = k) df) with
    | Some r => [i_rating r]
    | None => []
    end.
Proof.
  intros Hflag H. unfold fit_temp_df in H. rewrite Hflag in H. simpl in H.
  apply bind_Ok in H as (x2i & _ & H). apply bind_Ok in H as (u2i & _ & H).
  injection H as _ <-.
  rewrite !filter_key_fmap. simpl.
  rewrite drop_duplicates_last_fmap.
  rewrite filter_key_fmap.
  rewrite (drop_duplicates_last_filter (t_key ∘ select_columns self) df k).
  rewrite <- !list_fmap_compose.
  change (λ r, (t_key ∘ select_columns self) r = k) with (λ r, i_key r = k).
  by destruct (last _).
Qed.

(** The frame after [fit_unity] when time decay is off: the rows of
    [fit_temp_df], with the unity column set to 1.0 under [normalize]. *)
Lemma fit_unity_no_decay (decay : Z → Z → Z → float) (self self' : SAR)
    (temp1 temp_df : list trow) :
  time_decay_flag self = false →
  fit_unity decay self temp1 = Ok (self', temp_df) →
  map t_key temp_df = map t_key temp1 ∧
  map t_rating temp_df = map t_rating temp1 ∧
  (∀ k, map t_rating (filter (λ r, t_key r = k) temp_df)
        = map t_rating (filter (λ r, t_key r = k) temp1)) ∧
  (normalize self = true →
     (∀ r, r ∈ temp_df → t_unity r = Some F64.one) ∧
     ∃ unity, compute_affinity_matrix self temp_df col_unity_rating = Ok unity ∧
              unity_user_affinity self' = Some unity ∧ same_index self self').
Proof.
  intros Hflag H. unfold fit_unity in H. rewrite Hflag in H.
  destruct (normalize self).
  - simpl in H. apply bind_Ok in H as (unity & Hunity & H). injection H as <- <-.
    rewrite <- !list_fmap_compose.
    split; [by apply list_fmap_ext|]. split; [by apply list_fmap_ext|].
    split; [intros k; by rewrite filter_key_fmap, <- list_fmap_compose|].
    intros _. split.
    + intros r Hr. apply list_elem_of_fmap in Hr as (r0 & -> & _). done.
    + exists unity. split; [done|]. split; [done|]. by repeat split.
  - injection H as <- <-. repeat split; done.
Qed.

(** X6. [fit] without time decay, having built the index itself: the affinity
    matrix has one row per user and one column per item of the index; the
    affinity of a user for an item is the rating of the last row of that pair
    in the table, and a structural zero for a pair the table does not hold. *)
Theorem fit_affinity_last_rating {FV} (exponential_decay : Z → Z → Z → float) (self : SAR)
    (df : list interaction) (features : list (feature_row FV)) (cw : col_weights FV)
    (uninit : string → nat → nat → float) (d d' : disk) (m : SAR) :
  index2item self = None →
  d !! (DATA_DIR ++ "experiment/", length features) = None →
  time_decay_flag self = false →
  fit exponential_decay self df features cw false uninit d = Ok (m, d') →
  ∃ affinity u2i x2i,
    user_affinity m = Some affinity ∧
    user2index m = Some u2i ∧ item2index m = Some x2i ∧
    n_users m = Some (sp_rows affinity) ∧ n_items m = Some (sp_cols affinity) ∧
    ∀ user item n i, u2i !! user = Some n → x2i !! item = Some i →
      stored affinity n i = i_rating <$> last (filter (λ r, i_key r = (user, item)) df).
Proof.
  intros Hi Hd Hflag Hfit.
  destruct (fit_fresh_inv _ _ _ _ _ _ _ _ _ Hi Hd Hfit)
    as (self1 & temp1 & self2 & temp_df & aff & C & H1 & H2 & H3 & H4 & Hnd & Hel & Hrows
        & Hs & Hsm & Haff & Hun & Hfreq).
  destruct (set_index_fields self df) as (Hx & Hu & _).
  pose proof (fit_temp_df_same_index _ _ _ _ _ H1) as Hs1.
  assert (time_decay_flag self1 = false) as Hflag1.
  { destruct Hs1 as (_ & _ & _ & _ & _ & _ & _ & -> & _). done. }
  destruct (fit_unity_no_decay _ _ _ _ _ Hflag1 H2) as (_ & _ & Hrat & _).
  destruct (compute_affinity_matrix_cell self2 temp_df col_rating t_rating
              (user_index_of (map i_user df)) (user_index_of (map i_item df)) aff H3)
    as (Hnu & Hni & Hcell); [done|done|done|apply user_index_inj|apply user_index_inj|].
  exists aff, (user_index_of (map i_user df)), (user_index_of (map i_item df)).
  destruct Hsm as (Hnum & Hnim & Hum & Hxm & _).
  destruct Hs as (Hnu2 & Hni2 & _).
  split; [done|]. split; [by rewrite Hum|]. split; [by rewrite Hxm|].
  split; [by rewrite Hnum, <- Hnu2|]. split; [by rewrite Hnim, <- Hni2|].
  intros user item n i Hn Hitem. rewrite (Hcell user item n i Hn Hitem).
  rewrite Hrat. rewrite (fit_temp_df_last _ (set_index self df) _ _ _ (user, item) Hflag H1).
  by destruct (last _).
Qed.

(** X6, at the table with one pair rated twice. *)
Lemma fit_affinity_last_rating_witness :
  ∃ affinity u2i x2i,
    user_affinity out_of_order_model = Some affinity ∧
    user2index out_of_order_model = Some u2i ∧ item2index out_of_order_model = Some x2i ∧
    n_users out_of_order_model = Some (sp_rows affinity) ∧
    n_items out_of_order_model = Some (sp_cols affinity) ∧
    ∀ user item n i, u2i !! user = Some n → x2i !! item = Some i →
      stored affinity n i = i_rating <$> last (filter (λ r, i_key r = (user, item)) out_of_order).
Proof.
  apply (fit_affinity_last_rating half_life_decay (unfitted JACCARD false false) out_of_order
           no_features no_weights zeroed ∅ ∅ out_of_order_model).
  - reflexivity.
  - apply lookup_empty.
  - reflexivity.
  - apply (is_ok_fit (fit_plain (unfitted JACCARD false false) out_of_order)).
    vm_compute. reflexivity.
Defined.

(** X7. [fit] with [normalize] and without time decay, having built the index
    itself: the unity affinity matrix is the incidence of the table, 1.0
    where the user has a row for the item and a structural zero elsewhere. *)
Theorem fit_unity_affinity_incidence {FV} (exponential_decay : Z → Z → Z → float) (self : SAR)
    (df : list interaction) (features : list (feature_row FV)) (cw : col_weights FV)
    (uninit : string → nat → nat → float) (d d' : disk) (m : SAR) :
  index2item self = None →
  d !! (DATA_DIR ++ "experiment/", length features) = None →
  time_decay_flag self = false → normalize self = true →
  fit exponential_decay self df features cw false uninit d = Ok (m, d') →
  ∃ unity u2i x2i,
    unity_user_affinity m = Some unity ∧
    user2index m = Some u2i ∧ item2index m = Some x2i ∧
    ∀ user item n i, u2i !! user = Some n → x2i !! item = Some i →
      stored unity n i = if decide ((user, item) ∈ map i_key df) then Some F64.one else None.
Proof.
  intros Hi Hd Hflag Hnorm Hfit.
  destruct (fit_fresh_inv _ _ _ _ _ _ _ _ _ Hi Hd Hfit)
    as (self1 & temp1 & self2 & temp_df & aff & C & H1 & H2 & H3 & H4 & Hnd & Hel & Hrows
        & Hs & Hsm & Haff & Hun & Hfreq).
  pose proof (fit_temp_df_same_index _ _ _ _ _ H1) as Hs1.
  assert (time_decay_flag self1 = false ∧ normalize self1 = true) as [Hflag1 Hnorm1].
  { destruct Hs1 as (_ & _ & _ & _ & _ & _ & _ & -> & _ & -> & _). done. }
  destruct (fit_unity_no_decay _ _ _ _ _ Hflag1 H2) as (_ & _ & _ & Hunity).
  destruct (Hunity Hnorm1) as (Hone & unity & Hcomp & Hunity2 & Hs12).
  destruct (compute_affinity_matrix_cell self1 temp_df col_unity_rating (λ _, F64.one)
              (user_index_of (map i_user df)) (user_index_of (map i_item df)) unity Hcomp)
    as (_ & _ & Hcell); [done|done|done|apply user_index_inj|apply user_index_inj|].
  exists unity, (user_index_of (map i_user df)), (user_index_of (map i_item df)).
  destruct Hsm as (_ & _ & Hum & Hxm & _).
  split; [by rewrite Hun|]. split; [by rewrite Hum|]. split; [by rewrite Hxm|].
  intros user item n i Hn Hitem. rewrite (Hcell user item n i Hn Hitem).
  destruct (decide ((user, item) ∈ map i_key df)) as [Hin|Hnin].
  - apply Hel in Hin.
    destruct (filter_key_singleton t_key temp_df (user, item) Hnd Hin) as (r & -> & _). done.
  - rewrite <- Hel in Hnin. by rewrite (filter_nil_not_in _ _ _ Hnin).
Qed.

(** X7, at the scenario fitted with [normalize=True]. *)
Lemma fit_unity_affinity_incidence_witness :
  ∃ unity u2i x2i,
    unity_user_affinity scenario_model_normalized = Some unity ∧
    user2index scenario_model_normalized = Some u2i ∧
    item2index scenario_model_normalized = Some x2i ∧
    ∀ user item n i, u2i !! user = Some n → x2i !! item = Some i →
      stored unity n i = if decide ((user, item) ∈ map i_key scenario) then Some F64.one else None.
Proof.
  apply (fit_unity_affinity_incidence half_life_decay (unfitted JACCARD false true) scenario
           no_features no_weights zeroed ∅ ∅ scenario_model_normalized).
  - reflexivity.
  - apply lookup_empty.
  - reflexivity.
  - reflexivity.
  - apply (is_ok_fit (fit_plain (unfitted JACCARD false true) scenario)).
    vm_compute. reflexivity.
Defined.

(** ** Co-occurrence off the diagonal *)

Lemma hits_indicator (ix : list (nat * nat)) (u i : nat) :
  NoDup ix → user_item_hits ix u i = if decide ((u, i) ∈ ix) then 1%Z else 0%Z.
Proof.
  intros Hnd. unfold user_item_hits.
  rewrite (filter_eq_NoDup ix (u, i) Hnd). by destruct (decide _).
Qed.

Lemma sum_indicator_filter {A} (P : A → Prop) `{∀ x, Decision (P x)} (l : list A) :
  foldr Z.add 0%Z (map (λ x, if decide (P x) then 1%Z else 0%Z) l)
  = Z.of_nat (length (filter P l)).
Proof.
  induction l as [|x l IH]; [done|]. simpl. rewrite IH, filter_cons.
  destruct (decide (P x)); simpl; lia.
Qed.

Lemma filter_seq_lookup {A} (l : list A) (P : A → Prop) (Q : nat → Prop)
    `{∀ x, Decision (P x)} `{∀ n, Decision (Q n)} :
  (∀ n x, l !! n = Some x → (Q n ↔ P x)) →
  length (filter Q (seq 0 (length l))) = length (filter P l).
Proof.
  induction l as [|x l IH] using rev_ind; intros HPQ; [done|].
  rewrite length_app. simpl. rewrite seq_app. simpl. rewrite !filter_app, !length_app.
  rewrite IH.
  2:{ intros n y Hn. apply HPQ. by apply lookup_app_l_Some. }
  f_equal. rewrite !filter_cons, !filter_nil.
  assert (Q (length l) ↔ P x) as Hx.
  { apply HPQ. rewrite lookup_app_r by lia. by rewrite Nat.sub_diag. }
  destruct (decide (Q (length l))), (decide (P x)); tauto || done.
Qed.

(** The co-occurrence counts of a frame with one row per (user, item)
    pair of the table, indexed by the index of [set_index]: the cell of two
    items counts the distinct users who have a row for both. *)
Lemma indexed_frame_cooccurrence (df : list interaction) (temp_df : list trow)
    (ix : list (nat * nat)) (a b : string) (i j : nat) :
  let u2i := user_index_of (map i_user df) in
  let x2i := user_index_of (map i_item df) in
  NoDup (map t_key temp_df) →
  (∀ k, k ∈ map t_key temp_df ↔ k ∈ map i_key df) →
  Forall (row_indexed u2i x2i) temp_df →
  coordinates temp_df = Ok ix →
  x2i !! a = Some i → x2i !! b = Some j →
  item_cooccurrence (length (Pd.unique (map i_user df))) ix i j
  = Z.of_nat (size (list_to_set
                      (filter (λ u, (u, a) ∈ map i_key df ∧ (u, b) ∈ map i_key df)
                              (map i_user df)) : gset string)).
Proof.
  intros u2i x2i Hnd Hel Hrows Hix Ha Hb.
  set (U := λ u : string, default 0%nat (u2i !! u)).
  set (I := λ x : string, default 0%nat (x2i !! x)).
  assert (coordinates temp_df = Ok (map (λ r, (U (t_user r), I (t_item r))) temp_df)) as Hcoord.
  { apply coordinates_indexed. eapply Forall_impl; [exact Hrows|].
    intros r (n & m & Hn & Hm & -> & ->). unfold U, I. by rewrite Hn, Hm. }
  rewrite Hcoord in Hix. injection Hix as <-.
  set (ix := map (λ r, (U (t_user r), I (t_item r))) temp_df).
  assert (∀ r, r ∈ temp_df →
            ∃ n m, u2i !! t_user r = Some n ∧ x2i !! t_item r = Some m) as Hin.
  { intros r Hr. destruct (proj1 (Forall_forall _ _) Hrows r Hr) as (n & m & Hn & Hm & _).
    by exists n, m. }
  assert (NoDup ix) as Hndix.
  { subst ix.
    assert (map (λ r, (U (t_user r), I (t_item r))) temp_df
            = (λ k : string * string, (U k.1, I k.2)) <$> (map t_key temp_df)) as ->
      by (rewrite <- list_fmap_compose; done).
    apply NoDup_fmap_2_strong; [|done].
    intros [u1 i1] [u2 i2] H1 H2 [= HU HI].
    apply list_elem_of_fmap in H1 as (r1 & [= -> ->] & Hr1).
    apply list_elem_of_fmap in H2 as (r2 & [= -> ->] & Hr2).
    destruct (Hin r1 Hr1) as (n1 & m1 & Hn1 & Hm1).
    destruct (Hin r2 Hr2) as (n2 & m2 & Hn2 & Hm2).
    unfold U, I in HU, HI. rewrite Hn1, Hn2 in HU. rewrite Hm1, Hm2 in HI. simpl in *. subst.
    f_equal; eapply user_index_inj; eauto. }
  assert (∀ u x n m, u2i !! u = Some n → x2i !! x = Some m →
            ((n, m) ∈ ix ↔ (u, x) ∈ map i_key df)) as Hcell.
  { intros u x n m Hn Hm. rewrite <- Hel. subst ix. rewrite !list_elem_of_fmap. split.
    - intros (r & [= HU HI] & Hr). exists r. split; [|done].
      destruct (Hin r Hr) as (n' & m' & Hn' & Hm').
      unfold U, I in HU, HI. rewrite Hn' in HU. rewrite Hm' in HI. simpl in *. subst n' m'.
      unfold t_key. f_equal; eapply user_index_inj; eauto.
    - intros (r & [= -> ->] & Hr). exists r. split; [|done].
      unfold U, I. by rewrite Hn, Hm. }
  unfold item_cooccurrence.
  assert (map (λ u, (user_item_hits ix u i * user_item_hits ix u j)%Z)
              (seq 0 (length (Pd.unique (map i_user df))))
          = map (λ u, if decide ((u, i) ∈ ix ∧ (u, j) ∈ ix) then 1%Z else 0%Z)
                (seq 0 (length (Pd.unique (map i_user df))))) as ->.
  { apply list_fmap_ext. intros _ u _. simpl. rewrite !hits_indicator by done.
    repeat case_decide; tauto || lia. }
  rewrite sum_indicator_filter. f_equal.
  rewrite (filter_seq_lookup (Pd.unique (map i_user df))
             (λ u, (u, a) ∈ map i_key df ∧ (u, b) ∈ map i_key df)
             (λ n, (n, i) ∈ ix ∧ (n, j) ∈ ix)).
  2:{ intros n u Hu. apply user_index_lookup in Hu.
      by rewrite (Hcell u a n i Hu Ha), (Hcell u b n j Hu Hb). }
  rewrite <- (size_list_to_set (C := gset string)) by (apply NoDup_filter, NoDup_unique).
  f_equal. apply set_eq. intros u. rewrite !elem_of_list_to_set, !list_elem_of_filter.
  by rewrite elem_of_unique.
Qed.

(** X8. [fit] in co-occurrence mode, having built the index itself: the cell
    of two items in the item similarity is the number of distinct users who
    interacted with both (on the diagonal, with the item), or 0 where that
    number is below the threshold; the matrix is square of the size of the
    catalogue. *)
Theorem fit_cooccurrence_counts_common_users {FV} (exponential_decay : Z → Z → Z → float)
    (self : SAR) (df : list interaction) (features : list (feature_row FV))
    (cw : col_weights FV) (uninit : string → nat → nat → float) (d d' : disk) (m : SAR) :
  index2item self = None →
  d !! (DATA_DIR ++ "experiment/", length features) = None →
  similarity_type self = COOCCUR →
  fit exponential_decay self df features cw false uninit d = Ok (m, d') →
  ∃ sim x2i,
    item_similarity m = Some sim ∧ item2index m = Some x2i ∧
    n_items m = Some (nrows sim) ∧ ncols sim = nrows sim ∧
    ∀ a b i j, x2i !! a = Some i → x2i !! b = Some j →
      cell sim i j
      = F64.of_Z
          (let c := Z.of_nat (size (list_to_set
                                      (filter (λ u, (u, a) ∈ map i_key df ∧ (u, b) ∈ map i_key df)
                                              (map i_user df)) : gset string)) in
           if (c <? threshold self)%Z then 0%Z else c).
Proof.
  intros Hi Hd Hty Hfit.
  destruct (fit_fresh_eq exponential_decay self df features cw uninit d Hi Hd)
    as (self1 & temp1 & self2 & temp_df & aff & C & H1 & H2 & H3 & H4 & Hs & Hnd & Hel & Hrows & Heq).
  rewrite Heq in Hfit. clear Heq.
  destruct (set_index_fields self df) as (Hx & Hu & Hnu & Hni & Hth).
  destruct Hs as (Hnu2 & Hni2 & _ & Hx2 & _ & Hth2 & Hty2 & _).
  destruct (compute_coocurrence_matrix_cells _ _ _ H4)
    as (ix & nu & ni & Hix & Hnu' & Hni' & Hr & Hc & Hcell). simpl in *.
  rewrite Hnu2, Hnu in Hnu'. injection Hnu' as <-.
  rewrite Hni2, Hni in Hni'. injection Hni' as <-.
  pose proof (fit_similarity_Ok_literal _ _ _ _ _ _ _ _ _ Hfit) as Hlit.
  unfold fit_similarity in Hfit.
  rewrite decide_True in Hfit by (split; [exact Hlit|simpl; congruence]).
  injection Hfit as <- _. simpl.
  exists C, (user_index_of (map i_item df)).
  split; [done|]. split; [by rewrite Hx2|]. split; [by rewrite Hni2, Hni, Hr|].
  split; [by rewrite Hr, Hc|].
  intros a b i j Ha Hb. rewrite Hcell, threshold_mask_spec. simpl. rewrite Hth2.
  by rewrite (indexed_frame_cooccurrence df temp_df ix a b i j Hnd Hel Hrows Hix Ha Hb).
Qed.

(** X8, at the scenario fitted with raw co-occurrence. *)
Lemma fit_cooccurrence_counts_common_users_witness :
  ∃ sim x2i,
    item_similarity cooccur_model = Some sim ∧ item2index cooccur_model = Some x2i ∧
    n_items cooccur_model = Some (nrows sim) ∧ ncols sim = nrows sim ∧
    ∀ a b i j, x2i !! a = Some i → x2i !! b = Some j →
      cell sim i j
      = F64.of_Z
          (let c := Z.of_nat (size (list_to_set
                                      (filter (λ u, (u, a) ∈ map i_key scenario ∧ (u, b) ∈ map i_key scenario)
                                              (map i_user scenario)) : gset string)) in
           if (c <? threshold (unfitted COOCCUR false false))%Z then 0%Z else c).
Proof.
  apply (fit_cooccurrence_counts_common_users half_life_decay (unfitted COOCCUR false false)
           scenario no_features no_weights zeroed ∅ ∅ cooccur_model).
  - reflexivity.
  - apply lookup_empty.
  - reflexivity.
  - apply (is_ok_fit (fit_plain (unfitted COOCCUR false false) scenario)).
    vm_compute. reflexivity.
Defined.

(** ** Popularity *)

Lemma get_popularity_based_topk_rows
    (topk : ndarray → nat → bool → list (list (nat * float)))
    (self : SAR) (top_k : nat) (sort_top_k : bool) (fs : list float)
    (i2x : gmap nat string) (table : list (string * float)) (item : string) (v : float) :
  selects_cells topk →
  item_frequencies self = Some fs → index2item self = Some i2x →
  get_popularity_based_topk topk self top_k sort_top_k = Ok table →
  (item, v) ∈ table →
  ∃ i, i2x !! i = Some item ∧ v = default F64.zero (fs !! i).
Proof.
  intros Htop Hfs Hi2x H Hin. unfold get_popularity_based_topk in H.
  rewrite Hfs, Hi2x in H. simpl in H.
  apply list_elem_of_lookup in Hin as [n Hn].
  pose proof (traverse_Ok_lookup _ _ _ H n) as Hp. rewrite Hn in Hp.
  destruct (concat _ !! n) as [[i v0]|] eqn:Hc; [|done]. simpl in Hp.
  destruct (i2x !! i) as [item'|] eqn:Hitem; [|done]. injection Hp as <- <-.
  exists i. split; [done|].
  assert ((i, v0) ∈ concat (topk (frequency_row fs) top_k sort_top_k)) as Hin
    by (apply list_elem_of_lookup; by exists n).
  apply elem_of_concat in Hin as (row & Hrow & Hrows).
  apply list_elem_of_lookup in Hrows as [r Hr].
  by rewrite (Htop _ _ _ _ _ _ _ Hr Hrow).
Qed.

(** X9. [get_popularity_based_topk] on a model whose index [fit] has built:
    every row of the table is an item of the training table with, as its
    score, the number of distinct users who interacted with it (0 when that
    number is below the threshold). The selector is any function that
    returns, with each item, the score cell of that item. *)
Theorem get_popularity_based_topk_counts_users {FV}
    (topk : ndarray → nat → bool → list (list (nat * float)))
    (exponential_decay : Z → Z → Z → float) (self : SAR)
    (df : list interaction) (features : list (feature_row FV)) (cw : col_weights FV)
    (uninit : string → nat → nat → float) (d d' : disk) (m : SAR)
    (top_k : nat) (sort_top_k : bool) (table : list (string * float)) :
  selects_cells topk →
  index2item self = None →
  d !! (DATA_DIR ++ "experiment/", length features) = None →
  fit exponential_decay self df features cw false uninit d = Ok (m, d') →
  get_popularity_based_topk topk m top_k sort_top_k = Ok table →
  ∀ item v, (item, v) ∈ table →
    item ∈ map i_item df ∧
    v = F64.of_Z
          (let c := Z.of_nat (size (list_to_set (map i_user (filter (λ r, i_item r = item) df))
                                    : gset string)) in
           if (c <? threshold self)%Z then 0%Z else c).
Proof.
  intros Htop Hi Hd Hfit Hpop item v Hin.
  destruct (fit_fresh_frequencies _ _ _ _ _ _ _ _ _ Hi Hd Hfit) as (fs & Hfs & Hlen & Hcount).
  destruct (fit_fresh_inv _ _ _ _ _ _ _ _ _ Hi Hd Hfit)
    as (_ & _ & _ & _ & _ & _ & _ & _ & _ & _ & _ & _ & _ & _ & Hsm & _).
  destruct Hsm as (_ & _ & _ & _ & Him & _). simpl in Him.
  destruct (get_popularity_based_topk_rows _ _ _ _ _ _ _ _ _ Htop Hfs Him Hpop Hin)
    as (i & Hitem & ->).
  apply item_index_lookup in Hitem.
  assert (user_index_of (map i_item df) !! item = Some i) as Hx by (by apply user_index_lookup).
  split.
  - apply elem_of_unique. apply list_elem_of_lookup. by exists i.
  - by rewrite (Hcount item i Hx).
Qed.

(** X9, at the scenario model, the two most popular items asked for. *)
Lemma get_popularity_based_topk_counts_users_witness :
  get_popularity_based_topk top_k_sorted scenario_model 2 true
  = Ok [("x", F64.of_Z 2); ("y", F64.of_Z 2)] ∧
  ∀ item v,
    (item, v) ∈ [("x", F64.of_Z 2); ("y", F64.of_Z 2)] →
    item ∈ map i_item scenario ∧
    v = F64.of_Z
          (let c := Z.of_nat (size (list_to_set (map i_user (filter (λ r, i_item r = item) scenario))
                                    : gset string)) in
           if (c <? threshold (unfitted JACCARD false false))%Z then 0%Z else c).
Proof.
  assert (get_popularity_based_topk top_k_sorted scenario_model 2 true
          = Ok [("x", F64.of_Z 2); ("y", F64.of_Z 2)]) as Hpop by (vm_compute; reflexivity).
  split; [exact Hpop|].
  apply (get_popularity_based_topk_counts_users top_k_sorted half_life_decay
           (unfitted JACCARD false false) scenario no_features no_weights zeroed ∅ ∅
           scenario_model 2 true).
  - exact top_k_sorted_selects_cells.
  - reflexivity.
  - apply lookup_empty.
  - apply (is_ok_fit (fit_plain (unfitted JACCARD false false) scenario)).
    vm_compute. reflexivity.
  - exact Hpop.
Defined.

(** ** Files *)

(** X10. [save_to_file] then [load_file]: the files are written under the
    directory and the model's [n_items]; reading them back under that
    number restores the feature similarity matrix and the two item maps,
    whatever model reads them; every other entry of the disk is untouched. *)
Theorem save_to_file_load_file (self other : SAR) (path : string) (d d' : disk)
    (df_ratings : list interaction) :
  save_to_file self path d = Ok d' →
  ∃ ni self',
    n_items self = Some ni ∧
    load_file other path ni df_ratings d' = Ok self' ∧
    features_sim_matrix self' = features_sim_matrix self ∧
    index2item self' = index2item self ∧
    item2index self' = item2index self ∧
    (∀ k, k ≠ (path, ni) → d' !! k = d !! k).
Proof.
  unfold save_to_file. intros H.
  apply bind_Ok in H as (ni & Hni & H). apply attr_Ok in Hni.
  apply bind_Ok in H as (fsm & Hfsm & H). apply attr_Ok in Hfsm.
  apply bind_Ok in H as (i2x & Hi2x & H). apply attr_Ok in Hi2x.
  apply bind_Ok in H as (x2i & Hx2i & H). apply attr_Ok in Hx2i.
  injection H as <-.
  exists ni. unfold load_file. rewrite lookup_insert_eq.
  eexists. split; [done|]. split; [reflexivity|]. simpl.
  repeat split; try done.
  intros k Hk. by rewrite lookup_insert_ne.
Qed.

(** X10, at a model indexed on the scenario, saved beside the demo files. *)
Lemma save_to_file_load_file_witness :
  let self := set_features_sim_matrix (Some (Np.zeros 3 3))
                (set_index (unfitted "custom" false false) scenario) in
  let d' := <[("elsewhere/", 3) :=
                mk_saved_files (Np.zeros 3 3)
                  (Pd.dict (Pd.enumerate (Pd.unique (map i_item scenario))))
                  (user_index_of (map i_item scenario))]> demo_disk in
  ∃ ni self',
    n_items self = Some ni ∧
    load_file (unfitted JACCARD false false) "elsewhere/" ni thumbs d' = Ok self' ∧
    features_sim_matrix self' = features_sim_matrix self ∧
    index2item self' = index2item self ∧
    item2index self' = item2index self ∧
    (∀ k, k ≠ ("elsewhere/", ni) → d' !! k = demo_disk !! k).
Proof.
  intros self d'.
  apply (save_to_file_load_file self (unfitted JACCARD false false)
           "elsewhere/" demo_disk d' thumbs).
  reflexivity.
Defined.

(** X11. [fit] with [demo=True] reads the demo directory before anything else:
    when it holds no files for the size of the feature table, [fit] raises
    [FileNotFoundError] whatever the ratings table and the model. *)
Theorem fit_demo_missing_files {FV} (exponential_decay : Z → Z → Z → float) (self : SAR)
    (df : list interaction) (features : list (feature_row FV)) (cw : col_weights FV)
    (uninit : string → nat → nat → float) (d : disk) :
  d !! (DATA_DIR ++ "demo/", length features) = None →
  fit exponential_decay self df features cw true uninit d
  = Raise (FileNotFoundError (DATA_DIR ++ "demo/")).
Proof.
  intros Hd. unfold fit, fit_index. simpl. unfold load_file. by rewrite Hd.
Qed.

(** X11, at the scenario with an empty disk. *)
Lemma fit_demo_missing_files_witness :
  fit half_life_decay (unfitted JACCARD false false) scenario no_features no_weights true zeroed ∅
  = Raise (FileNotFoundError (DATA_DIR ++ "demo/")).
Proof.
  apply (fit_demo_missing_files half_life_decay (unfitted JACCARD false false) scenario
           no_features no_weights zeroed ∅).
  apply lookup_empty.
Defined.

Lemma fit_index_loaded (self : SAR) (df : list interaction) (n : nat) (demo : bool)
    (d : disk) (self' : SAR) (load : bool) (path : string) :
  fit_index self df n demo d = Ok (self', (load, path)) →
  (demo = true ∨ is_Some (d !! (DATA_DIR ++ "experiment/", n))) →
  load = true ∧
  path = (if demo then DATA_DIR ++ "demo/" else DATA_DIR ++ "experiment/") ∧
  ∃ files, d !! (path, n) = Some files ∧
           features_sim_matrix self' = Some (file_item_feature_similarity files) ∧
           index2item self' = Some (file_index2item files) ∧
           item2index self' = Some (file_item2index files) ∧
           user2index self' = Some (user_index_of (map i_user df)) ∧
           n_items self' = Some (size (file_index2item files)) ∧
           similarity_type self' = similarity_type self.
Proof.
  unfold fit_index. intros H Hload.
  destruct demo.
  - apply bind_Ok in H as (s & Hs & H). injection H as <- <- <-.
    unfold load_file in Hs. destruct (d !! _) as [files|] eqn:E; [|done].
    injection Hs as <-. split; [done|]. split; [done|]. by exists files.
  - destruct Hload as [?|Hsome]; [done|].
    rewrite bool_decide_eq_true_2 in H by done.
    apply bind_Ok in H as (s & Hs & H). injection H as <- <- <-.
    unfold load_file in Hs. destruct (d !! _) as [files|] eqn:E; [|done].
    injection Hs as <-. split; [done|]. split; [done|]. by exists files.
Qed.

(** X12. [fit] with files on disk for the size of the feature table (or with
    [demo=True]): the item index and the feature similarity matrix of the
    fitted model are the stored ones, not rebuilt from the tables, and
    nothing is written, in every similarity mode. *)
Theorem fit_loaded_uses_files {FV} (exponential_decay : Z → Z → Z → float) (self : SAR)
    (df : list interaction) (features : list (feature_row FV)) (cw : col_weights FV)
    (demo : bool) (uninit : string → nat → nat → float) (d d' : disk) (m : SAR) :
  fit exponential_decay self df features cw demo uninit d = Ok (m, d') →
  (demo = true ∨ is_Some (d !! (DATA_DIR ++ "experiment/", length features))) →
  d' = d ∧
  ∃ files,
    d !! (if demo then DATA_DIR ++ "demo/" else DATA_DIR ++ "experiment/", length features)
    = Some files ∧
    features_sim_matrix m = Some (file_item_feature_similarity files) ∧
    index2item m = Some (file_index2item files) ∧
    item2index m = Some (file_item2index files) ∧
    n_items m = Some (size (file_index2item files)).
Proof.
  intros H Hload. unfold fit in H.
  apply bind_Ok in H as ([self1 [load path]] & Hidx & H).
  apply bind_Ok in H as ([self2 temp_df] & Htemp & H).
  apply bind_Ok in H as ([self3 temp_df'] & Hunity & H).
  apply bind_Ok in H as (aff & _ & H).
  apply bind_Ok in H as (c & Hc & H).
  destruct (fit_index_loaded _ _ _ _ _ _ _ _ Hidx Hload)
    as (-> & -> & files & Hfile & Hfsm & Hi2x & Hx2i & _ & Hni & _).
  pose proof (fit_temp_df_same _ _ _ _ _ Htemp) as S12.
  pose proof (fit_unity_same _ _ _ _ _ Hunity) as S23.
  destruct (same_catalogue_trans _ _ _ S12 S23) as (_ & Hf13 & _).
  pose proof (same_index_trans _ _ _ (fit_temp_df_same_index _ _ _ _ _ Htemp)
                (fit_unity_same_index _ _ _ _ _ Hunity)) as (_ & Hni3 & _ & Hx3 & Hi3 & _).
  set (self5 := set_item_frequencies _ _) in H.
  assert (d' = d ∧ features_sim_matrix m = features_sim_matrix self5) as [-> Hfm].
  { clear -H. unfold fit_similarity in H. repeat case_decide; try by injection H as <- <-.
    - apply bind_Ok in H as (w & Hw & H).
      apply bind_Ok in H as ([self1 d1] & Hblk & H). injection Hblk as <- <-.
      apply bind_Ok in H as (sim & Hsim & H). apply bind_Ok in H as (fsm & Hfsm & H).
      apply bind_Ok in H as (sim' & Hadd & H). by injection H as <- <-.
    - done. }
  destruct (fit_similarity_keeps _ _ _ _ _ _ _ _ _ _ H) as ((_ & Hnim & _ & Hxm & Him & _) & _).
  split; [done|]. exists files. split; [done|].
  subst self5. simpl in *.
  split; [by rewrite Hfm, Hf13|]. split; [by rewrite Him, Hi3|].
  split; [by rewrite Hxm, Hx3|]. by rewrite Hnim, Hni3.
Qed.

(** X12, at the scenario fitted in custom mode from the demo directory. *)
Lemma fit_loaded_uses_files_witness :
  disk_of demo_fit = demo_disk ∧
  ∃ files,
    demo_disk !! (if true then DATA_DIR ++ "demo/" else DATA_DIR ++ "experiment/", length cuisines)
    = Some files ∧
    features_sim_matrix (model_of demo_fit) = Some (file_item_feature_similarity files) ∧
    index2item (model_of demo_fit) = Some (file_index2item files) ∧
    item2index (model_of demo_fit) = Some (file_item2index files) ∧
    n_items (model_of demo_fit) = Some (size (file_index2item files)).
Proof.
  apply (fit_loaded_uses_files half_life_decay (unfitted "custom" false false) scenario
           cuisines cuisine_weights true zeroed demo_disk (disk_of demo_fit) (model_of demo_fit)).
  - apply (is_ok_fit demo_fit). vm_compute. reflexivity.
  - by left.
Defined.

(** ** Feature similarity *)

Lemma foldl_sim_write_Raise {FV} (self : SAR) (col_sim : string) (f : FV → FV → float)
    (W : list (feature_row FV * feature_row FV)) (e : exn) :
  foldl (sim_write self col_sim f) (Raise e) W = Raise e.
Proof. induction W as [|p W IH]; [done|]. simpl. exact IH. Qed.

Lemma foldl_sim_write_unknown {FV} (self : SAR) (x2i : gmap string nat) (col_sim : string)
    (f : FV → FV → float) (W : list (feature_row FV * feature_row FV))
    (acc : result ndarray) (q : feature_row FV * feature_row FV) :
  item2index self = Some x2i →
  q ∈ W → x2i !! f_itemid q.1 = None →
  is_ok (foldl (sim_write self col_sim f) acc W) = false.
Proof.
  intros Hx Hq Hnone. revert acc. induction W as [|p W IH]; intros acc.
  - by apply not_elem_of_nil in Hq.
  - apply elem_of_cons in Hq as [<-|Hq]; [|by apply IH].
    simpl. assert (∃ e, sim_write self col_sim f acc q = Raise e) as [e ->].
    { unfold sim_write. destruct acc as [M|e]; [|by eexists]. simpl.
      rewrite Hx. simpl. unfold lookup_key. rewrite Hnone. by eexists. }
    by rewrite foldl_sim_write_Raise.
Qed.

(** [make_sim_matrix] looks every item id of the feature table up in
    [item2index]: an id the index does not hold makes the call fail. *)
Lemma make_sim_matrix_unknown_item {FV} (self : SAR) (x2i : gmap string nat)
    (features : list (feature_row FV)) (col_sim : string) (f : FV → FV → float)
    (uninit : nat → nat → float) (p : feature_row FV) :
  item2index self = Some x2i →
  p ∈ features → x2i !! f_itemid p = None →
  is_ok (make_sim_matrix self features col_sim f uninit) = false.
Proof.
  intros Hx Hp Hnone. unfold make_sim_matrix.
  apply (foldl_sim_write_unknown self x2i col_sim f _ _ (p, p) Hx); [|done].
  apply list_elem_of_In, in_prod; by apply list_elem_of_In.
Qed.

Lemma compute_feature_sim_matrix_unknown_item {FV} (self : SAR) (x2i : gmap string nat)
    (cw : col_weights FV) (features : list (feature_row FV))
    (uninit : string → nat → nat → float) (p : feature_row FV) (col : string)
    (wf : float * (FV → FV → float)) :
  item2index self = Some x2i →
  p ∈ features → x2i !! f_itemid p = None →
  (col, wf) ∈ cw_features cw → col ≠ "ratings" →
  is_ok (compute_feature_sim_matrix self cw features uninit) = false.
Proof.
  intros Hx Hp Hnone Hcol Hne. unfold compute_feature_sim_matrix.
  generalize (Ok (Np.zeros (length features) (length features))).
  induction (cw_features cw) as [|c cols IH]; intros acc.
  - by apply not_elem_of_nil in Hcol.
  - apply elem_of_cons in Hcol as [<-|Hcol]; [|by apply IH].
    simpl. destruct wf as [w f].
    match goal with |- is_ok (foldl ?G ?a cols) = false =>
      assert (∃ e, a = Raise e) as [e ->] end.
    { destruct acc as [M|e]; [|by eexists]. simpl.
      rewrite decide_False by done.
      pose proof (make_sim_matrix_unknown_item self x2i features col f (uninit col) p Hx Hp Hnone).
      destruct (make_sim_matrix _ _ _ _ _); [done|by eexists]. }
    clear. induction cols as [|c cols IH]; [done|]. simpl. exact IH.
Qed.

(** X13. [fit] in custom mode, building the index itself, with at least one
    feature column in [col_weights]: when the feature table names an item
    the ratings table does not hold, [fit] fails (the item has no index for
    the cells of the feature similarity matrix). *)
Theorem fit_custom_unknown_feature_item {FV} (exponential_decay : Z → Z → Z → float)
    (self : SAR) (df : list interaction) (features : list (feature_row FV))
    (cw : col_weights FV) (uninit : string → nat → nat → float) (d : disk)
    (p : feature_row FV) (col : string) (wf : float * (FV → FV → float)) :
  index2item self = None →
  d !! (DATA_DIR ++ "experiment/", length features) = None →
  similarity_type self = "custom" →
  (col, wf) ∈ cw_features cw → col ≠ "ratings" →
  p ∈ features → f_itemid p ∉ map i_item df →
  is_ok (fit exponential_decay self df features cw false uninit d) = false.
Proof.
  intros Hi Hd Hty Hcol Hne Hp Hnin.
  destruct (fit_fresh_eq exponential_decay self df features cw uninit d Hi Hd)
    as (self1 & temp1 & self2 & temp_df & aff & C & H1 & H2 & H3 & H4 & Hs & _ & _ & _ & Hfit).
  rewrite Hfit. clear Hfit.
  set (self4 := set_item_frequencies _ _).
  destruct Hs as (_ & _ & _ & Hx2 & _ & _ & Hty2 & _).
  assert (similarity_type self4 = "custom") as Hty4 by (subst self4; simpl; by rewrite Hty2).
  assert (item2index self4 = Some (user_index_of (map i_item df))) as Hx4
    by (subst self4; simpl; by rewrite Hx2).
  assert (user_index_of (map i_item df) !! f_itemid p = None) as Hnone.
  { destruct (user_index_of _ !! _) as [n|] eqn:E; [|done].
    exfalso. apply Hnin. apply user_index_lookup in E.
    apply elem_of_unique. apply list_elem_of_lookup. by exists n. }
  assert (∀ c, c ≠ "custom" → ¬ similarity_type_is self4 c) as Hother.
  { intros c Hc [_ Hc']. rewrite Hty4 in Hc'. by subst. }
  unfold fit_similarity.
  rewrite !decide_False by (by apply Hother).
  case_decide as Hcustom; [|done].
  destruct (cw_ratings cw) as [w|]; [|done]. simpl.
  set (self5 := set_item_similarity_sparse _ _).
  pose proof (compute_feature_sim_matrix_unknown_item self5 _ cw features uninit p col wf
                Hx4 Hp Hnone Hcol Hne) as Hfail.
  by destruct (compute_feature_sim_matrix self5 cw features uninit).
Qed.

(** X13, at the likes-and-dislikes table, which has no item z, with the cuisine table, which has. *)
Lemma fit_custom_unknown_feature_item_witness :
  is_ok (fit half_life_decay (unfitted "custom" false false) thumbs cuisines cuisine_weights
           false zeroed ∅) = false.
Proof.
  apply (fit_custom_unknown_feature_item half_life_decay (unfitted "custom" false false) thumbs
           cuisines cuisine_weights zeroed ∅
           (mk_feature_row "z" (λ _, "greek")) "cuisine" (F64.one, same_value)).
  - reflexivity.
  - apply lookup_empty.
  - reflexivity.
  - apply list_elem_of_here.
  - discriminate.
  - apply list_elem_of_here.
  - vm_compute. intros H. repeat (apply elem_of_cons in H as [H|H]; [discriminate|]).
    by apply not_elem_of_nil in H.
Defined.

Lemma compute_feature_sim_matrix_shape {FV} (self : SAR) (cw : col_weights FV)
    (features : list (feature_row FV)) (uninit : string → nat → nat → float) (M : ndarray) :
  compute_feature_sim_matrix self cw features uninit = Ok M →
  nrows M = length features ∧ ncols M = length features.
Proof.
  unfold compute_feature_sim_matrix. revert M.
  induction (cw_features cw) as [|[col [w f]] cols IH] using rev_ind; intros M H.
  - by injection H as <-.
  - rewrite foldl_app in H. simpl in H.
    apply bind_Ok in H as (M1 & HM1 & H). destruct (IH _ HM1) as [Hr Hc].
    case_decide; [by injection H as <-|].
    apply bind_Ok in H as (sim & _ & H).
    unfold Np.iadd in H. case_decide; [|done]. by injection H as <-.
Qed.

(** X14. [fit] in custom mode, building the index itself: on success the
    feature similarity matrix, computed from the feature table, and the two
    item maps are written to the experiment directory under the number of
    items of the catalogue; and the feature table has as many rows as the
    catalogue has items, or a single row (else the blend of the two
    matrices does not broadcast). *)
Theorem fit_custom_saves {FV} (exponential_decay : Z → Z → Z → float)
    (self : SAR) (df : list interaction) (features : list (feature_row FV))
    (cw : col_weights FV) (uninit : string → nat → nat → float) (d d' : disk) (m : SAR) :
  index2item self = None →
  d !! (DATA_DIR ++ "experiment/", length features) = None →
  similarity_type self = "custom" →
  fit exponential_decay self df features cw false uninit d = Ok (m, d') →
  ∃ ni fsm i2x x2i,
    n_items m = Some ni ∧ features_sim_matrix m = Some fsm ∧
    index2item m = Some i2x ∧ item2index m = Some x2i ∧
    d' = <[(DATA_DIR ++ "experiment/", ni) := mk_saved_files fsm i2x x2i]> d ∧
    nrows fsm = length features ∧ ncols fsm = length features ∧
    (length features = ni ∨ length features = 1).
Proof.
  intros Hi Hd Hty Hfit.
  destruct (fit_fresh_eq exponential_decay self df features cw uninit d Hi Hd)
    as (self1 & temp1 & self2 & temp_df & aff & C & H1 & H2 & H3 & H4 & Hs & _ & _ & _ & Heq).
  rewrite Heq in Hfit. clear Heq.
  set (self4 := set_item_frequencies _ _) in Hfit.
  destruct Hs as (_ & Hni2 & _ & Hx2 & Hi2 & _ & Hty2 & _).
  assert (similarity_type self4 = "custom") as Hty4 by (subst self4; simpl; by rewrite Hty2).
  destruct (compute_coocurrence_matrix_cells _ _ _ H4)
    as (ix & nu & ni & _ & _ & Hni & Hr & Hc & _). simpl in Hni.
  assert (∀ c, c ≠ "custom" → ¬ similarity_type_is self4 c) as Hother.
  { intros c Hc' [_ Hc'']. rewrite Hty4 in Hc''. by subst. }
  unfold fit_similarity in Hfit.
  rewrite !decide_False in Hfit by (by apply Hother).
  case_decide as Hcustom; [|done].
  apply bind_Ok in Hfit as (w & Hw & H).
  apply bind_Ok in H as ([self6 d1] & Hblk & H).
  apply bind_Ok in Hblk as (fsm & Hcomp & Hblk).
  apply bind_Ok in Hblk as (d2 & Hsave & Hblk). injection Hblk as <- <-.
  simpl in H.
  apply bind_Ok in H as (sim' & Hadd & H). injection H as <- <-. simpl.
  unfold save_to_file in Hsave. simpl in Hsave.
  apply bind_Ok in Hsave as (ni' & Hni' & Hsave). apply attr_Ok in Hni'.
  apply bind_Ok in Hsave as (i2x & Hi2x & Hsave). apply attr_Ok in Hi2x.
  apply bind_Ok in Hsave as (x2i & Hx2i & Hsave). apply attr_Ok in Hx2i.
  injection Hsave as <-.
  rewrite Hni in Hni'. injection Hni' as <-.
  destruct (compute_feature_sim_matrix_shape _ _ _ _ _ Hcomp) as [Hfr Hfc].
  exists ni, fsm, i2x, x2i. repeat (split; [done|]).
  unfold Np.iadd in Hadd. case_decide as Hshape; [|done]. simpl in Hshape.
  rewrite Hfr, Hr in Hshape. tauto.
Qed.

(** X14, at the scenario fitted in custom mode with the cuisine table. *)
Lemma fit_custom_saves_witness :
  ∃ ni fsm i2x x2i,
    n_items (model_of custom_fit) = Some ni ∧
    features_sim_matrix (model_of custom_fit) = Some fsm ∧
    index2item (model_of custom_fit) = Some i2x ∧ item2index (model_of custom_fit) = Some x2i ∧
    disk_of custom_fit = <[(DATA_DIR ++ "experiment/", ni) := mk_saved_files fsm i2x x2i]> ∅ ∧
    nrows fsm = length cuisines ∧ ncols fsm = length cuisines ∧
    (length cuisines = ni ∨ length cuisines = 1).
Proof.
  apply (fit_custom_saves half_life_decay (unfitted "custom" false false) scenario
           cuisines cuisine_weights zeroed ∅ (disk_of custom_fit) (model_of custom_fit)).
  - reflexivity.
  - apply lookup_empty.
  - reflexivity.
  - apply (is_ok_fit custom_fit). vm_compute. reflexivity.
Defined.

Lemma foldl_sim_write_inrange {FV} (self : SAR) (x2i : gmap string nat) (col_sim : string)
    (f : FV → FV → float) (W : list (feature_row FV * feature_row FV)) (M0 M : ndarray) :
  item2index self = Some x2i →
  foldl (sim_write self col_sim f) (Ok M0) W = Ok M →
  ∀ q, q ∈ W → ∃ a b, x2i !! f_itemid q.1 = Some a ∧ x2i !! f_itemid q.2 = Some b ∧
                      a < nrows M0 ∧ b < ncols M0.
Proof.
  intros Hx. revert M. induction W as [|p W IH] using rev_ind; intros M H q Hq.
  - by apply not_elem_of_nil in Hq.
  - rewrite foldl_app in H. simpl in H. unfold sim_write at 1 in H.
    apply bind_Ok in H as (M1 & HM1 & H). rewrite Hx in H. simpl in H.
    apply elem_of_app in Hq as [Hq|Hq]; [by eapply IH|].
    apply list_elem_of_singleton in Hq as ->.
    apply bind_Ok in H as (i1 & Hi1 & H). apply bind_Ok in H as (i2 & Hi2 & H).
    unfold lookup_key in Hi1, Hi2.
    destruct (x2i !! f_itemid p.1) as [n1|] eqn:E1; [|done]. injection Hi1 as <-.
    destruct (x2i !! f_itemid p.2) as [n2|] eqn:E2; [|done]. injection Hi2 as <-.
    unfold Np.set_cell in H. case_decide as Hb; [|done].
    destruct (sim_fold_cells self x2i col_sim f Hx _ _ _ HM1) as (Hr & Hc & _).
    exists n1, n2. rewrite <- Hr, <- Hc. tauto.
Qed.

(** X15. [make_sim_matrix] on a feature table with one row per item id, under
    an index that gives distinct items distinct indices: the matrix is
    square of the size of the table, every item of the table has an index
    below that size, and the cell of two items holds the similarity function
    applied to their feature values, rounded to float16. *)
Theorem make_sim_matrix_cells {FV} (self : SAR) (x2i : gmap string nat)
    (features : list (feature_row FV)) (col_sim : string) (f : FV → FV → float)
    (uninit : nat → nat → float) (M : ndarray) :
  item2index self = Some x2i →
  NoDup (map f_itemid features) →
  (∀ a b n, x2i !! a = Some n → x2i !! b = Some n → a = b) →
  make_sim_matrix self features col_sim f uninit = Ok M →
  nrows M = length features ∧ ncols M = length features ∧
  ∀ p q, p ∈ features → q ∈ features →
    ∃ a b, x2i !! f_itemid p = Some a ∧ x2i !! f_itemid q = Some b ∧
           a < length features ∧ b < length features ∧
           cell M a b = F64.round16 (f (f_value p col_sim) (f_value q col_sim)).
Proof.
  intros Hx Hnd Hinj HM. unfold make_sim_matrix in HM.
  destruct (sim_fold_cells self x2i col_sim f Hx _ _ _ HM) as (Hr & Hc & Hcell).
  simpl in Hr, Hc. split; [done|]. split; [done|].
  intros p q Hp Hq.
  destruct (foldl_sim_write_inrange self x2i col_sim f _ _ _ Hx HM (p, q))
    as (a & b & Ha & Hb & Hla & Hlb).
  { apply list_elem_of_In, in_prod; by apply list_elem_of_In. }
  simpl in *. exists a, b. repeat (split; [done|]).
  rewrite Hcell.
  rewrite (filter_list_prod_key (λ x : feature_row FV, default 0 (x2i !! f_itemid x)) a b).
  rewrite last_list_prod.
  assert (∀ r n, r ∈ features → x2i !! f_itemid r = Some n →
            filter (λ x, default 0 (x2i !! f_itemid x) = n) features = [r]) as Hone.
  { intros r n Hrin Hn.
    rewrite (filter_ext_in _ (λ x, f_itemid x = f_itemid r)).
    - destruct (filter_key_singleton f_itemid features (f_itemid r) Hnd) as (r' & Hf & _ & _).
      { apply list_elem_of_fmap. by exists r. }
      rewrite Hf. f_equal.
      assert (r ∈ filter (λ x, f_itemid x = f_itemid r) features) as Hin
        by (by apply list_elem_of_filter).
      rewrite Hf in Hin. by apply list_elem_of_singleton in Hin.
    - intros x Hx'.
      destruct (foldl_sim_write_inrange self x2i col_sim f _ _ _ Hx HM (x, x))
        as (c & _ & Hc' & _).
      { apply list_elem_of_In, in_prod; by apply list_elem_of_In. }
      simpl in Hc'. rewrite Hc'. simpl. split.
      + intros ->. by eapply Hinj.
      + intros Heq. rewrite Heq in Hc'. congruence. }
  rewrite (Hone p a Hp Ha), (Hone q b Hq Hb). done.
Qed.

(** X15, at the cuisine table under the index of the scenario. *)
Lemma make_sim_matrix_cells_witness :
  let self := set_index (unfitted "custom" false false) scenario in
  let x2i := user_index_of (map i_item scenario) in
  let M := array_of (make_sim_matrix self cuisines "cuisine" same_value (zeroed "cuisine")) in
  nrows M = length cuisines ∧ ncols M = length cuisines ∧
  ∀ p q, p ∈ cuisines → q ∈ cuisines →
    ∃ a b, x2i !! f_itemid p = Some a ∧ x2i !! f_itemid q = Some b ∧
           a < length cuisines ∧ b < length cuisines ∧
           cell M a b = F64.round16 (same_value (f_value p "cuisine") (f_value q "cuisine")).
Proof.
  intros self x2i M.
  apply (make_sim_matrix_cells self x2i cuisines "cuisine" same_value (zeroed "cuisine") M).
  - reflexivity.
  - apply (bool_decide_eq_true_1 (NoDup (map f_itemid cuisines))). vm_compute. reflexivity.
  - apply user_index_inj.
  - apply is_ok_array. vm_compute. reflexivity.
Defined.

(** ** Scoring and recommending *)

Lemma known_ids_length (u2i : gmap string nat) (users : list string) :
  existsb (λ o, bool_decide (o = None)) (map (λ u, u2i !! u) users) = false →
  length (omap id (map (λ u, u2i !! u) users)) = length users.
Proof.
  induction users as [|x l IH]; [done|]. intros Hex. simpl in Hex.
  apply orb_false_iff in Hex as [Hx Hex].
  destruct (u2i !! x) as [n|] eqn:Hx'; [|done]. simpl. rewrite Hx'. simpl. f_equal. by apply IH.
Qed.

Lemma score_shape_inv (self : SAR) (test : list query) (rs nz : bool) (a sim : ndarray) :
  score self test rs nz = Ok a → item_similarity self = Some sim →
  nrows a = length (Pd.unique (map q_user test)) ∧ ncols a = ncols sim.
Proof.
  unfold score. intros H Hsim.
  apply bind_Ok in H as (u2i & Hu & H).
  destruct (existsb _ _) eqn:Hex; [done|].
  apply bind_Ok in H as (aff & Haff & H).
  apply bind_Ok in H as (rows & Hrows & H).
  apply bind_Ok in H as (sim' & Hsim' & H). apply attr_Ok in Hsim'.
  rewrite Hsim in Hsim'. injection Hsim' as <-.
  apply bind_Ok in H as (raw & Hraw & H).
  apply bind_Ok in H as (pre & Hpre & H).
  unfold Sp.take_rows in Hrows. destruct (forallb _ _); [|done]. injection Hrows as <-.
  unfold Sp.dot in Hraw. case_decide; [|done]. injection Hraw as <-.
  assert (nrows pre = length (Pd.unique (map q_user test)) ∧ ncols pre = ncols sim) as [Hr Hc].
  { rewrite <- (known_ids_length u2i _ Hex).
    destruct rs; [|by injection Hpre as <-].
    unfold Sp.add_to_dense in Hpre. case_decide; [|done]. by injection Hpre as <-. }
  destruct nz; [|by injection H as <-].
  destruct (unity_user_affinity self) as [unity|]; [|done].
  apply bind_Ok in H as (urows & _ & H). apply bind_Ok in H as (us & _ & H).
  destruct (item_similarity_sparse self); [done|].
  apply bind_Ok in H as (q & Hq & H). injection H as <-. simpl.
  unfold Np.divide in Hq. case_decide; [|done]. by injection Hq as <-.
Qed.

(** X16. [score], whatever the flags: the matrix it returns has one row per
    distinct user of the request, not one per row of the request, and one
    column per column of the item similarity. *)
Theorem score_shape (self : SAR) (test : list query) (remove_seen normalize : bool)
    (scores similarity : ndarray) :
  score self test remove_seen normalize = Ok scores →
  item_similarity self = Some similarity →
  nrows scores = length (Pd.unique (map q_user test)) ∧
  nrows scores = size (list_to_set (map q_user test) : gset string) ∧
  ncols scores = ncols similarity.
Proof.
  intros H Hsim. destruct (score_shape_inv _ _ _ _ _ _ H Hsim) as [Hr Hc].
  split; [done|]. split; [|done]. by rewrite Hr, unique_length_distinct.
Qed.

(** X16, at the normalised scenario model, for a request of three rows and two users. *)
Lemma score_shape_witness :
  let test := [mk_query "B" "x"; mk_query "A" "y"; mk_query "B" "z"] in
  let scores := array_of (score scenario_model_normalized test true true) in
  let similarity := default (Np.zeros 0 0) (item_similarity scenario_model_normalized) in
  nrows scores = length (Pd.unique (map q_user test)) ∧
  nrows scores = size (list_to_set (map q_user test) : gset string) ∧
  ncols scores = ncols similarity.
Proof.
  intros test scores similarity.
  apply (score_shape scenario_model_normalized test true true scores similarity).
  - apply is_ok_array. vm_compute. reflexivity.
  - apply option_default_Some. vm_compute. reflexivity.
Defined.

Lemma add_neg_inf_cases (r : float) :
  F64.add r F64.neg_inf = F64.neg_inf ∨ F64.isnan (F64.add r F64.neg_inf) = true.
Proof. destruct r as [| [] | |]; simpl; auto. Qed.

(** X17. [recommend_k_items]: every row of the table names a user of the
    request and an item of the index, and carries the cell of [score] for
    that user (by position among the distinct users of the request) and
    that item; no row has the score -inf or NaN. The selector is any
    function that returns, with each item, the score cell of that item. *)
Theorem recommend_k_items_rows
    (topk : ndarray → nat → bool → list (list (nat * float)))
    (self : SAR) (test : list query) (top_k : nat) (sort_top_k remove_seen normalize : bool)
    (i2x : gmap nat string) (table : list prediction) :
  selects_cells topk →
  index2item self = Some i2x →
  recommend_k_items topk self test top_k sort_top_k remove_seen normalize = Ok table →
  ∃ scores,
    score self test remove_seen normalize = Ok scores ∧
    ∀ row, row ∈ table →
      ∃ k u i,
        p_user row = Some u ∧ Pd.unique (map q_user test) !! k = Some u ∧
        i2x !! i = Some (p_item row) ∧
        p_score row = cell scores k i ∧
        p_score row ≠ F64.neg_inf ∧ F64.isnan (p_score row) = false.
Proof.
  intros Htop Hi H. unfold recommend_k_items in H.
  apply bind_Ok in H as (scores & Hscores & H).
  apply bind_Ok in H as (df & Hdf & H). injection H as <-.
  exists scores. split; [done|]. intros row Hrow.
  unfold replace_dropna in Hrow. apply list_elem_of_filter in Hrow as [[Hne Hnan] Hrow].
  destruct (result_table_rows _ _ _ _ _ _ Hi Hdf Hrow) as (r & toprow & i & Hr & Ht & Hiv & Hitem).
  fmapify_in Hr. apply list_lookup_fmap_Some in Hr as (u & Hu & Hk).
  exists r, u, i. repeat split; try done.
  by apply (Htop _ _ _ _ _ _ _ Ht Hiv).
Qed.

(** X17, at the scenario model, one item per user asked for. *)
Lemma recommend_k_items_rows_witness :
  let test := [mk_query "B" "x"; mk_query "A" "y"] in
  ∃ scores,
    score scenario_model test true false = Ok scores ∧
    ∀ row, row ∈ [mk_prediction (Some "B") "y" (F64.div (F64.of_Z 4) (F64.of_Z 3));
                  mk_prediction (Some "A") "z" (F64.div (F64.of_Z 5) (F64.of_Z 2))] →
      ∃ k u i,
        p_user row = Some u ∧ Pd.unique (map q_user test) !! k = Some u ∧
        Pd.dict (Pd.enumerate ["x"; "y"; "z"]) !! i = Some (p_item row) ∧
        p_score row = cell scores k i ∧
        p_score row ≠ F64.neg_inf ∧ F64.isnan (p_score row) = false.
Proof.
  intros test.
  apply (recommend_k_items_rows top_k_sorted scenario_model test 1 true true false).
  - exact top_k_sorted_selects_cells.
  - vm_compute. reflexivity.
  - vm_compute. reflexivity.
Defined.

(** X18. [recommend_k_items] with [remove_seen=True] and without
    normalisation: no row of the table pairs a user with an item for which
    the training affinity of that user is stored and strictly positive.
    (The masked cell is -inf, or NaN where the raw score was +inf or NaN,
    and both are dropped.) The index2item and item2index maps are inverse,
    as [set_index] builds them. *)
Theorem recommend_k_items_novel
    (topk : ndarray → nat → bool → list (list (nat * float)))
    (self : SAR) (test : list query) (top_k : nat) (sort_top_k : bool)
    (u2i x2i : gmap string nat) (i2x : gmap nat string) (affinity : csr)
    (table : list prediction) :
  selects_cells topk →
  user2index self = Some u2i → item2index self = Some x2i → index2item self = Some i2x →
  (∀ i x, i2x !! i = Some x → x2i !! x = Some i) →
  user_affinity self = Some affinity →
  recommend_k_items topk self test top_k sort_top_k true false = Ok table →
  ∀ row u n i a,
    row ∈ table → p_user row = Some u →
    u2i !! u = Some n → x2i !! p_item row = Some i →
    stored affinity n i = Some a → F64.positive a = false.
Proof.
  intros Htop Hu Hx Hi Hinv Haff H row u n i a Hrow Hpu Hn Hitem Ha.
  destruct (F64.positive a) eqn:Hpos; [exfalso|done].
  unfold recommend_k_items in H.
  apply bind_Ok in H as (scores & Hscores & H).
  apply bind_Ok in H as (df & Hdf & H). injection H as <-.
  unfold replace_dropna in Hrow. apply list_elem_of_filter in Hrow as [[Hne Hnan] Hrow].
  destruct (result_table_rows _ _ _ _ _ _ Hi Hdf Hrow) as (r & toprow & i' & Hr & Ht & Hiv & Hit).
  fmapify_in Hr. apply list_lookup_fmap_Some in Hr as (u' & Hu' & Hk).
  rewrite Hpu in Hu'. injection Hu' as <-.
  apply Hinv in Hit. rewrite Hitem in Hit. injection Hit as <-.
  pose proof (Htop _ _ _ _ _ _ _ Ht Hiv) as Hcell.
  destruct (score_false_inv _ _ _ _ Hscores)
    as (u2i' & aff' & rows & sim & raw & Hu2 & Hex & Haff' & Hrows & Hsim & Hraw & Hmask).
  rewrite Hu in Hu2. injection Hu2 as <-.
  rewrite Haff in Haff'. injection Haff' as <-.
  unfold Sp.add_to_dense in Hmask. case_decide; [|done]. injection Hmask as <-.
  simpl in Hcell.
  rewrite (take_rows_stored _ _ _ _ _ Hrows) in Hcell.
  rewrite (known_ids_lookup _ _ _ _ _ Hex Hk Hn), Ha in Hcell. simpl in Hcell.
  rewrite mul_neg_inf_positive in Hcell by done.
  destruct (add_neg_inf_cases (cell raw r i)) as [Hinf|Hnan'].
  - apply Hne. by rewrite Hcell.
  - rewrite Hcell in Hnan. by rewrite Hnan in Hnan'.
Qed.

(** X18, at the scenario model, one item per user asked for. *)
Lemma recommend_k_items_novel_witness :
  let test := [mk_query "B" "x"; mk_query "A" "y"] in
  let table := [mk_prediction (Some "B") "y" (F64.div (F64.of_Z 4) (F64.of_Z 3));
                mk_prediction (Some "A") "z" (F64.div (F64.of_Z 5) (F64.of_Z 2))] in
  recommend_k_items top_k_sorted scenario_model test 1 true true false = Ok table ∧
  ∀ row u n i a,
    row ∈ table → p_user row = Some u →
    user_index_of (map i_user scenario) !! u = Some n →
    user_index_of (map i_item scenario) !! p_item row = Some i →
    stored (default (mk_csr 0 0 (λ _ _, None)) (user_affinity scenario_model)) n i = Some a →
    F64.positive a = false.
Proof.
  intros test table.
  assert (recommend_k_items top_k_sorted scenario_model test 1 true true false = Ok table)
    as Hrec by (vm_compute; reflexivity).
  split; [exact Hrec|].
  apply (recommend_k_items_novel top_k_sorted scenario_model test 1 true
           (user_index_of (map i_user scenario)) (user_index_of (map i_item scenario))
           (Pd.dict (Pd.enumerate (Pd.unique (map i_item scenario))))
           (default (mk_csr 0 0 (λ _ _, None)) (user_affinity scenario_model)) table).
  - exact top_k_sorted_selects_cells.
  - reflexivity.
  - reflexivity.
  - reflexivity.
  - intros i x. apply enumerate_index_inverse. apply NoDup_unique.
  - apply option_default_Some. vm_compute. reflexivity.
  - exact Hrec.
Defined.

(** ** Prediction *)

Lemma take_pairs_lookup (a : ndarray) (ix : list (nat * nat)) (vs : list float) :
  Np.take_pairs a ix = Ok vs →
  length vs = length ix ∧
  ∀ k r c, ix !! k = Some (r, c) →
    r < nrows a ∧ c < ncols a ∧ vs !! k = Some (cell a r c).
Proof.
  revert vs. induction ix as [|[r0 c0] ix IH]; intros vs H; simpl in H.
  - injection H as <-. split; [done|]. intros k r c Hk. by destruct k.
  - case_decide as Hb; [|done]. apply bind_Ok in H as (vs' & Hvs & H). injection H as <-.
    destruct (IH _ Hvs) as [Hlen Hcell]. split; [simpl; by rewrite Hlen|].
    intros [|k] r c Hk; simpl in *.
    + injection Hk as <- <-. tauto.
    + by apply Hcell.
Qed.

Lemma traverse_length {A B} (f : A → result B) (l : list A) (l' : list B) :
  traverse f l = Ok l' → length l' = length l.
Proof.
  revert l'. induction l as [|x l IH]; intros l' H; simpl in H.
  - by injection H as <-.
  - apply bind_Ok in H as (y & _ & H). apply bind_Ok in H as (ys & Hys & H).
    injection H as <-. simpl. by rewrite (IH _ Hys).
Qed.

(** What [predict] reads: the pairs of coordinates and the array they
    index. *)
Lemma predict_inv (self : SAR) (test : list query) (log : list string)
    (table : list prediction) :
  predict self test = Ok (log, table) →
  ∃ scores u2i x2i scores' user_ids item_ids vs,
    score self test false false = Ok scores ∧
    user2index self = Some u2i ∧ item2index self = Some x2i ∧
    nrows scores' = nrows scores ∧
    (∀ r c, c < ncols scores → cell scores' r c = cell scores r c) ∧
    (log = [] ↔ ∀ q, q ∈ test → is_Some (x2i !! q_item q)) ∧
    traverse coordinate (map (λ q, index_cell u2i (q_user q)) test) = Ok user_ids ∧
    (∀ k q i, test !! k = Some q → x2i !! q_item q = Some i → item_ids !! k = Some i) ∧
    length item_ids = length test ∧
    Np.take_pairs scores' (zip user_ids item_ids) = Ok vs ∧
    table = map (λ qs : query * float, mk_prediction (Some (q_user qs.1)) (q_item qs.1) qs.2)
                (zip test vs).
Proof.
  unfold predict. intros H.
  apply bind_Ok in H as (scores & Hscores & H).
  apply bind_Ok in H as (u2i & Hu & H). apply attr_Ok in Hu.
  apply bind_Ok in H as (x2i & Hx & H). apply attr_Ok in Hx.
  apply bind_Ok in H as ([log' [scores' ids]] & Hblk & H).
  apply bind_Ok in H as (user_ids & Huids & H).
  apply bind_Ok in H as (item_ids & Hiids & H).
  apply bind_Ok in H as (vs & Hvs & H). injection H as <- <-.
  exists scores, u2i, x2i, scores', user_ids, item_ids, vs.
  repeat (split; [done|]).
  set (cells := map (λ q, index_cell x2i (q_item q)) test) in *.
  assert (existsb id (map (λ c, bool_decide (c = IdxNaN)) cells) = false
          ↔ ∀ q, q ∈ test → is_Some (x2i !! q_item q)) as Hknown.
  { rewrite <- not_true_iff_false, existsb_elem_of. split.
    - intros Hno q Hq. destruct (x2i !! q_item q) as [i|] eqn:E; [by eexists|].
      exfalso. apply Hno. exists true. split; [|done].
      apply list_elem_of_fmap. exists IdxNaN. split; [done|].
      apply list_elem_of_fmap. exists q. split; [|done]. unfold index_cell. by rewrite E.
    - intros Hall (b & Hb & Htrue). simpl in Htrue. subst b.
      apply list_elem_of_fmap in Hb as (c & Hc & Hin).
      symmetry in Hc. apply bool_decide_eq_true in Hc. subst c.
      apply list_elem_of_fmap in Hin as (q & Hq & Hqin).
      destruct (Hall q Hqin) as [i Hi]. unfold index_cell in Hq. by rewrite Hi in Hq. }
  assert (nrows scores' = nrows scores ∧
          (∀ r c, c < ncols scores → cell scores' r c = cell scores r c) ∧
          (log' = [] ↔ ∀ q, q ∈ test → is_Some (x2i !! q_item q)) ∧
          (∀ k q i, test !! k = Some q → x2i !! q_item q = Some i → ids !! k = Some (Idx i)) ∧
          length ids = length test) as (Hr & Hcell & Hlog & Hids & Hlen).
  { destruct (existsb id _) eqn:Hex.
    - apply bind_Ok in Hblk as (nu & _ & Hblk).
      apply bind_Ok in Hblk as (ts & Happ & Hblk).
      apply bind_Ok in Hblk as (ni & _ & Hblk). injection Hblk as <- <- <-.
      unfold Np.append_axis1 in Happ. case_decide; [|done]. injection Happ as <-. simpl.
      split; [done|]. split; [intros r c Hc; by rewrite decide_True|].
      split.
      { split; [done|]. intros Hall. apply Hknown in Hall. congruence. }
      split.
      + intros k q i Hk Hi. subst cells. fmapify. rewrite !list_lookup_fmap, Hk. simpl.
        unfold index_cell. by rewrite Hi.
      + subst cells. by rewrite !length_map.
    - injection Hblk as <- <- <-. split; [done|]. split; [done|].
      split; [split; [intros _; by apply Hknown|done]|].
      split.
      + intros k q i Hk Hi. subst cells. fmapify. rewrite list_lookup_fmap, Hk. simpl.
        unfold index_cell. by rewrite Hi.
      + subst cells. by rewrite length_map. }
  repeat (split; [done|]).
  split.
  - intros k q i Hk Hi. pose proof (traverse_Ok_lookup _ _ _ Hiids k) as Hn.
    rewrite (Hids k q i Hk Hi) in Hn. destruct (item_ids !! k) as [y|]; [|done].
    simpl in Hn. by injection Hn as ->.
  - split; [|done]. by rewrite (traverse_length _ _ _ Hiids).
Qed.

(** X19. [predict], when it returns: the table has one row per row of the
    request, with the same user and item, in the same order; and the warning
    is logged exactly when some item of the request is not in the index. *)
Theorem predict_rows (self : SAR) (test : list query) (log : list string)
    (table : list prediction) (x2i : gmap string nat) :
  predict self test = Ok (log, table) →
  item2index self = Some x2i →
  map (λ p, (p_user p, p_item p)) table = map (λ q, (Some (q_user q), q_item q)) test ∧
  (log = [] ↔ ∀ q, q ∈ test → is_Some (x2i !! q_item q)).
Proof.
  intros H Hx.
  destruct (predict_inv _ _ _ _ H)
    as (scores & u2i & x2i' & scores' & uids & iids & vs & _ & _ & Hx' & _ & _ & Hlog
        & Huids & _ & Hlen & Hvs & ->).
  rewrite Hx in Hx'. injection Hx' as <-. split; [|done].
  destruct (take_pairs_lookup _ _ _ Hvs) as [Hlvs _].
  rewrite length_zip in Hlvs. rewrite (traverse_length _ _ _ Huids), length_map, Hlen in Hlvs.
  assert (length vs = length test) as Hl by lia.
  clear -Hl. revert vs Hl. induction test as [|q test IH]; intros [|v vs] Hl; try done.
  simpl. f_equal. apply IH. simpl in Hl. lia.
Qed.

(** X19, at the scenario model, for a request with the unseen item w. *)
Lemma predict_rows_witness :
  let test := [mk_query "A" "w"; mk_query "B" "x"; mk_query "C" "y"] in
  map (λ p, (p_user p, p_item p))
      [mk_prediction (Some "A") "w" F64.zero;
       mk_prediction (Some "B") "x" (F64.of_Z 5);
       mk_prediction (Some "C") "y" (F64.of_Z 1)]
  = map (λ q, (Some (q_user q), q_item q)) test ∧
  (["Items found in test not seen during training, new items will have score of 0"] = []
   ↔ ∀ q, q ∈ test → is_Some (user_index_of (map i_item scenario) !! q_item q)).
Proof.
  intros test.
  apply (predict_rows scenario_model test).
  - vm_compute. reflexivity.
  - reflexivity.
Defined.

(** X20. [predict], when it returns: the score of a request row whose item is
    in the index is the cell of [score] in the column of the item and in the
    row numbered by the user's training index, and that index is below the
    number of distinct users of the request (the rows of [score] follow the
    distinct users of the request, in order). *)
Theorem predict_reads_training_row (self : SAR) (test : list query) (log : list string)
    (table : list prediction) (scores : ndarray) (u2i x2i : gmap string nat) :
  predict self test = Ok (log, table) →
  score self test false false = Ok scores →
  user2index self = Some u2i → item2index self = Some x2i →
  ∀ k q row i,
    test !! k = Some q → table !! k = Some row → x2i !! q_item q = Some i →
    ∃ n, u2i !! q_user q = Some n ∧
         n < length (Pd.unique (map q_user test)) ∧
         (i < ncols scores → p_score row = cell scores n i).
Proof.
  intros H Hscores Hu Hx k q row i Hk Hrow Hi.
  destruct (predict_inv _ _ _ _ H)
    as (scores0 & u2i' & x2i' & scores' & uids & iids & vs & Hs0 & Hu' & Hx' & Hr & Hcell & _
        & Huids & Hiids & Hlen & Hvs & ->).
  rewrite Hscores in Hs0. injection Hs0 as <-.
  rewrite Hu in Hu'. injection Hu' as <-. rewrite Hx in Hx'. injection Hx' as <-.
  pose proof (traverse_Ok_lookup _ _ _ Huids k) as Hn.
  fmapify_in Hn. rewrite list_lookup_fmap, Hk in Hn. simpl in Hn.
  destruct (uids !! k) as [n|] eqn:Hun; [|done].
  unfold index_cell in Hn. destruct (u2i !! q_user q) as [n'|] eqn:Hq; [|done].
  injection Hn as ->.
  destruct (take_pairs_lookup _ _ _ Hvs) as [_ Hpairs].
  destruct (Hpairs k n i) as (Hnr & Hic & Hv).
  { apply lookup_zip_with_Some. exists n, i. split; [done|]. split; [done|]. by eapply Hiids. }
  exists n. split; [done|].
  assert (nrows scores = length (Pd.unique (map q_user test))) as Hshape.
  { destruct (score_false_inv _ _ _ _ Hscores)
      as (u2i' & aff & rows & sim & raw & _ & _ & _ & _ & Hsim & _ & _).
    by destruct (score_shape_inv _ _ _ _ _ _ Hscores Hsim). }
  split; [by rewrite <- Hshape, <- Hr|].
  intros Hlt.
  fmapify_in Hrow. apply list_lookup_fmap_Some in Hrow as ([q' v] & -> & Hz).
  apply lookup_zip_with_Some in Hz as (q'' & v' & [= <- <-] & Hq'' & Hv').
  rewrite Hk in Hq''. injection Hq'' as <-. rewrite Hv in Hv'. injection Hv' as <-.
  simpl. by apply Hcell.
Qed.

(** X20, at the scenario model, for a request that names users A and B in training order. *)
Lemma predict_reads_training_row_witness :
  let test := [mk_query "A" "z"; mk_query "B" "y"] in
  let table := [mk_prediction (Some "A") "z" (F64.div (F64.of_Z 5) (F64.of_Z 2));
                mk_prediction (Some "B") "y" (F64.div (F64.of_Z 4) (F64.of_Z 3))] in
  let scores := array_of (score scenario_model test false false) in
  predict scenario_model test = Ok ([], table) ∧
  ∀ k q row i,
    test !! k = Some q → table !! k = Some row →
    user_index_of (map i_item scenario) !! q_item q = Some i →
    ∃ n, user_index_of (map i_user scenario) !! q_user q = Some n ∧
         n < length (Pd.unique (map q_user test)) ∧
         (i < ncols scores → p_score row = cell scores n i).
Proof.
  intros test table scores.
  assert (predict scenario_model test = Ok ([], table)) as Hp by (vm_compute; reflexivity).
  split; [exact Hp|].
  apply (predict_reads_training_row scenario_model test [] table scores).
  - exact Hp.
  - apply is_ok_array. vm_compute. reflexivity.
  - reflexivity.
  - reflexivity.
Defined.

(** ** Cold start: the grouping keys *)

Lemma unique_fmap_inj_in {A B} `{EqDecision A, EqDecision B} (f : A → B) (l : list A) :
  (∀ x y, x ∈ l → y ∈ l → f x = f y → x = y) →
  Pd.unique (map f l) = map f (Pd.unique l).
Proof.
  induction l as [|x l IH]; intros Hinj; [done|]. simpl. f_equal.
  rewrite IH by (intros y z Hy Hz; apply Hinj; by apply list_elem_of_further).
  assert (∀ y, y ∈ Pd.unique l → y ∈ x :: l) as Hsub
    by (intros y Hy; apply list_elem_of_further; by apply elem_of_unique).
  clear IH. induction (Pd.unique l) as [|y k IHk]; [done|]. simpl.
  rewrite !filter_cons.
  rewrite IHk by (intros z Hz; apply Hsub; by apply list_elem_of_further).
  destruct (decide (y ≠ x)) as [Hne|Heq].
  - rewrite decide_True; [done|]. intros E. apply Hne. apply Hinj; [|apply list_elem_of_here|done].
    apply Hsub, list_elem_of_here.
  - rewrite decide_False; [done|]. intros E. apply Heq. intros ->. done.
Qed.

Lemma seed_scores_users (self : SAR) (items : seeds) (users : list (option string))
    (masked : ndarray) :
  seed_scores self items = Ok (users, masked) →
  users = Pd.unique (match s_users items with
                     | Some us => map Some us
                     | None => map (λ _, None) (s_items items)
                     end) ∧
  nrows masked = length users.
Proof.
  unfold seed_scores. intros H.
  apply bind_Ok in H as (x2i & _ & H).
  destruct (s_users items) as [us|].
  - apply bind_Ok in H as (ids & _ & H). apply bind_Ok in H as (ni & _ & H).
    apply bind_Ok in H as (pa & Hpa & H). apply bind_Ok in H as (sim & _ & H).
    apply bind_Ok in H as (ts & Hts & H). apply bind_Ok in H as (ts' & Hput & H).
    injection H as <- <-. split; [done|].
    unfold Sp.coo_matrix in Hpa. destruct (forallb _ _); [|done]. injection Hpa as <-.
    unfold Sp.dot in Hts. case_decide; [|done]. injection Hts as <-.
    assert (∀ a ix v a', Np.put_pairs a ix v = Ok a' → nrows a' = nrows a) as Hrows.
    { clear. intros a ix v. revert a. induction ix as [|[r c] ix IH]; intros a a' H; simpl in H.
      - by injection H as <-.
      - case_decide; [|done]. by rewrite (IH _ _ H). }
    rewrite (Hrows _ _ _ _ Hput). simpl.
    rewrite (unique_fmap_inj Some us) by apply _. rewrite length_map.
    rewrite (unique_fmap_inj_in (λ u, default 0 (user_index_of us !! u)) us).
    + by rewrite length_map.
    + intros u v Hu Hv Heq.
      destruct (user_index_is_Some us u Hu) as (n & Hn & _).
      destruct (user_index_is_Some us v Hv) as (k & Hk & _).
      rewrite Hn, Hk in Heq. simpl in Heq. subst k. by eapply user_index_inj.
  - apply bind_Ok in H as (ids & _ & H). apply bind_Ok in H as (ni & _ & H).
    apply bind_Ok in H as (pa & Hpa & H). apply bind_Ok in H as (sim & _ & H).
    apply bind_Ok in H as (ts & Hts & H). apply bind_Ok in H as (ts' & Hput & H).
    injection H as <- <-. split; [by rewrite <- list_fmap_compose|].
    unfold Sp.coo_matrix in Hpa. destruct (forallb _ _); [|done]. injection Hpa as <-.
    unfold Sp.dot in Hts. case_decide; [|done]. injection Hts as <-.
    assert (∀ a ix v a', Np.put_pairs a ix v = Ok a' → nrows a' = nrows a) as Hrows.
    { clear. intros a ix v. revert a. induction ix as [|[r c] ix IH]; intros a a' H; simpl in H.
      - by injection H as <-.
      - case_decide; [|done]. by rewrite (IH _ _ H). }
    rewrite (Hrows _ _ _ _ Hput). simpl.
    rewrite !unique_constant. by destruct (s_items items).
Qed.

(** X21. [get_item_based_topk]: the seeds are grouped by the user column alone.
    The score matrix has one row per distinct grouping user, in order of
    first appearance (a single anonymous user when the table has no user
    column); every row of the table carries the key of its group, an item of
    the index, and the masked score cell of that group and item. The
    selector is any function that returns, with each item, the score cell of
    that item. *)
Theorem get_item_based_topk_groups
    (topk : ndarray → nat → bool → list (list (nat * float)))
    (self : SAR) (items : seeds) (top_k : nat) (sort_top_k : bool)
    (i2x : gmap nat string) (table : list prediction) :
  selects_cells topk →
  index2item self = Some i2x →
  get_item_based_topk topk self items top_k sort_top_k = Ok table →
  ∃ users masked,
    seed_scores self items = Ok (users, masked) ∧
    users = Pd.unique (match s_users items with
                       | Some us => map Some us
                       | None => map (λ _, None) (s_items items)
                       end) ∧
    nrows masked = length users ∧
    ∀ row, row ∈ table →
      ∃ r i, users !! r = Some (p_user row) ∧ i2x !! i = Some (p_item row) ∧
             p_score row = cell masked r i.
Proof.
  intros Htop Hi H. unfold get_item_based_topk in H.
  apply bind_Ok in H as ([users masked] & Hseed & H).
  apply bind_Ok in H as (df & Hdf & H). injection H as <-.
  destruct (seed_scores_users _ _ _ _ Hseed) as [Husers Hrows].
  exists users, masked. repeat (split; [done|]).
  intros row Hrow. unfold replace_dropna in Hrow.
  apply list_elem_of_filter in Hrow as [_ Hrow].
  destruct (result_table_rows _ _ _ _ _ _ Hi Hdf Hrow) as (r & toprow & i & Hr & Ht & Hiv & Hitem).
  exists r, i. repeat (split; [done|]).
  by apply (Htop _ _ _ _ _ _ _ Ht Hiv).
Qed.

(** X21, at the scenario model with two seed sets. *)
Lemma get_item_based_topk_groups_witness :
  ∃ users masked,
    seed_scores scenario_model seeds_by_user = Ok (users, masked) ∧
    users = Pd.unique (match s_users seeds_by_user with
                       | Some us => map Some us
                       | None => map (λ _, None) (s_items seeds_by_user)
                       end) ∧
    nrows masked = length users ∧
    ∀ row, row ∈ seeds_by_user_table →
      ∃ r i, users !! r = Some (p_user row) ∧
             Pd.dict (Pd.enumerate ["x"; "y"; "z"]) !! i = Some (p_item row) ∧
             p_score row = cell masked r i.
Proof.
  apply (get_item_based_topk_groups top_k_sorted scenario_model seeds_by_user 2 true).
  - exact top_k_sorted_selects_cells.
  - vm_compute. reflexivity.
  - vm_compute. reflexivity.
Defined.
